(** * git-dumper: a shallow embedding of [git_dumper.py]

    The program downloads the files of an exposed [.git] directory over
    HTTP and stores them under an output directory.  The embedding keeps
    the structure of the Python source: one definition per method of
    [GitDumper], written in a small monad that threads the state of the
    file system, collects the trace of HTTP requests and file writes, and
    propagates Python exceptions.

    What the source takes from its environment is taken here from
    interfaces: the file system ([pathlib], [open]), the network
    ([requests], [urljoin]), the text codec of [open(..., 'r')] and the
    iteration order of Python's [set].  Console output ([print]) is not
    modelled. *)

From Stdlib Require Import Strings.String Strings.Ascii Strings.Byte.
From stdpp Require Import base tactics option list numbers gmap sorting.

Local Open Scope N_scope.

(** ** Python values *)

(** A Python [str] is a sequence of Unicode code points, a [bytes] object a
    sequence of bytes. *)
Abbreviation str := (list N).
Abbreviation bytes := (list byte).

#[global] Instance byte_eq_dec : EqDecision byte := Byte.byte_eq_dec.

(** String literals of the source. *)
Definition lit (s : string) : str :=
  (λ a, N_of_ascii a) <$> list_ascii_of_string s.

(** Bytes literals of the source ([b'ref:']). *)
Definition blit (s : string) : bytes := list_byte_of_string s.

Arguments lit : simpl never.
Arguments blit : simpl never.

Module Py.

(** [s.startswith(p)] *)
Definition startswith (s p : str) : bool := bool_decide (p `prefix_of` s).

(** [str.isspace] on one code point: the characters [str.strip()]
    removes. *)
Definition isspace (c : N) : bool :=
  ((9 <=? c) && (c <=? 13)) || ((28 <=? c) && (c <=? 32))
  || (c =? 133) || (c =? 160) || (c =? 5760)
  || ((8192 <=? c) && (c <=? 8202))
  || (c =? 8232) || (c =? 8233) || (c =? 8239) || (c =? 8287)
  || (c =? 12288).

Fixpoint lstrip (s : str) : str :=
  match s with
  | c :: r => if isspace c then lstrip r else s
  | [] => []
  end.

Definition rstrip (s : str) : str := reverse (lstrip (reverse s)).

(** [s.strip()] *)
Definition strip (s : str) : str := rstrip (lstrip s).

(** [s.rstrip('/')] *)
Fixpoint lstrip_char (ch : N) (s : str) : str :=
  match s with
  | c :: r => if c =? ch then lstrip_char ch r else s
  | [] => []
  end.

Definition rstrip_char (ch : N) (s : str) : str :=
  reverse (lstrip_char ch (reverse s)).

(** [s.split(sep)] for a non-empty separator: the pieces between the
    leftmost non-overlapping occurrences of [sep].  [skip] counts the
    characters of a separator still to be passed over, [cur] is the
    piece being read, reversed. *)
Fixpoint split_go (sep : str) (skip : nat) (cur s : str) : list str :=
  match s with
  | [] => [reverse cur]
  | c :: r =>
      match skip with
      | S k => split_go sep k cur r
      | O =>
          if startswith s sep
          then reverse cur :: split_go sep (pred (length sep)) [] r
          else split_go sep O (c :: cur) r
      end
  end.

Definition split (s sep : str) : list str := split_go sep O [] s.

(** [needle in haystack] on bytes. *)
Fixpoint contains (haystack needle : bytes) : bool :=
  bool_decide (needle `prefix_of` haystack)
  || match haystack with
     | [] => false
     | _ :: r => contains r needle
     end.

(** [bytes.hex()]: two lower-case hexadecimal digits per byte. *)
Definition hex_digit (n : N) : N :=
  if n <? 10 then 48 + n else 87 + n.

Definition hex (bs : bytes) : str :=
  b ← bs; let n := Byte.to_N b in [hex_digit (n / 16); hex_digit (n mod 16)].

(** The characters of [bytes.hex()]. *)
Definition is_hex (c : N) : bool :=
  ((48 <=? c) && (c <=? 57)) || ((97 <=? c) && (c <=? 102)).

(** Truth value of [content] in [if content:] where [content] is [None]
    or a [bytes] object. *)
Definition truthy (content : option bytes) : bool :=
  match content with
  | Some (_ :: _) => true
  | _ => false
  end.

End Py.

(** ** The environment of the program *)

(** What [session.get(url, timeout=10)] gives: a response with its status
    code and body, or an exception of [requests]. *)
Inductive response :=
  | Response (status_code : Z) (content : bytes)
  | RequestException.

(** The network: [urllib.parse.urljoin] and the server behind
    [requests.Session.get], which answers a URL always the same way. *)
Class Network := {
  urljoin : str → str → str;
  session_get : str → response;
}.

(** [pathlib] values rooted at the output directory of the dumper. *)
Inductive Path :=
  | OutputDir
  | PathJoin (p : Path) (s : str)
  | PathParent (p : Path).

Declare Scope path_scope.
Delimit Scope path_scope with path.
Bind Scope path_scope with Path.
Notation "p </> s" := (PathJoin p s) (at level 40, left associativity) : path_scope.
Local Open Scope path_scope.

(** The file system as the program uses it.  An operation that can raise
    [OSError] tells so with [false] or [None]; a failing write may still
    have changed the state. *)
Class FileSystem := {
  fs_state : Type;
  (** [p.exists()] *)
  path_exists : fs_state → Path → bool;
  (** [p.is_file()] *)
  path_is_file : fs_state → Path → bool;
  (** [p.rglob('*')] *)
  path_rglob : fs_state → Path → list Path;
  (** [p.mkdir(parents=True, exist_ok=True)] *)
  path_mkdir : fs_state → Path → bool * fs_state;
  (** [open(p, 'rb').read()] *)
  read_bytes : fs_state → Path → option bytes;
  (** [open(p, 'wb').write(content)] *)
  write_bytes : fs_state → Path → bytes → bool * fs_state;
}.

(** The codec of [open(p, 'r').read()]: the locale's encoding together
    with the newline translation of text mode; [None] is
    [UnicodeDecodeError]. *)
Class Codec := {
  decode_text : bytes → option str;
}.

(** Iterating over a Python [set] visits each element once, in an order
    the language does not fix. *)
Class SetOrder := {
  set_iter : gset str → list str;
  set_iter_perm : ∀ X, set_iter X ≡ₚ elements X;
}.

(** ** The monad of the embedding *)

Inductive exn := IndexError | UnicodeDecodeError | OSError.

(** What a run does to the outside world, in order. *)
Inductive event :=
  | Fetch (path : str) (r : response)
  | Write (path : str) (content : bytes).

Inductive outcome (A : Type) :=
  | Ret (a : A)
  | Raise (e : exn).
Arguments Ret {A} a.
Arguments Raise {A} e.

Section Monad.
Context `{FileSystem}.

Definition M (A : Type) : Type := fs_state → outcome A * fs_state * list event.

(** The three parts of what a computation gives. *)
Definition out {A} (r : outcome A * fs_state * list event) : outcome A := r.1.1.
Definition final {A} (r : outcome A * fs_state * list event) : fs_state := r.1.2.
Definition trace {A} (r : outcome A * fs_state * list event) : list event := r.2.

Definition ret {A} (a : A) : M A := λ s, (Ret a, s, []).

Definition bind {A B} (m : M A) (f : A → M B) : M B := λ s,
  match m s with
  | (Ret a, s1, t1) =>
      match f a s1 with
      | (o, s2, t2) => (o, s2, t1 ++ t2)
      end
  | (Raise e, s1, t1) => (Raise e, s1, t1)
  end.

(** stdpp's notations [x ← m; k] and [m;; k] are used for [M]. *)
#[global] Instance M_ret : MRet M := @ret.
#[global] Instance M_bind : MBind M := λ A B f m, bind m f.

Definition raise {A} (e : exn) : M A := λ s, (Raise e, s, []).

Definition emit (e : event) : M unit := λ s, (Ret tt, s, [e]).

Definition get_state : M fs_state := λ s, (Ret s, s, []).

(** Lifting the operations of the file system. *)
Definition exists_ (p : Path) : M bool := λ s, (Ret (path_exists s p), s, []).
Definition is_file (p : Path) : M bool := λ s, (Ret (path_is_file s p), s, []).
Definition rglob (p : Path) : M (list Path) := λ s, (Ret (path_rglob s p), s, []).
Definition mkdir (p : Path) : M unit := λ s,
  match path_mkdir s p with
  | (true, s') => (Ret tt, s', [])
  | (false, s') => (Raise OSError, s', [])
  end.
Definition open_rb_read (p : Path) : M bytes := λ s,
  match read_bytes s p with
  | Some c => (Ret c, s, [])
  | None => (Raise OSError, s, [])
  end.
Definition open_wb_write (p : Path) (content : bytes) : M unit := λ s,
  match write_bytes s p content with
  | (true, s') => (Ret tt, s', [])
  | (false, s') => (Raise OSError, s', [])
  end.

(** [for x in l: body x] *)
Fixpoint for_each {A} (l : list A) (body : A → M unit) : M unit :=
  match l with
  | [] => ret tt
  | x :: r => body x;; for_each r body
  end.

(** A [for] loop that updates a local variable. *)
Fixpoint for_fold {A S} (l : list A) (acc : S) (body : S → A → M S) : M S :=
  match l with
  | [] => ret acc
  | x :: r => bind (body acc x) (λ acc', for_fold r acc' body)
  end.

End Monad.


(** ** The program *)

(** [GitDumper.__init__]: the attributes the methods read.  The output
    directory is the root of the [Path] values. *)
Record GitDumper := { base_url : str }.

Definition GitDumper_init (url : str) : GitDumper :=
  {| base_url := Py.rstrip_char 47 url ++ lit "/.git/" |}.

(** The loop of [parse_index_file]:
    [while i < len(content) - 20: ...; i += 1].  Each turn uses one unit
    of [fuel]; [index_scan_fuel] shows that [length content] units let the
    loop run until its condition fails. *)
Fixpoint index_scan (fuel : nat) (content : bytes) (i : Z) (hashes : list str)
  : list str :=
  match fuel with
  | O => hashes
  | S fuel' =>
      if (i <? Z.of_nat (length content) - 20)%Z then
        let chunk := take 20 (drop (Z.to_nat i) content) in
        let hex_hash := Py.hex chunk in
        let hashes :=
          if (length hex_hash =? 40)%nat then hashes ++ [hex_hash] else hashes in
        index_scan fuel' content (i + 1) hashes
      else hashes
  end.

Section Program.
Context `{Network, FileSystem, Codec, SetOrder}.
Variable self : GitDumper.

(** [open(p, 'r').read()] *)
Definition open_r_read (p : Path) : M str :=
  raw ← open_rb_read p;
  match decode_text raw with
  | Some text => ret text
  | None => raise UnicodeDecodeError
  end.

(** The answer of the server to the request for [path]. *)
Definition resp (path : str) : response :=
  session_get (urljoin (base_url self) path).

Definition download_file (path : str) : M (option bytes) :=
  let url := urljoin (base_url self) path in
  let r := session_get url in
  emit (Fetch path r);;
  match r with
  | Response status_code content =>
      if (status_code =? 200)%Z then ret (Some content) else ret None
  | RequestException => ret None
  end.

Definition save_file (path : str) (content : bytes) : M unit :=
  let file_path := OutputDir </> path in
  mkdir (PathParent file_path);;
  open_wb_write file_path content;;
  emit (Write path content).

Definition basic_files : list str :=
  [ lit "HEAD"; lit "config"; lit "description"; lit "index";
    lit "packed-refs"; lit "FETCH_HEAD"; lit "ORIG_HEAD" ].

Definition dump_basic_files : M unit :=
  for_each basic_files (λ file,
    content ← download_file file;
    match content with
    | Some ((_ :: _) as content) => save_file (lit ".git/" ++ file) content
    | _ => ret tt
    end).

Definition ref_paths : list str :=
  [ lit "refs/heads/master"; lit "refs/heads/main";
    lit "refs/remotes/origin/master"; lit "refs/remotes/origin/main";
    lit "refs/remotes/origin/HEAD"; lit "refs/stash" ].

Definition dump_refs : M unit :=
  for_each ref_paths (λ ref_path,
    content ← download_file ref_path;
    match content with
    | Some ((_ :: _) as content) => save_file (lit ".git/" ++ ref_path) content
    | _ => ret tt
    end).

Definition log_paths : list str :=
  [ lit "logs/HEAD"; lit "logs/refs/heads/master"; lit "logs/refs/heads/main";
    lit "logs/refs/remotes/origin/master"; lit "logs/refs/remotes/origin/main" ].

Definition dump_logs : M unit :=
  for_each log_paths (λ log_path,
    content ← download_file log_path;
    match content with
    | Some ((_ :: _) as content) => save_file (lit ".git/" ++ log_path) content
    | _ => ret tt
    end).

Definition parse_index_file : M (list str) :=
  let index_path := OutputDir </> lit ".git" </> lit "index" in
  ex ← exists_ index_path;
  if negb ex then ret [] else
  content ← open_rb_read index_path;
  let hashes := index_scan (length content) content 0 [] in
  ret (set_iter (list_to_set hashes)).

Definition obj_path (sha1_hash : str) : str :=
  lit "objects/" ++ take 2 sha1_hash ++ lit "/" ++ drop 2 sha1_hash.

Definition dump_object (sha1_hash : str) : M bool :=
  let obj_path := obj_path sha1_hash in
  content ← download_file obj_path;
  match content with
  | Some ((_ :: _) as content) =>
      save_file (lit ".git/" ++ obj_path) content;;
      ret true
  | _ => ret false
  end.

(** [dump_objects_from_refs] up to its download loop, in two parts.
    [read_head] is the block under [if head_file.exists()]. *)
Definition read_head (git_dir : Path) (hashes : gset str) : M (gset str) :=
  let head_file := git_dir </> lit "HEAD" in
  ex ← exists_ head_file;
  if negb ex then ret hashes else
  text ← open_r_read head_file;
  let content := Py.strip text in
  if negb (Py.startswith content (lit "ref:")) then ret hashes else
  match Py.split content (lit "ref: ") !! 1%nat with
  | None => raise IndexError
  | Some ref_path =>
      let ref_file := git_dir </> ref_path in
      ex ← exists_ ref_file;
      if negb ex then ret hashes else
      text ← open_r_read ref_file;
      ret (hashes ∪ {[ Py.strip text ]})
  end.

(** [read_refs] is the block under [if refs_dir.exists()]. *)
Definition read_refs (git_dir : Path) (hashes : gset str) : M (gset str) :=
  let refs_dir := git_dir </> lit "refs" in
  ex ← exists_ refs_dir;
  if negb ex then ret hashes else
  files ← rglob refs_dir;
  for_fold files hashes (λ hashes ref_file,
    isf ← is_file ref_file;
    if negb isf then ret hashes else
    text ← open_r_read ref_file;
    let content := Py.strip text in
    if (length content =? 40)%nat then ret (hashes ∪ {[ content ]})
    else ret hashes).

Definition collect_ref_hashes : M (gset str) :=
  let git_dir := OutputDir </> lit ".git" in
  let hashes : gset str := ∅ in
  hashes ← read_head git_dir hashes;
  read_refs git_dir hashes.

Definition dump_objects_from_refs : M unit :=
  hashes ← collect_ref_hashes;
  for_each (set_iter hashes) (λ sha1_hash, dump_object sha1_hash;; ret tt).

Definition dump_objects_from_index : M unit :=
  hashes ← parse_index_file;
  for_each hashes (λ sha1_hash,
    if (length sha1_hash =? 40)%nat then dump_object sha1_hash;; ret tt
    else ret tt).

Definition check_git_exposed : M bool :=
  content ← download_file (lit "HEAD");
  match content with
  | Some ((_ :: _) as content) => ret (Py.contains content (blit "ref:"))
  | _ => ret false
  end.

Definition dump : M bool :=
  exposed ← check_git_exposed;
  if negb exposed then ret false else
  mkdir OutputDir;;
  dump_basic_files;;
  dump_refs;;
  dump_logs;;
  dump_objects_from_refs;;
  dump_objects_from_index;;
  ret true.

End Program.

(** ** Views of a run used in the statements *)

(** The paths requested, in order, and the paths written. *)
Definition fetched (t : list event) : list str :=
  omap (λ e, match e with Fetch p _ => Some p | _ => None end) t.

Definition written (t : list event) : list (str * bytes) :=
  omap (λ e, match e with Write q c => Some (q, c) | _ => None end) t.

(** How many times a trace requests the path [p]. *)
Definition times (p : str) (t : list event) : nat :=
  length (filter (λ q, q = p) (fetched t)).

(** ** The phases of a run

    [dump] is a probe followed by five phases.  The definitions below name
    what each phase is expected to request and write, and the ids the two
    object phases start from; the lemmas on [dump] relate them to the
    program. *)

Section Phases.
Context `{Network, FileSystem, Codec, SetOrder}.
Variable self : GitDumper.

(** The body the program takes as fetched: a 200 response whose body is
    not empty (the test [if content:]). *)
Definition fetched_body (r : response) : option bytes :=
  match r with
  | Response 200 ((_ :: _) as c) => Some c
  | _ => None
  end.

(** The probe of [check_git_exposed] succeeds. *)
Definition probe_ok : bool :=
  match fetched_body (resp self (lit "HEAD")) with
  | Some content => Py.contains content (blit "ref:")
  | None => false
  end.

(** The request for [p], and the write of its body at [q] when there is a
    body. *)
Definition block_trace (p q : str) : list event :=
  Fetch p (resp self p)
  :: match fetched_body (resp self p) with
     | Some c => [Write q c]
     | None => []
     end.

Definition files_trace (files : list str) : list event :=
  file ← files; block_trace file (lit ".git/" ++ file).

Definition objects_trace (hashes : list str) : list event :=
  sha1_hash ← hashes;
  block_trace (obj_path sha1_hash) (lit ".git/" ++ obj_path sha1_hash).

(** The phases before the object phases. *)
Definition dump_metadata : M unit :=
  mkdir OutputDir;;
  dump_basic_files self;;
  dump_refs self;;
  dump_logs self.

(** The ids [dump_objects_from_refs] collects in the state [s]. *)
Definition ref_seeds (s : fs_state) : gset str :=
  match out (collect_ref_hashes s) with
  | Ret hashes => hashes
  | Raise _ => ∅
  end.

(** The ids [dump_objects_from_index] downloads in the state [s]. *)
Definition index_seeds (s : fs_state) : list str :=
  match out (parse_index_file s) with
  | Ret hashes => filter (λ sha1_hash, length sha1_hash = 40%nat) hashes
  | Raise _ => []
  end.

(** The state in which the ids of the refs are collected, and the state in
    which the index is parsed, in the run that starts in [s]. *)
Definition refs_state (s : fs_state) : fs_state := final (dump_metadata s).

Definition index_state (s : fs_state) : fs_state :=
  final (dump_objects_from_refs self (refs_state s)).

(** The whole trace of a run that passes the probe and is not cut short by
    an exception. *)
Definition expected_trace (s : fs_state) : list event :=
  Fetch (lit "HEAD") (resp self (lit "HEAD"))
  :: files_trace basic_files ++ files_trace ref_paths ++ files_trace log_paths
  ++ objects_trace (set_iter (ref_seeds (refs_state s)))
  ++ objects_trace (index_seeds (index_state s)).

(** The object ids a trace requests, and those it saves. *)
Definition requests_object (t : list event) (sha1_hash : str) : Prop :=
  obj_path sha1_hash ∈ fetched t.

Definition saves_object (t : list event) (sha1_hash : str) : Prop :=
  lit ".git/" ++ obj_path sha1_hash ∈ (written t).*1.

(** The server exposes the object [sha1_hash]. *)
Definition exposed (sha1_hash : str) : Prop :=
  is_Some (fetched_body (resp self (obj_path sha1_hash))).

(** The text [open(p, 'r').read()] gives in the state [s], when it
    gives one. *)
Definition read_text (s : fs_state) (p : Path) : option str :=
  raw ← read_bytes s p; decode_text raw.

(** Where the ids of [collect_ref_hashes] come from: [h] is the whole text,
    stripped, of the file that [HEAD] names, *)
Definition head_target_id (s : fs_state) (h : str) : Prop :=
  ∃ text ref_path text',
    read_text s (OutputDir </> lit ".git" </> lit "HEAD") = Some text
    ∧ Py.split (Py.strip text) (lit "ref: ") !! 1%nat = Some ref_path
    ∧ read_text s (OutputDir </> lit ".git" </> ref_path) = Some text'
    ∧ h = Py.strip text'.

(** or the whole text, stripped and 40 characters long, of a file below
    [refs]. *)
Definition ref_file_id (s : fs_state) (h : str) : Prop :=
  ∃ ref_file text,
    ref_file ∈ path_rglob s (OutputDir </> lit ".git" </> lit "refs")
    ∧ read_text s ref_file = Some text
    ∧ h = Py.strip text ∧ length h = 40%nat.

(** Where the ids of [parse_index_file] come from: [h] is the hexadecimal
    form of the 20 bytes of the index file at an offset [j] below
    [len(content) - 20]. *)
Definition index_window_id (s : fs_state) (h : str) : Prop :=
  ∃ content j,
    read_bytes s (OutputDir </> lit ".git" </> lit "index") = Some content
    ∧ (j + 20 < length content)%nat
    ∧ h = Py.hex (take 20 (drop j content)).

(** The path [HEAD] names, when its text [raw] makes
    [dump_objects_from_refs] look for one. *)
Definition head_target (raw : bytes) : option str :=
  text ← decode_text raw;
  let content := Py.strip text in
  if Py.startswith content (lit "ref:")
  then Py.split content (lit "ref: ") !! 1%nat
  else None.

(** An id as [git] writes it: 40 hexadecimal digits. *)
Definition is_sha1 (h : str) : Prop :=
  length h = 40%nat ∧ Forall (λ c, Py.is_hex c = true) h.

(** The files of the three metadata phases. *)
Definition metadata_files : list str := basic_files ++ ref_paths ++ log_paths.

(** The paths a run saves when its ids are well formed. *)
Definition known_path (p : str) : Prop :=
  p ∈ metadata_files ∨ ∃ h, is_sha1 h ∧ p = obj_path h.

(** The objects that a walk of the object graph would reach: the exposed
    seeds, and the exposed objects that a reached object refers to, where
    [references] gives the ids that the stored bytes of an object carry
    once decoded (the tree and parents of a commit, the children of a tree,
    the target of a tag). *)
Inductive reachable (references : bytes → list str) (seeds : str → Prop)
  : str → Prop :=
  | reachable_seed h :
      seeds h → exposed h → reachable references seeds h
  | reachable_step h c h' :
      reachable references seeds h →
      fetched_body (resp self (obj_path h)) = Some c →
      h' ∈ references c → exposed h' →
      reachable references seeds h'.

End Phases.

(** [main], after [argparse]: [args_url] is [args.url].  The result is the
    exit status of the process: [sys.exit(0 if success else 1)], and status
    1 when an exception reaches the top level. *)

(** [re.sub(r'\.git(\/|)', '', url)]: every leftmost, non-overlapping match
    of [.git], together with the [/] that follows it when there is one, is
    deleted. *)
Definition is_dot_git (a b c d : N) : bool :=
  (a =? 46) && (b =? 103) && (c =? 105) && (d =? 116).

Fixpoint re_sub_git (url : str) : str :=
  match url with
  | a :: ((b :: c :: d :: r) as t) =>
      if is_dot_git a b c d then
        match r with
        | e :: r' => if e =? 47 then re_sub_git r' else re_sub_git r
        | [] => []
        end
      else a :: re_sub_git t
  | a :: t => a :: re_sub_git t
  | [] => []
  end.

(** [if not url.startswith('http://') and not url.startswith('https://'):
    url = 'http://' + url] *)
Definition with_scheme (url : str) : str :=
  if negb (Py.startswith url (lit "http://"))
     && negb (Py.startswith url (lit "https://"))
  then lit "http://" ++ url else url.

(** The URL [main] hands to [GitDumper]. *)
Definition normalize_url (args_url : str) : str :=
  let url := args_url in
  let url := with_scheme url in
  re_sub_git url.

(** What is left of [y], the text behind a match of [\.git], once the
    group [(\/|)] has taken the slash at its head, if there is one. *)
Definition after_slash (y : str) : str :=
  match y with
  | e :: y' => if e =? 47 then y' else y
  | [] => []
  end.

(** [.git] occurs in [s]. *)
Definition occurs_dot_git (s : str) : Prop :=
  ∃ x y, s = x ++ lit ".git" ++ y.

Section Main.
Context `{FileSystem, Codec, SetOrder}.
(** The server reached through [requests] and [urljoin]. *)
Context `{Network}.

Definition main (args_url : str) (s : fs_state) : Z * fs_state * list event :=
  let url := normalize_url args_url in
  let dumper := GitDumper_init url in
  match dump dumper s with
  | (Ret success, s', t) => (if success then 0%Z else 1%Z, s', t)
  | (Raise _, s', t) => (1%Z, s', t)
  end.

(** The exit status in the result of [main]. *)
Definition exit_code (r : Z * fs_state * list event) : Z := r.1.1.

End Main.

(** ** A concrete environment

    The instances below are the environment in which the scenarios of this
    file run: a directory tree held in a finite map, a server given by the
    table of the files it exposes, UTF-8 as the codec of text files. *)

Module MapFS.

(** The name of a file: the components of its path below the output
    directory. *)
Abbreviation key := (list str).

(** The components of a relative path as [pathlib] keeps them: empty
    components and [.] are dropped. *)
Fixpoint components_go (cur s : str) : list str :=
  match s with
  | [] => [reverse cur]
  | c :: r =>
      if c =? 47 then reverse cur :: components_go [] r
      else components_go (c :: cur) r
  end.

Definition components (s : str) : list str :=
  filter (λ seg, seg ≠ [] ∧ seg ≠ lit ".") (components_go [] s).

(** A joined string stays inside the modelled tree when it is relative,
    has no [..] component and no NUL character. *)
Definition inside (s : str) : bool :=
  negb (Py.startswith s (lit "/"))
  && bool_decide (lit ".." ∉ components s)
  && bool_decide (0 ∉ s).

(** A name that stays in the tree and that the operating system takes as
    it is: [inside], made of at most 255 ASCII characters.  The theorems
    on this file system are about runs that read and write such names
    only. *)
Definition plain (s : str) : bool :=
  inside s
  && forallb (λ c, (1 <=? c) && (c <=? 127)) s
  && (length s <=? 255)%nat.

(** Where a [Path] points; [None] for a path this model does not
    follow (outside the output directory, or climbing with [..]). *)
Fixpoint resolve (p : Path) : option key :=
  match p with
  | OutputDir => Some []
  | PathJoin p s =>
      k ← resolve p;
      if inside s then Some (k ++ components s) else None
  | PathParent p =>
      k ← resolve p;
      match k with
      | [] => None
      | _ => Some (removelast k)
      end
  end.

Abbreviation state := (gmap key bytes).

Definition keys (s : state) : list key := (map_to_list s).*1.

(** Directories are implicit: [k] is a directory when a file lies
    strictly below it. *)
Definition is_dir (s : state) (k : key) : bool :=
  bool_decide (Exists (λ k', k `prefix_of` k' ∧ k ≠ k') (keys s)).

Definition is_file (s : state) (k : key) : bool :=
  bool_decide (is_Some (s !! k)).

(** A file on the way to [k], [k] included. *)
Definition file_on_path (s : state) (k : key) : bool :=
  bool_decide (Exists (λ k', k' `prefix_of` k) (keys s)).

Definition to_path (k : key) : Path := foldl PathJoin OutputDir k.

(** A file can be created or rewritten at [k]: [k] names something below
    the output directory, and no other file is on the way to [k] or below
    [k]. *)
Definition free (s : state) (k : key) : Prop :=
  k ≠ [] ∧ ∀ k', is_Some (s !! k') → k' ≠ k →
             ¬ k' `prefix_of` k ∧ ¬ k `prefix_of` k'.

(** The tree after the write of [w.2] at the path [w.1] of the output
    directory. *)
Definition apply_write (s : state) (w : str * bytes) : state :=
  match resolve (OutputDir </> w.1) with
  | Some k => <[k := w.2]> s
  | None => s
  end.

(** The file at [k] holds [c], and writing [c] there again changes
    nothing. *)
Definition settled (s : state) (k : key) (c : bytes) : Prop :=
  s !! k = Some c ∧ free s k.

(** The key of the file saved for the path [p] of the server. *)
Definition file_key (p : str) : key := components (lit ".git/" ++ p).

(** [s] has grown out of [sb] by files below [objects] only. *)
Definition frame (sb s : state) : Prop :=
  (∀ k, ¬ [lit ".git"; lit "objects"] `prefix_of` k → s !! k = sb !! k)
  ∧ (∀ k, is_Some (sb !! k) → is_Some (s !! k)).

(** The keys below [objects]. *)
Definition objects_key (k : key) : Prop :=
  [lit ".git"; lit "objects"] `prefix_of` k.

(** Everything strictly below [k]: files and directories. *)
Definition below (s : state) (k : key) : list key :=
  remove_dups
    (key' ← keys s;
     filter (λ k', k `prefix_of` k' ∧ k ≠ k')
            ((λ n, take n key') <$> seq 0 (S (length key')))).

#[global] Instance fs : FileSystem := {|
  fs_state := state;
  path_exists s p :=
    match resolve p with
    | Some k => is_file s k || is_dir s k
    | None => false
    end;
  path_is_file s p :=
    match resolve p with
    | Some k => is_file s k
    | None => false
    end;
  path_rglob s p :=
    match resolve p with
    | Some k => to_path <$> below s k
    | None => []
    end;
  path_mkdir s p :=
    match resolve p with
    | Some k => (negb (file_on_path s k), s)
    | None => (false, s)
    end;
  read_bytes s p := k ← resolve p; s !! k;
  write_bytes s p content :=
    match resolve p with
    | Some k =>
        if bool_decide (k = []) || is_dir s k || file_on_path s (removelast k)
        then (false, s)
        else (true, <[k := content]> s)
    | None => (false, s)
    end;
|}.

End MapFS.

(** UTF-8, strict as Python's decoder is (no overlong forms, no
    surrogates, nothing above U+10FFFF), followed by the newline
    translation of text mode. *)
Module Utf8.

Definition cont (b : N) : bool := (128 <=? b) && (b <=? 191).

Fixpoint decode_go (fuel : nat) (bs : list N) : option str :=
  match fuel with
  | O => match bs with [] => Some [] | _ => None end
  | S fuel' =>
      match bs with
      | [] => Some []
      | b0 :: r =>
          if b0 <? 128 then (b0 ::.) <$> decode_go fuel' r
          else if (194 <=? b0) && (b0 <=? 223) then
            match r with
            | b1 :: r' =>
                if cont b1
                then (((b0 - 192) * 64 + (b1 - 128)) ::.) <$> decode_go fuel' r'
                else None
            | _ => None
            end
          else if (224 <=? b0) && (b0 <=? 239) then
            match r with
            | b1 :: b2 :: r' =>
                let lo := if b0 =? 224 then 160 else 128 in
                let hi := if b0 =? 237 then 159 else 191 in
                if (lo <=? b1) && (b1 <=? hi) && cont b2
                then (((b0 - 224) * 4096 + (b1 - 128) * 64 + (b2 - 128)) ::.)
                       <$> decode_go fuel' r'
                else None
            | _ => None
            end
          else if (240 <=? b0) && (b0 <=? 244) then
            match r with
            | b1 :: b2 :: b3 :: r' =>
                let lo := if b0 =? 240 then 144 else 128 in
                let hi := if b0 =? 244 then 143 else 191 in
                if (lo <=? b1) && (b1 <=? hi) && cont b2 && cont b3
                then (((b0 - 240) * 262144 + (b1 - 128) * 4096
                       + (b2 - 128) * 64 + (b3 - 128)) ::.)
                       <$> decode_go fuel' r'
                else None
            | _ => None
            end
          else None
      end
  end.

(** [\r\n] and a lone [\r] become [\n]. *)
Fixpoint newlines (s : str) : str :=
  match s with
  | 13 :: r =>
      10 :: match r with
            | 10 :: r' => newlines r'
            | _ => newlines r
            end
  | c :: r => c :: newlines r
  | [] => []
  end.

Definition decode (bs : bytes) : option str :=
  newlines <$> decode_go (length bs) (Byte.to_N <$> bs).

#[global] Instance codec : Codec := {| decode_text := decode |}.

End Utf8.

(** A server that exposes the files of [table] below [base] and answers
    404 everywhere else.  [urljoin] is taken on the inputs this program
    gives it in the scenarios: a base that ends in [/] and a plain
    relative path, which it concatenates. *)
Definition table_lookup (table : list (str * bytes)) (url : str) : response :=
  match list_find (λ e, e.1 = url) table with
  | Some (_, (_, content)) => Response 200 content
  | None => Response 404 []
  end.

Definition serve (base : str) (table : list (str * bytes)) : Network := {|
  urljoin b path := b ++ path;
  session_get url := table_lookup (prod_map (base ++.) id <$> table) url;
|}.

(** Sets iterated in the order of [elements]. *)
#[global] Program Instance elements_order : SetOrder := {| set_iter := elements |}.
Next Obligation. reflexivity. Qed.

(** The same sets iterated the other way round, as another process, with
    another hash seed, may do. *)
Program Definition reverse_order : SetOrder :=
  {| set_iter X := reverse (elements X) |}.
Next Obligation. intros X. apply reverse_Permutation. Qed.

(** ** The packed-refs table, after the specification

    The source downloads [packed-refs] and never reads it back.  The
    definitions of this module follow the words of the specification: the
    table is read line by line, a line [<id> <name>] with an id of 40
    hexadecimal digits gives that id, any other line is skipped. *)

Module Spec.

Definition packed_line_id (line : str) : option str :=
  let id := take 40 line in
  if (length id =? 40)%nat && forallb Py.is_hex id
     && bool_decide (drop 40 line !! 0%nat = Some 32)
     && (41 <? length line)%nat
  then Some id else None.

Definition packed_refs_ids (content : bytes) : list str :=
  omap packed_line_id (Py.split (Byte.to_N <$> content) [10]).

End Spec.

(** ** Scenarios

    Small servers and output directories on which the program is run in
    the examples of this file.  Every scenario uses the target
    [http://target], UTF-8 text and a directory tree that holds no
    directory of its own making. *)

Module Scenario.

Definition target : str := lit "http://target".
Definition base : str := lit "http://target/.git/".

Definition idA : str := lit "aaaaaaaaaaaaaaaaaaaaaaaaaaaaaaaaaaaaaaaa".
Definition idB : str := lit "bbbbbbbbbbbbbbbbbbbbbbbbbbbbbbbbbbbbbbbb".

(** The dumper [main] builds for [target]. *)
Definition dumper : GitDumper := GitDumper_init (normalize_url target).

(** The run of [main] against the server that exposes [table], from the
    directory tree [s]. *)
Definition run (table : list (str * bytes)) (s : MapFS.state)
  : Z * MapFS.state * list event :=
  @main MapFS.fs Utf8.codec elements_order (serve base table) target s.

(** The same run seen from [dump]. *)
Definition run_dump (table : list (str * bytes)) (s : MapFS.state)
  : outcome bool * MapFS.state * list event :=
  @dump (serve base table) MapFS.fs Utf8.codec elements_order dumper s.

(** A branch [master] at commit [idA]; the commit and its tree [idB] are
    both exposed. *)
Definition commit_A : bytes :=
  blit "commit A: tree bbbbbbbbbbbbbbbbbbbbbbbbbbbbbbbbbbbbbbbb".
Definition tree_B : bytes := blit "tree B".

Definition one_commit : list (str * bytes) :=
  [ (lit "HEAD", blit "ref: refs/heads/master
");
    (lit "refs/heads/master", blit "aaaaaaaaaaaaaaaaaaaaaaaaaaaaaaaaaaaaaaaa
");
    (lit "objects/aa/aaaaaaaaaaaaaaaaaaaaaaaaaaaaaaaaaaaaaa", commit_A);
    (lit "objects/bb/bbbbbbbbbbbbbbbbbbbbbbbbbbbbbbbbbbbbbb", tree_B) ].

(** A staging index cut short: two bytes followed by the 20 bytes of the
    digest [idA]. *)
Definition digest_A : bytes := replicate 20 "170"%byte.
Definition short_index : bytes := [ "000"%byte; "001"%byte ] ++ digest_A.

(** An output directory that holds [short_index] as its index file. *)
Definition with_short_index : MapFS.state :=
  {[ [lit ".git"; lit "index"] := short_index ]}.

(** An output directory in which [.git] is a regular file, as in a linked
    working tree. *)
Definition dot_git_file : MapFS.state :=
  {[ [lit ".git"] := blit "gitdir: /srv/repo/.git/worktrees/w
" ]}.

(** A [HEAD] without a space after the colon. *)
Definition head_without_space : list (str * bytes) :=
  [ (lit "HEAD", blit "ref:refs/heads/master
");
    (lit "refs/heads/master", blit "aaaaaaaaaaaaaaaaaaaaaaaaaaaaaaaaaaaaaaaa
") ].

(** The output directory after that [HEAD] has been saved. *)
Definition saved_head_without_space : MapFS.state :=
  {[ [lit ".git"; lit "HEAD"] := blit "ref:refs/heads/master
" ]}.

(** The commit [idA] is both the tip of [master] and a window of the
    index. *)
Definition index_and_ref : list (str * bytes) :=
  [ (lit "HEAD", blit "ref: refs/heads/master
");
    (lit "refs/heads/master", blit "aaaaaaaaaaaaaaaaaaaaaaaaaaaaaaaaaaaaaaaa
");
    (lit "index", digest_A ++ [ "000"%byte ]);
    (lit "objects/aa/aaaaaaaaaaaaaaaaaaaaaaaaaaaaaaaaaaaaaa", commit_A) ].

(** The branch [dev] at the tree [idB] is listed in [packed-refs] only. *)
Definition packed_refs_file : bytes :=
  blit "# pack-refs with: peeled fully-peeled sorted
bbbbbbbbbbbbbbbbbbbbbbbbbbbbbbbbbbbbbbbb refs/heads/dev
".

Definition packed : list (str * bytes) :=
  [ (lit "HEAD", blit "ref: refs/heads/master
");
    (lit "packed-refs", packed_refs_file);
    (lit "objects/bb/bbbbbbbbbbbbbbbbbbbbbbbbbbbbbbbbbbbbbb", tree_B) ].

(** A [HEAD] that names the file of an object as its ref.  The object,
    listed in the index, holds the id [idC] as text; [idC] is exposed
    too. *)
Definition idC : str := lit "cccccccccccccccccccccccccccccccccccccccc".

Definition rerun : list (str * bytes) :=
  [ (lit "HEAD", blit "ref: objects/ab/ababababababababababababababababababab
");
    (lit "index", replicate 20 "171"%byte ++ [ "000"%byte ]);
    (lit "objects/ab/ababababababababababababababababababab",
     blit "cccccccccccccccccccccccccccccccccccccccc
");
    (lit "objects/cc/cccccccccccccccccccccccccccccccccccccc", blit "blob C") ].

(** The second of two runs: from the tree the first run left, with the
    sets of ids iterated the other way round. *)
Definition run_dump_again (table : list (str * bytes)) (s : MapFS.state)
  : outcome bool * MapFS.state * list event :=
  @dump (serve base table) MapFS.fs Utf8.codec reverse_order dumper
    (final (run_dump table s)).

(** An output directory that holds a file of the user. *)
Definition with_notes : MapFS.state :=
  {[ [lit "notes.txt"] := blit "keep" ]}.

(** A repository with a detached [HEAD]: the file holds the id of the
    commit [idA], which is exposed. *)
Definition detached : list (str * bytes) :=
  [ (lit "HEAD", blit "aaaaaaaaaaaaaaaaaaaaaaaaaaaaaaaaaaaaaaaa
");
    (lit "objects/aa/aaaaaaaaaaaaaaaaaaaaaaaaaaaaaaaaaaaaaa", commit_A) ].

(** A decoder under which the commit [idA] refers to its tree [idB]. *)
Definition references (raw : bytes) : list str :=
  if decide (raw = commit_A) then [idB] else [].

End Scenario.

(** ** The vocabulary of the proofs *)

Section Vocabulary.
Context {net : Network} {fs : FileSystem} {codec : Codec}.
Variable self : GitDumper.

(** A property of traces that holds of every run of [m]. *)
Definition emits {A} (P : list event → Prop) (m : M A) : Prop :=
  ∀ s, P (trace (m s)).

(** Properties kept by sequencing. *)
Class Sequential (P : list event → Prop) := {
  seq_nil : P [];
  seq_app : ∀ t1 t2, P t1 → P t2 → P (t1 ++ t2);
}.

(** A computation that only reads: it leaves the state as it is and
    the trace empty. *)
Definition reads_only {A} (m : M A) : Prop :=
  ∀ s, final (m s) = s ∧ trace (m s) = [].

(** What [download_file] returns for a response. *)
Definition returned (r : response) : option bytes :=
  match r with
  | Response status_code content =>
      if (status_code =? 200)%Z then Some content else None
  | RequestException => None
  end.

(** The shape of every run of
    [content = self.download_file(p); if content: self.save_file(q, content)],
    whatever follows in the two branches. *)
Definition block_result {A} (p q : str) (yes no : A) (s : fs_state)
    (r : outcome A * fs_state * list event) : Prop :=
  match fetched_body (resp self p) with
  | None => r = (Ret no, s, [Fetch p (resp self p)])
  | Some c =>
      resp self p = Response 200 c
      ∧ ((∃ s', save_file q c s = (Ret tt, s', [Write q c])
                ∧ r = (Ret yes, s', [Fetch p (resp self p); Write q c]))
         ∨ (∃ s', save_file q c s = (Raise OSError, s', [])
                  ∧ r = (Raise OSError, s', [Fetch p (resp self p)])))
  end.

(** A trace made of requests, each followed at once by the write of its
    body under [.git/], or by nothing. *)
Inductive paired : list event → Prop :=
  | paired_nil : paired []
  | paired_fetch p t : paired t → paired (Fetch p (resp self p) :: t)
  | paired_save p c t :
      resp self p = Response 200 c → paired t →
      paired (Fetch p (resp self p) :: Write (lit ".git/" ++ p) c :: t).

(** The window of [content] that starts at offset [j], in hexadecimal. *)
Definition window (content : bytes) (j : nat) : str :=
  Py.hex (take 20 (drop j content)).

(** [r] follows the script [T]: its trace is a prefix of [T], and the
    whole of [T] when [r] ends without an exception. *)
Definition follows {A} (r : outcome A * fs_state * list event) (T : list event)
  : Prop :=
  trace r `prefix_of` T ∧ (∀ a, out r = Ret a → trace r = T).

(** The bodies of the loops of [dump_basic_files], [dump_refs] and
    [dump_logs], and of the two loops over object ids. *)
Definition file_body (file : str) : M unit :=
  content ← download_file self file;
  match content with
  | Some ((_ :: _) as content) => save_file (lit ".git/" ++ file) content
  | _ => ret tt
  end.

Definition object_body (sha1_hash : str) : M unit :=
  dump_object self sha1_hash;; ret tt.

(** The two states answer alike at [p]. *)
Definition agree_at (s s' : fs_state) (p : Path) : Prop :=
  path_exists s p = path_exists s' p ∧ read_bytes s p = read_bytes s' p.

(** What one file below [refs] adds to the ids; [None] when reading it
    raises. *)
Definition ref_step (s : fs_state) (ref_file : Path) : option (gset str) :=
  if path_is_file s ref_file then
    match read_bytes s ref_file with
    | Some raw =>
        match decode_text raw with
        | Some text =>
            Some (if (length (Py.strip text) =? 40)%nat
                  then {[ Py.strip text ]} else ∅)
        | None => None
        end
    | None => None
    end
  else Some ∅.

(** The body of the loop of [read_refs]. *)
Definition ref_body (hashes : gset str) (ref_file : Path) : M (gset str) :=
  isf ← is_file ref_file;
  if negb isf then ret hashes else
  text ← open_r_read ref_file;
  let content := Py.strip text in
  if (length content =? 40)%nat then ret (hashes ∪ {[ content ]})
  else ret hashes.

(** The set [parse_index_file] builds in the state [s]. *)
Definition index_ids (s : fs_state) : option (gset str) :=
  let index_path := OutputDir </> lit ".git" </> lit "index" in
  if path_exists s index_path then
    content ← read_bytes s index_path;
    Some (list_to_set (index_scan (length content) content 0 []))
  else Some ∅.

(** The id that [dump_objects_from_refs] takes from [HEAD]: the file is
    there, its stripped text starts with [ref:], the piece behind the
    first [ref: ] names a file that is there, and [h] is the whole
    stripped text of that file. *)
Definition head_seed (s : fs_state) (h : str) : Prop :=
  let git_dir := OutputDir </> lit ".git" in
  path_exists s (git_dir </> lit "HEAD") = true
  ∧ ∃ text ref_path text',
      read_text s (git_dir </> lit "HEAD") = Some text
      ∧ Py.startswith (Py.strip text) (lit "ref:") = true
      ∧ Py.split (Py.strip text) (lit "ref: ") !! 1%nat = Some ref_path
      ∧ path_exists s (git_dir </> ref_path) = true
      ∧ read_text s (git_dir </> ref_path) = Some text'
      ∧ h = Py.strip text'.

(** An id that [dump_objects_from_refs] takes from the files below
    [refs]: the stripped text, 40 characters long, of a regular file that
    [rglob] lists. *)
Definition ref_file_seed (s : fs_state) (h : str) : Prop :=
  let refs_dir := OutputDir </> lit ".git" </> lit "refs" in
  path_exists s refs_dir = true
  ∧ ∃ ref_file text,
      ref_file ∈ path_rglob s refs_dir
      ∧ path_is_file s ref_file = true
      ∧ read_text s ref_file = Some text
      ∧ h = Py.strip text
      ∧ length h = 40%nat.

(** An id that [dump_objects_from_index] takes from the index file: the
    file is there, and [h] is the hexadecimal form of its 20 bytes at an
    offset [j] with [j + 20 < len(content)]. *)
Definition index_seed (s : fs_state) (h : str) : Prop :=
  let index_path := OutputDir </> lit ".git" </> lit "index" in
  path_exists s index_path = true
  ∧ ∃ content j,
      read_bytes s index_path = Some content
      ∧ (j + 20 < length content)%nat
      ∧ h = Py.hex (take 20 (drop j content)).


End Vocabulary.

Section Settled.
Context {net : Network}.
Variable self : GitDumper.

(** What a completed loop leaves settled, on top of the paths [D] that
    were settled before. *)
Definition settled_all (D : str → Prop) (s : MapFS.state) : Prop :=
  ∀ p, D p →
    known_path p
    ∧ ∀ c, fetched_body (resp self p) = Some c →
           MapFS.settled s (MapFS.file_key p) c.

(** The final tree of [m] is the tree it starts in with the writes of its
    trace applied in order: nothing else changes the tree. *)
Definition replays {A} (m : @M MapFS.fs A) : Prop :=
  ∀ s, final (m s) = foldl MapFS.apply_write s (written (trace (m s))).

End Settled.

(** ** Reasoning about runs *)

Section Runs.
Context `{FileSystem}.

Lemma bind_run {A B} (m : M A) (f : A → M B) s :
  (m ≫= f) s =
  match m s with
  | (Ret a, s1, t1) => let '(o, s2, t2) := f a s1 in (o, s2, t1 ++ t2)
  | (Raise e, s1, t1) => (Raise e, s1, t1)
  end.
Proof. reflexivity. Qed.

Lemma trace_bind {A B} (m : M A) (f : A → M B) s :
  trace ((m ≫= f) s) =
  trace (m s) ++ match out (m s) with
                 | Ret a => trace (f a (final (m s)))
                 | Raise _ => []
                 end.
Proof.
  rewrite bind_run. unfold trace, out, final.
  destruct (m s) as [[[a|e] s1] t1]; simpl.
  - by destruct (f a s1) as [[o s2] t2].
  - by rewrite app_nil_r.
Qed.

Section Emits.
Context (P : list event → Prop) `{!Sequential P}.

Lemma emits_ret {A} (a : A) : emits P (ret a).
Proof. intros s. apply seq_nil. Qed.

Lemma emits_raise {A} e : emits P (raise (A:=A) e).
Proof. intros s. apply seq_nil. Qed.

Lemma emits_bind {A B} (m : M A) (f : A → M B) :
  emits P m → (∀ a, emits P (f a)) → emits P (m ≫= f).
Proof.
  intros Hm Hf s. rewrite trace_bind. apply seq_app; [apply Hm|].
  destruct (out (m s)); [apply Hf | apply seq_nil].
Qed.


Lemma emits_for_fold {A S} (l : list A) (acc : S) (body : S → A → M S) :
  (∀ a x, emits P (body a x)) → emits P (for_fold l acc body).
Proof.
  intros Hb. revert acc. induction l as [|x l IH]; intros acc; simpl.
  - apply emits_ret.
  - apply emits_bind; [apply Hb | apply IH].
Qed.

Lemma emits_exists p : emits P (exists_ p).
Proof. intros s. apply seq_nil. Qed.

Lemma emits_is_file p : emits P (is_file p).
Proof. intros s. apply seq_nil. Qed.

Lemma emits_rglob p : emits P (rglob p).
Proof. intros s. apply seq_nil. Qed.


Lemma emits_open_rb_read p : emits P (open_rb_read p).
Proof.
  intros s. unfold open_rb_read. destruct (read_bytes s p); apply seq_nil.
Qed.

Lemma emits_open_wb_write p c : emits P (open_wb_write p c).
Proof.
  intros s. unfold open_wb_write.
  destruct (write_bytes s p c) as [[] s']; apply seq_nil.
Qed.

End Emits.

Lemma reads_only_ret {A} (a : A) : reads_only (ret a).
Proof. done. Qed.

Lemma reads_only_raise {A} e : reads_only (raise (A:=A) e).
Proof. done. Qed.

Lemma reads_only_bind {A B} (m : M A) (f : A → M B) :
  reads_only m → (∀ a, reads_only (f a)) → reads_only (m ≫= f).
Proof.
  intros Hm Hf s. destruct (Hm s) as [Hs Ht]. rewrite bind_run.
  destruct (m s) as [[[a|e] s1] t1]; cbn in Hs, Ht; subst s1 t1; [|done].
  destruct (Hf a s) as [Hs' Ht'].
  destruct (f a s) as [[o s2] t2]; cbn in Hs', Ht'. by subst s2 t2.
Qed.

Lemma reads_only_for_fold {A S} (l : list A) (acc : S) (body : S → A → M S) :
  (∀ a x, reads_only (body a x)) → reads_only (for_fold l acc body).
Proof.
  intros Hb. revert acc. induction l as [|x l IH]; intros acc; simpl.
  - apply reads_only_ret.
  - apply reads_only_bind; [apply Hb | apply IH].
Qed.

Lemma reads_only_exists p : reads_only (exists_ p).
Proof. done. Qed.

Lemma reads_only_is_file p : reads_only (is_file p).
Proof. done. Qed.

Lemma reads_only_rglob p : reads_only (rglob p).
Proof. done. Qed.

Lemma reads_only_open_rb_read p : reads_only (open_rb_read p).
Proof. intros s. unfold open_rb_read. by destruct (read_bytes s p). Qed.

Lemma reads_only_run {A} (m : M A) s :
  reads_only m → m s = (out (m s), s, []).
Proof.
  intros Hm. destruct (Hm s) as [Hs Ht].
  destruct (m s) as [[o s1] t1]; cbn in Hs, Ht. by subst s1 t1.
Qed.

End Runs.

(** ** The methods, one by one *)

Section Methods.
Context `{Network, FileSystem, Codec, SetOrder}.
Variable self : GitDumper.


Lemma download_file_run path s :
  download_file self path s = (Ret (returned (resp self path)), s, [Fetch path (resp self path)]).
Proof.
  unfold download_file, resp. rewrite bind_run. cbn.
  destruct (session_get _) as [st c|]; cbn; [|done].
  by destruct (st =? 200)%Z.
Qed.

Lemma returned_fetched_body r :
  match returned r with
  | Some ((_ :: _) as c) => fetched_body r = Some c ∧ r = Response 200 c
  | _ => fetched_body r = None
  end.
Proof.
  destruct r as [st c|]; cbn; [|done].
  destruct (st =? 200)%Z eqn:E.
  - apply Z.eqb_eq in E. subst st. by destruct c.
  - destruct st as [|p|p]; try done.
    do 8 (try destruct p as [p|p|]; try done).
Qed.

Lemma save_file_run path content s :
  (∃ s', save_file path content s = (Ret tt, s', [Write path content]))
  ∨ (∃ s', save_file path content s = (Raise OSError, s', [])).
Proof.
  unfold save_file. rewrite !bind_run. unfold mkdir.
  destruct (path_mkdir _ _) as [[] s1]; [|right; by eexists].
  rewrite !bind_run. unfold open_wb_write.
  destruct (write_bytes _ _ _) as [[] s2]; [left|right]; by eexists.
Qed.

Lemma save_block_run p q s :
  block_result self p q tt tt s
    ((content ← download_file self p;
      match content with
      | Some ((_ :: _) as content) => save_file q content
      | _ => ret tt
      end) s).
Proof.
  unfold block_result. rewrite bind_run, download_file_run.
  pose proof (returned_fetched_body (resp self p)) as Hr.
  destruct (returned (resp self p)) as [[|b c]|]; try (rewrite Hr; reflexivity).
  destruct Hr as [-> Hr]. split; [done|].
  destruct (save_file_run q (b :: c) s) as [[s' Hs]|[s' Hs]];
    rewrite Hs; [left|right]; by exists s'.
Qed.

Lemma dump_object_run sha1_hash s :
  block_result self (obj_path sha1_hash) (lit ".git/" ++ obj_path sha1_hash)
    true false s (dump_object self sha1_hash s).
Proof.
  unfold block_result, dump_object. rewrite bind_run, download_file_run.
  pose proof (returned_fetched_body (resp self (obj_path sha1_hash))) as Hr.
  destruct (returned _) as [[|b c]|]; try (rewrite Hr; reflexivity).
  destruct Hr as [-> Hr]. split; [done|]. rewrite bind_run.
  destruct (save_file_run (lit ".git/" ++ obj_path sha1_hash) (b :: c) s)
    as [[s' Hs]|[s' Hs]]; rewrite Hs; [left|right]; by exists s'.
Qed.

Lemma dump_object_unit_run sha1_hash s :
  block_result self (obj_path sha1_hash) (lit ".git/" ++ obj_path sha1_hash)
    tt tt s ((dump_object self sha1_hash;; ret tt) s).
Proof.
  pose proof (dump_object_run sha1_hash s) as Hb. revert Hb.
  unfold block_result. rewrite bind_run.
  destruct (fetched_body _) as [c|].
  - intros [Hr [(s' & Hs & ->)|(s' & Hs & ->)]]; (split; [done|]);
      [left|right]; by exists s'.
  - by intros ->.
Qed.

Lemma check_git_exposed_run s :
  check_git_exposed self s
  = (Ret (match fetched_body (resp self (lit "HEAD")) with
          | Some content => Py.contains content (blit "ref:")
          | None => false
          end), s, [Fetch (lit "HEAD") (resp self (lit "HEAD"))]).
Proof.
  unfold check_git_exposed. rewrite bind_run, download_file_run.
  pose proof (returned_fetched_body (resp self (lit "HEAD"))) as Hr.
  destruct (returned _) as [[|b c]|]; try (rewrite Hr; reflexivity).
  by destruct Hr as [-> _].
Qed.

Lemma open_r_read_reads_only p : reads_only (open_r_read p).
Proof.
  apply reads_only_bind; [apply reads_only_open_rb_read|].
  intros raw. by destruct (decode_text raw).
Qed.

Lemma read_head_reads_only git_dir hashes : reads_only (read_head git_dir hashes).
Proof.
  unfold read_head.
  apply reads_only_bind; [apply reads_only_exists|]. intros [|]; cbn [negb]; [|done].
  apply reads_only_bind; [apply open_r_read_reads_only|]. intros text.
  destruct (Py.startswith _ _); cbn [negb]; [|done].
  destruct (_ !! _) as [ref_path|]; [|done].
  apply reads_only_bind; [apply reads_only_exists|]. intros [|]; cbn [negb]; [|done].
  apply reads_only_bind; [apply open_r_read_reads_only|]. done.
Qed.

Lemma read_refs_reads_only git_dir hashes : reads_only (read_refs git_dir hashes).
Proof.
  unfold read_refs.
  apply reads_only_bind; [apply reads_only_exists|]. intros [|]; cbn [negb]; [|done].
  apply reads_only_bind; [apply reads_only_rglob|]. intros files.
  apply reads_only_for_fold. intros acc ref_file.
  apply reads_only_bind; [apply reads_only_is_file|]. intros [|]; cbn [negb]; [|done].
  apply reads_only_bind; [apply open_r_read_reads_only|]. intros text.
  by destruct (_ =? _)%nat.
Qed.

Lemma collect_ref_hashes_reads_only : reads_only collect_ref_hashes.
Proof.
  apply reads_only_bind; [apply read_head_reads_only|].
  intros hashes. apply read_refs_reads_only.
Qed.

Lemma parse_index_file_reads_only : reads_only parse_index_file.
Proof.
  unfold parse_index_file.
  apply reads_only_bind; [apply reads_only_exists|]. intros [|]; cbn [negb]; [|done].
  apply reads_only_bind; [apply reads_only_open_rb_read|]. done.
Qed.

End Methods.

(** ** Requests and writes come in pairs *)

Section Pairing.
Context `{Network, FileSystem, Codec, SetOrder}.
Variable self : GitDumper.


#[local] Instance paired_sequential : Sequential (paired self).
Proof.
  split; [constructor|].
  intros t1 t2 Ht1 Ht2.
  induction Ht1; simpl; [done | by constructor | by constructor].
Qed.

Lemma paired_block {A} p (yes no : A) s r :
  block_result self p (lit ".git/" ++ p) yes no s r → paired self (trace r).
Proof.
  unfold block_result. destruct (fetched_body _) as [c|].
  - intros [Hr [(s' & _ & ->)|(s' & _ & ->)]]; cbn; repeat constructor; done.
  - intros ->. cbn. repeat constructor.
Qed.


Lemma paired_dump_object sha1_hash : emits (paired self) (dump_object self sha1_hash).
Proof. intros s. eapply paired_block, dump_object_run. Qed.



End Pairing.

(** ** Byte preservation and the layout of objects *)

Section Preservation.
Context `{Network, FileSystem, Codec, SetOrder}.
Variable self : GitDumper.


End Preservation.

(** ** The scan of the staging index *)

Section IndexScan.

Lemma hex_length bs : length (Py.hex bs) = (2 * length bs)%nat.
Proof.
  unfold Py.hex. induction bs as [|b bs IH]; [done|].
  cbn. rewrite IH. lia.
Qed.

Lemma window_length content j :
  (j + 20 ≤ length content)%nat → length (window content j) = 40%nat.
Proof.
  intros Hj. unfold window. rewrite hex_length, length_take, length_drop. lia.
Qed.

(** The loop appends the windows at the offsets [i], [i+1], ... up to the
    last offset below [len(content) - 20], provided the fuel does not run
    out first. *)
Lemma index_scan_spec content fuel i acc :
  (i ≤ length content - 20)%nat →
  (length content - 20 - i ≤ fuel)%nat →
  index_scan fuel content (Z.of_nat i) acc
  = acc ++ (window content <$> seq i (length content - 20 - i)).
Proof.
  revert i acc. induction fuel as [|fuel IH]; intros i acc Hi Hfuel.
  - replace (length content - 20 - i)%nat with 0%nat by lia.
    cbn. by rewrite app_nil_r.
  - cbn [index_scan].
    destruct (Z.ltb_spec (Z.of_nat i) (Z.of_nat (length content) - 20)) as [Hlt|Hge].
    + rewrite Nat2Z.id. fold (window content i).
      rewrite window_length by lia. cbn [Nat.eqb].
      replace (Z.of_nat i + 1)%Z with (Z.of_nat (S i)) by lia.
      rewrite IH by lia.
      replace (length content - 20 - i)%nat with (S (length content - 20 - S i)) by lia.
      cbn [seq fmap list_fmap]. by rewrite <- app_assoc.
    + replace (length content - 20 - i)%nat with 0%nat by lia.
      cbn. by rewrite app_nil_r.
Qed.

(** [length content] units of fuel are enough: with any larger supply the
    loop gives the same list, so it stops because its condition fails. *)
Lemma index_scan_fuel content fuel :
  (length content ≤ fuel)%nat →
  index_scan fuel content 0 [] = index_scan (length content) content 0 [].
Proof.
  intros Hfuel. change 0%Z with (Z.of_nat 0).
  rewrite !index_scan_spec by lia. done.
Qed.

Lemma index_scan_windows content :
  index_scan (length content) content 0 []
  = window content <$> seq 0 (length content - 20).
Proof.
  change 0%Z with (Z.of_nat 0). rewrite index_scan_spec by lia.
  by rewrite Nat.sub_0_r.
Qed.

(** The windows the loop does reach: every offset strictly below
    [len(content) - 20]. *)
Lemma index_scan_reaches content j :
  (j + 20 < length content)%nat →
  window content j ∈ index_scan (length content) content 0 [].
Proof.
  intros Hj. rewrite index_scan_windows.
  apply list_elem_of_fmap. exists j. split; [done|].
  apply elem_of_seq. lia.
Qed.

End IndexScan.

(** C6.  On an index file of 22 bytes the window at offset 2 fits inside
    the file (2 + 20 = 22) and holds the digest [idA]; the list returned by
    [parse_index_file] has the windows at offsets 0 and 1 only, and [idA]
    is not among them. *)
Theorem parse_index_file_misses_last_window :
  (2 + 20 ≤ length Scenario.short_index)%nat
  ∧ window Scenario.short_index 2 = Scenario.idA
  ∧ ∃ hashes,
      out (@parse_index_file MapFS.fs elements_order Scenario.with_short_index)
        = Ret hashes
      ∧ length hashes = 2%nat
      ∧ Scenario.idA ∉ hashes.
Proof.
  split; [vm_compute; lia|]. split; [vm_compute; reflexivity|].
  eexists. split; [vm_compute; reflexivity|].
  split; [reflexivity|].
  apply (bool_decide_unpack _). vm_compute. exact I.
Qed.

(** ** The trace of a whole run *)

Section Walk.
Context `{Network, FileSystem, Codec, SetOrder}.
Variable self : GitDumper.

Lemma follows_ret {A} (a : A) s : follows (ret a s) [].
Proof. split; [done|]. intros _ _. done. Qed.

Lemma follows_bind {A B} (m : M A) (f : A → M B) s T1 T2 :
  follows (m s) T1 →
  (∀ a, out (m s) = Ret a → follows (f a (final (m s))) T2) →
  follows ((m ≫= f) s) (T1 ++ T2).
Proof.
  intros [Hp1 He1] Hf. rewrite bind_run. unfold follows, out, final, trace in *.
  destruct (m s) as [[[a|e] s1] t1]; cbn in *.
  - specialize (He1 a eq_refl). subst t1.
    destruct (Hf a eq_refl) as [Hp2 He2].
    destruct (f a s1) as [[o s2] t2]; cbn in *. split.
    + by apply prefix_app.
    + intros b Hb. by rewrite (He2 b Hb).
  - split; [by apply prefix_app_r|]. done.
Qed.

Lemma follows_bind_nil {A B} (m : M A) (f : A → M B) s T :
  follows (m s) [] →
  (∀ a, out (m s) = Ret a → follows (f a (final (m s))) T) →
  follows ((m ≫= f) s) T.
Proof. intros Hm Hf. exact (follows_bind m f s [] T Hm Hf). Qed.

Lemma follows_reads_only {A} (m : M A) s : reads_only m → follows (m s) [].
Proof.
  intros Hm. destruct (Hm s) as [_ Ht]. split; rewrite Ht; done.
Qed.

Lemma follows_block {A} p q (yes no : A) s r :
  block_result self p q yes no s r → follows r (block_trace self p q).
Proof.
  unfold block_result, block_trace. destruct (fetched_body _) as [c|].
  - intros [_ [(s' & _ & ->)|(s' & _ & ->)]]; split; cbn; try done.
    by apply prefix_cons, prefix_nil.
  - by intros ->.
Qed.

Lemma follows_for_each {A} (l : list A) (body : A → M unit) (T : A → list event) s :
  (∀ x s, follows (body x s) (T x)) →
  follows (for_each l body s) (x ← l; T x).
Proof.
  intros Hb. revert s. induction l as [|x l IH]; intros s.
  - apply follows_ret.
  - cbn [for_each mbind list_bind]. apply (follows_bind (body x)); [apply Hb|].
    intros _ _. apply IH.
Qed.

Lemma follows_mkdir p s : follows (mkdir p s) [].
Proof. unfold mkdir. by destruct (path_mkdir s p) as [[] s']. Qed.

Lemma follows_files (files : list str) s :
  follows
    (for_each files (λ file,
       content ← download_file self file;
       match content with
       | Some ((_ :: _) as content) => save_file (lit ".git/" ++ file) content
       | _ => ret tt
       end) s)
    (files_trace self files).
Proof.
  apply follows_for_each. intros file s'.
  eapply follows_block, save_block_run.
Qed.

Lemma follows_objects (hashes : list str) s :
  follows
    (for_each hashes (λ sha1_hash, dump_object self sha1_hash;; ret tt) s)
    (objects_trace self hashes).
Proof.
  apply follows_for_each. intros h s'.
  eapply follows_block, dump_object_unit_run.
Qed.

Lemma for_each_ext {A} (l : list A) (body1 body2 : A → M unit) s :
  (∀ x s, body1 x s = body2 x s) →
  for_each l body1 s = for_each l body2 s.
Proof.
  intros Hb. revert s. induction l as [|x l IH]; intros s; [done|].
  cbn [for_each]. rewrite !bind_run, Hb.
  destruct (body2 x s) as [[[[]|e] s1] t1]; [|done]. by rewrite IH.
Qed.

(** Skipping the elements that fail a test is looping over those that
    pass it. *)
Lemma for_each_filter {A} (P : A → Prop) `{!∀ x, Decision (P x)}
    (l : list A) (body : A → M unit) s :
  for_each l (λ x, if bool_decide (P x) then body x else ret tt) s
  = for_each (filter P l) body s.
Proof.
  revert s. induction l as [|x l IH]; intros s; [done|].
  rewrite filter_cons. cbn [for_each]. rewrite bind_run.
  destruct (decide (P x)) as [Hx|Hx].
  - rewrite (bool_decide_eq_true_2 _ Hx). cbn [for_each]. rewrite bind_run.
    destruct (body x s) as [[[[]|e] s1] t1]; [|done]. by rewrite IH.
  - rewrite (bool_decide_eq_false_2 _ Hx). cbn. rewrite IH.
    by destruct (for_each (filter P l) body s) as [[o s2] t2].
Qed.

Lemma follows_dump_metadata s :
  follows (dump_metadata self s)
    (files_trace self basic_files ++ files_trace self ref_paths
     ++ files_trace self log_paths).
Proof.
  unfold dump_metadata.
  apply follows_bind_nil; [apply follows_mkdir|]. intros _ _.
  apply follows_bind; [apply follows_files|]. intros _ _.
  apply follows_bind; [apply follows_files|]. intros _ _.
  apply follows_files.
Qed.

Lemma follows_dump_objects_from_refs s :
  follows (dump_objects_from_refs self s)
    (objects_trace self (set_iter (ref_seeds s))).
Proof.
  unfold dump_objects_from_refs.
  apply follows_bind_nil.
  { apply follows_reads_only, collect_ref_hashes_reads_only. }
  intros hashes Hout.
  rewrite (proj1 (collect_ref_hashes_reads_only s)).
  unfold ref_seeds. rewrite Hout. apply follows_objects.
Qed.

Lemma follows_dump_objects_from_index s :
  follows (dump_objects_from_index self s) (objects_trace self (index_seeds s)).
Proof.
  unfold dump_objects_from_index.
  apply follows_bind_nil.
  { apply follows_reads_only, parse_index_file_reads_only. }
  intros hashes Hout.
  rewrite (proj1 (parse_index_file_reads_only s)).
  unfold index_seeds. rewrite Hout.
  rewrite (for_each_ext _ _
    (λ h, if bool_decide (length h = 40%nat)
          then dump_object self h;; ret tt else ret tt)).
  - rewrite (for_each_filter (λ h, length h = 40%nat)). apply follows_objects.
  - intros h s'. cbn beta.
    destruct (Nat.eqb_spec (length h) 40) as [Hl|Hl].
    + by rewrite (bool_decide_eq_true_2 _ Hl).
    + by rewrite (bool_decide_eq_false_2 _ Hl).
Qed.

(** The phases of [dump], regrouped. *)
Lemma dump_phases s :
  dump self s
  = (exposed ← check_git_exposed self;
     if negb exposed then ret false else
     dump_metadata self;;
     dump_objects_from_refs self;;
     dump_objects_from_index self;;
     ret true) s.
Proof.
  unfold dump, dump_metadata. rewrite !bind_run, check_git_exposed_run.
  destruct (probe_ok self) eqn:Hp; unfold probe_ok in Hp; rewrite Hp; cbn [negb];
    [|done].
  rewrite !bind_run.
  destruct (mkdir OutputDir s) as [[[[]|e] s1] t1]; [|done].
  rewrite !bind_run.
  destruct (dump_basic_files self s1) as [[[[]|e] s2] t2]; [|done].
  rewrite !bind_run.
  destruct (dump_refs self s2) as [[[[]|e] s3] t3]; [|done].
  rewrite !bind_run.
  destruct (dump_logs self s3) as [[[[]|e] s4] t4]; [|done].
  destruct ((dump_objects_from_refs self ≫= _) s4) as [[o s5] t5].
  by rewrite <- !app_assoc.
Qed.

(** A run whose probe fails is the request for [HEAD] and nothing else. *)
Lemma dump_not_exposed s :
  probe_ok self = false →
  dump self s = (Ret false, s, [Fetch (lit "HEAD") (resp self (lit "HEAD"))]).
Proof.
  intros Hp. unfold dump. rewrite bind_run, check_git_exposed_run.
  unfold probe_ok in Hp. by rewrite Hp.
Qed.

(** A run whose probe succeeds follows [expected_trace]; it returns [True]
    or raises. *)
Lemma dump_exposed s :
  probe_ok self = true →
  follows (dump self s) (expected_trace self s)
  ∧ ∀ b, out (dump self s) = Ret b → b = true.
Proof.
  intros Hp. rewrite dump_phases. split.
  - unfold expected_trace.
    apply (follows_bind _ _ _ [_]).
    { rewrite check_git_exposed_run. split; [done|]. done. }
    intros exposed Hex. rewrite check_git_exposed_run in Hex |- *.
    unfold out, final in *. cbn [fst snd] in *.
    injection Hex as <-. fold (probe_ok self). rewrite Hp. cbn [negb].
    rewrite (app_assoc (files_trace self ref_paths)).
    rewrite (app_assoc (files_trace self basic_files)).
    apply follows_bind; [apply follows_dump_metadata|]. intros _ _.
    fold (refs_state self s).
    apply follows_bind; [apply follows_dump_objects_from_refs|]. intros _ _.
    fold (index_state self s).
    rewrite <- (app_nil_r (objects_trace _ _)).
    apply follows_bind; [apply follows_dump_objects_from_index|]. intros _ _.
    apply follows_ret.
  - intros b. rewrite bind_run, check_git_exposed_run.
    fold (probe_ok self). rewrite Hp. cbn [negb].
    rewrite !bind_run.
    destruct (dump_metadata self s) as [[[[]|e] s1] t1]; [|done].
    rewrite !bind_run.
    destruct (dump_objects_from_refs self s1) as [[[[]|e] s2] t2]; [|done].
    rewrite !bind_run.
    destruct (dump_objects_from_index self s2) as [[[[]|e] s3] t3]; [|done].
    cbn. unfold out. cbn. congruence.
Qed.

End Walk.

(** ** The exit status *)

Section ExitStatus.
Context `{Network, FileSystem, Codec, SetOrder}.

(** C4, as the code has it.  The exit status is 0 exactly when the probe
    succeeds and no exception interrupts the dump that follows; when the
    probe fails, the request for [HEAD] is the only one, nothing is
    written, and the exit status is 1. *)
Theorem main_exit_code args_url s :
  let self := GitDumper_init (normalize_url args_url) in
  (exit_code (main args_url s) = 0%Z
   ↔ probe_ok self = true ∧ ∃ b, out (dump self s) = Ret b)
  ∧ (probe_ok self = false →
     exit_code (main args_url s) = 1%Z
     ∧ (main args_url s).2 = [Fetch (lit "HEAD") (resp self (lit "HEAD"))]
     ∧ (main args_url s).1.2 = s).
Proof.
  intros self. unfold main, exit_code. fold self.
  destruct (probe_ok self) eqn:Hp.
  - split; [|done].
    destruct (dump_exposed self s Hp) as [_ Hb].
    destruct (dump self s) as [[[b|e] s'] t]; cbn.
    + rewrite (Hb b eq_refl). split; [eauto|done].
    + split; [done|]. by intros [_ [b ?]].
  - rewrite (dump_not_exposed self s Hp). cbn. split; [|done].
    split; [done|]. by intros [? _].
Qed.

End ExitStatus.

(** C4, as stated, fails when [.git] in the output directory is a regular
    file: the probe succeeds, the first write raises [OSError], and the exit
    status is 1, not 0. *)
Lemma exit_code_not_probe_alone :
  @probe_ok (serve Scenario.base Scenario.one_commit) Scenario.dumper = true
  ∧ out (Scenario.run_dump Scenario.one_commit Scenario.dot_git_file) = Raise OSError
  ∧ exit_code (Scenario.run Scenario.one_commit Scenario.dot_git_file) = 1%Z.
Proof. repeat split; vm_compute; reflexivity. Qed.

(** C2.  With [ref:refs/heads/master] in [HEAD] the probe succeeds, the
    file is saved, and [dump_objects_from_refs] raises [IndexError] at
    [content.split('ref: ')[1]]: the run ends there with exit status 1. *)
Theorem dump_raises_on_head_without_space :
  @probe_ok (serve Scenario.base Scenario.head_without_space) Scenario.dumper = true
  ∧ out (@dump_objects_from_refs (serve Scenario.base Scenario.head_without_space)
           MapFS.fs Utf8.codec elements_order Scenario.dumper
           Scenario.saved_head_without_space)
    = Raise IndexError
  ∧ out (Scenario.run_dump Scenario.head_without_space ∅) = Raise IndexError
  ∧ exit_code (Scenario.run Scenario.head_without_space ∅) = 1%Z.
Proof. repeat split; vm_compute; reflexivity. Qed.

(** ** Requests and writes of the scripts *)

Section Scripts.
Context `{Network}.
Variable self : GitDumper.

Lemma fetched_app t1 t2 : fetched (t1 ++ t2) = fetched t1 ++ fetched t2.
Proof. apply omap_app. Qed.

Lemma written_app t1 t2 : written (t1 ++ t2) = written t1 ++ written t2.
Proof. apply omap_app. Qed.

Lemma fetched_prefix t T : t `prefix_of` T → fetched t `prefix_of` fetched T.
Proof. intros [k ->]. rewrite fetched_app. by apply prefix_app_r. Qed.

Lemma fetched_block_trace p q : fetched (block_trace self p q) = [p].
Proof. unfold block_trace. by destruct (fetched_body _). Qed.

Lemma written_block_trace p q :
  written (block_trace self p q)
  = match fetched_body (resp self p) with
    | Some c => [(q, c)]
    | None => []
    end.
Proof. unfold block_trace. by destruct (fetched_body _). Qed.

Lemma fetched_files_trace files : fetched (files_trace self files) = files.
Proof.
  unfold files_trace. induction files as [|f files IH]; [done|].
  cbn [mbind list_bind]. by rewrite fetched_app, fetched_block_trace, IH.
Qed.

Lemma fetched_objects_trace hashes :
  fetched (objects_trace self hashes) = obj_path <$> hashes.
Proof.
  unfold objects_trace. induction hashes as [|h hashes IH]; [done|].
  cbn [mbind list_bind]. by rewrite fetched_app, fetched_block_trace, IH.
Qed.

Lemma written_files_trace files q c :
  (q, c) ∈ written (files_trace self files) →
  ∃ file, file ∈ files ∧ q = lit ".git/" ++ file
          ∧ fetched_body (resp self file) = Some c.
Proof.
  unfold files_trace. induction files as [|f files IH]; [by intros ?%elem_of_nil|].
  cbn [mbind list_bind]. rewrite written_app, written_block_trace.
  intros [Hq|Hq]%elem_of_app.
  - destruct (fetched_body _) as [c'|] eqn:Hc; [|by apply elem_of_nil in Hq].
    apply list_elem_of_singleton in Hq. injection Hq as -> ->.
    exists f. split; [left|done].
  - destruct (IH Hq) as (file & Hf & ? & ?). exists file. split; [by right|done].
Qed.

Lemma written_objects_trace hashes q c :
  (q, c) ∈ written (objects_trace self hashes)
  ↔ ∃ h, h ∈ hashes ∧ q = lit ".git/" ++ obj_path h
         ∧ fetched_body (resp self (obj_path h)) = Some c.
Proof.
  unfold objects_trace. induction hashes as [|h hashes IH].
  - split; [by intros ?%elem_of_nil|]. by intros (h & ?%elem_of_nil & _).
  - cbn [mbind list_bind]. rewrite written_app, written_block_trace, elem_of_app, IH.
    split.
    + intros [Hq|(h' & Hh' & ? & ?)].
      * destruct (fetched_body _) as [c'|] eqn:Hc; [|by apply elem_of_nil in Hq].
        apply list_elem_of_singleton in Hq. injection Hq as -> ->.
        exists h. split; [left|done].
      * exists h'. split; [by right|done].
    + intros (h' & Hh' & -> & Hc). apply elem_of_cons in Hh' as [->|Hh'].
      * left. rewrite Hc. by apply list_elem_of_singleton.
      * right. by exists h'.
Qed.

(** The path of an object determines its id. *)
Lemma obj_path_inj h1 h2 : obj_path h1 = obj_path h2 → h1 = h2.
Proof.
  unfold obj_path. intros Heq. apply app_inv_head in Heq.
  assert (length h1 = length h2) as Hlen.
  { apply (f_equal length) in Heq.
    rewrite !length_app, !length_take, !length_drop in Heq. lia. }
  rewrite <- (take_drop 2 h1), <- (take_drop 2 h2).
  apply app_inj_1 in Heq as [-> Heq]; [|rewrite !length_take; lia].
  by apply app_inv_head in Heq as ->.
Qed.

Lemma obj_path_objects h : lit "objects/" `prefix_of` obj_path h.
Proof. by eexists. Qed.

(** No file of the three metadata phases, nor [HEAD], lies under
    [objects/]. *)
Lemma metadata_not_objects :
  Forall (λ file, ¬ lit "objects/" `prefix_of` file)
    (lit "HEAD" :: basic_files ++ ref_paths ++ log_paths).
Proof. apply (bool_decide_unpack _). vm_compute. exact I. Qed.

Lemma times_app p t1 t2 : times p (t1 ++ t2) = (times p t1 + times p t2)%nat.
Proof. unfold times. by rewrite fetched_app, filter_app, length_app. Qed.

Lemma times_prefix p t T : t `prefix_of` T → (times p t ≤ times p T)%nat.
Proof. intros [k ->]. rewrite times_app. lia. Qed.

Lemma count_absent (p : str) (l : list str) :
  p ∉ l → length (filter (λ q, q = p) l) = 0%nat.
Proof.
  intros Hp. induction l as [|q l IH]; [done|].
  rewrite filter_cons. apply not_elem_of_cons in Hp as [Hne Hp].
  destruct (decide (q = p)); [congruence|]. by apply IH.
Qed.

Lemma times_absent p t : p ∉ fetched t → times p t = 0%nat.
Proof. apply count_absent. Qed.

Lemma times_NoDup p t : NoDup (fetched t) → (times p t ≤ 1)%nat.
Proof.
  unfold times. induction 1 as [|q l Hq Hl IH]; [cbn; lia|].
  rewrite filter_cons. destruct (decide (q = p)) as [->|]; [|done].
  cbn [length]. rewrite (count_absent p l Hq). lia.
Qed.

Lemma times_files_trace h files :
  Forall (λ file, ¬ lit "objects/" `prefix_of` file) files →
  times (obj_path h) (files_trace self files) = 0%nat.
Proof.
  intros Hf. apply times_absent. rewrite fetched_files_trace.
  intros Hin. rewrite Forall_forall in Hf.
  apply (Hf _ Hin), obj_path_objects.
Qed.

Lemma times_objects_trace h hashes :
  NoDup hashes → (times (obj_path h) (objects_trace self hashes) ≤ 1)%nat.
Proof.
  intros Hnd. apply times_NoDup. rewrite fetched_objects_trace.
  apply NoDup_fmap_2; [|done]. intros h1 h2. apply obj_path_inj.
Qed.

End Scripts.

(** ** Which objects a run requests and saves *)

Section Objects.
Context `{Network, FileSystem, Codec, SetOrder}.
Variable self : GitDumper.

Lemma set_iter_NoDup (X : gset str) : NoDup (set_iter X).
Proof. rewrite set_iter_perm. apply NoDup_elements. Qed.

Lemma elem_of_set_iter (X : gset str) h : h ∈ set_iter X ↔ h ∈ X.
Proof. rewrite set_iter_perm. apply elem_of_elements. Qed.

Lemma parse_index_file_NoDup s hashes :
  out (parse_index_file s) = Ret hashes → NoDup hashes.
Proof.
  unfold parse_index_file. rewrite bind_run. cbn.
  destruct (path_exists s _); cbn.
  - unfold open_rb_read. rewrite bind_run.
    destruct (read_bytes s _) as [content|]; [|done].
    cbn. intros [= <-]. apply set_iter_NoDup.
  - intros [= <-]. constructor.
Qed.

Lemma index_seeds_NoDup s : NoDup (index_seeds s).
Proof.
  unfold index_seeds. destruct (out (parse_index_file s)) as [hashes|e] eqn:Ho.
  - apply NoDup_filter. by eapply parse_index_file_NoDup.
  - constructor.
Qed.

(** C3, as the code has it.  Each of the two object phases requests the
    path of an object at most once, and the three metadata phases and the
    probe never request it: an object is requested at most twice in a run,
    once for each phase that has its id among its seeds. *)
Theorem object_fetched_at_most_twice s h :
  (times (obj_path h) (trace (dump_objects_from_refs self s)) ≤ 1)%nat
  ∧ (times (obj_path h) (trace (dump_objects_from_index self s)) ≤ 1)%nat
  ∧ (times (obj_path h) (trace (dump self s)) ≤ 2)%nat.
Proof.
  pose proof metadata_not_objects as Hm.
  apply Forall_cons in Hm as [Hhead Hm].
  apply Forall_app in Hm as [Hbasic Hm]. apply Forall_app in Hm as [Hrefs Hlogs].
  split; [|split].
  - destruct (follows_dump_objects_from_refs self s) as [Hp _].
    etrans; [by apply times_prefix|].
    apply times_objects_trace, set_iter_NoDup.
  - destruct (follows_dump_objects_from_index self s) as [Hp _].
    etrans; [by apply times_prefix|].
    apply times_objects_trace, index_seeds_NoDup.
  - assert (times (obj_path h) [Fetch (lit "HEAD") (resp self (lit "HEAD"))] = 0%nat)
      as Hh.
    { apply times_absent. cbn. intros Hin%list_elem_of_singleton.
      apply Hhead. rewrite <- Hin. apply obj_path_objects. }
    destruct (probe_ok self) eqn:Hp.
    + destruct (dump_exposed self s Hp) as [[Hpre _] _].
      etrans; [by apply times_prefix|]. unfold expected_trace.
      change (Fetch ?p ?r :: ?t) with ([Fetch p r] ++ t).
      rewrite !times_app, Hh, !times_files_trace by done.
      pose proof (times_objects_trace self h _
                    (set_iter_NoDup (ref_seeds (refs_state self s)))).
      pose proof (times_objects_trace self h _
                    (index_seeds_NoDup (index_state self s))).
      lia.
    + rewrite (dump_not_exposed self s Hp). unfold trace. cbn [snd].
      rewrite Hh. lia.
Qed.

End Objects.

(** C3, as stated, fails when the id of a ref is also a window of the
    index: the object [idA] is requested once from the refs and once more
    from the index. *)
Lemma object_fetched_twice :
  times (obj_path Scenario.idA)
    (trace (Scenario.run_dump Scenario.index_and_ref ∅)) = 2%nat.
Proof. vm_compute. reflexivity. Qed.

Section SavedObjects.
Context `{Network, FileSystem, Codec, SetOrder}.
Variable self : GitDumper.

Lemma saves_object_written t h :
  saves_object t h ↔ ∃ c, (lit ".git/" ++ obj_path h, c) ∈ written t.
Proof.
  unfold saves_object. rewrite list_elem_of_fmap. split.
  - intros ([q c] & Hq & Hin). cbn in Hq. subst q. by exists c.
  - intros [c Hc]. by exists (lit ".git/" ++ obj_path h, c).
Qed.

Lemma files_trace_no_object files h c :
  Forall (λ file, ¬ lit "objects/" `prefix_of` file) files →
  (lit ".git/" ++ obj_path h, c) ∉ written (files_trace self files).
Proof.
  intros Hf Hin. apply written_files_trace in Hin as (file & Hfile & Heq & _).
  apply app_inv_head in Heq. rewrite Forall_forall in Hf.
  apply (Hf _ Hfile). rewrite <- Heq. apply obj_path_objects.
Qed.

Lemma objects_trace_saves hashes h :
  (∃ c, (lit ".git/" ++ obj_path h, c) ∈ written (objects_trace self hashes))
  ↔ h ∈ hashes ∧ exposed self h.
Proof.
  unfold exposed. split.
  - intros (c & (h' & Hh' & Heq & Hc)%written_objects_trace).
    apply app_inv_head, obj_path_inj in Heq as <-. eauto.
  - intros [Hh [c Hc]]. exists c. apply written_objects_trace. eauto.
Qed.

(** A run that completes saves exactly the exposed objects among the ids
    of its two lists. *)
Lemma saved_objects_seed_lists s :
  out (dump self s) = Ret true →
  ∀ h, saves_object (trace (dump self s)) h
       ↔ (h ∈ ref_seeds (refs_state self s) ∨ h ∈ index_seeds (index_state self s))
         ∧ exposed self h.
Proof.
  intros Hout h.
  destruct (probe_ok self) eqn:Hp;
    [|by rewrite (dump_not_exposed self s Hp) in Hout].
  destruct (dump_exposed self s Hp) as [[_ Ht] _]. rewrite (Ht _ Hout).
  pose proof metadata_not_objects as Hm.
  apply Forall_cons in Hm as [_ Hm].
  apply Forall_app in Hm as [Hbasic Hm]. apply Forall_app in Hm as [Hrefs Hlogs].
  rewrite saves_object_written.
  assert (written (expected_trace self s)
          = written (files_trace self basic_files)
            ++ written (files_trace self ref_paths)
            ++ written (files_trace self log_paths)
            ++ written (objects_trace self (set_iter (ref_seeds (refs_state self s))))
            ++ written (objects_trace self (index_seeds (index_state self s))))
    as ->.
  { unfold expected_trace. change (written (Fetch ?p ?r :: ?t)) with (written t).
    by rewrite !written_app. }
  split.
  - intros (c & Hc). rewrite !elem_of_app in Hc.
    destruct Hc as [Hc|[Hc|[Hc|[Hc|Hc]]]].
    + by apply files_trace_no_object in Hc.
    + by apply files_trace_no_object in Hc.
    + by apply files_trace_no_object in Hc.
    + destruct (proj1 (objects_trace_saves _ h) (ex_intro _ c Hc)) as [Hh He].
      split; [left; by apply elem_of_set_iter|done].
    + destruct (proj1 (objects_trace_saves _ h) (ex_intro _ c Hc)) as [Hh He].
      split; [by right|done].
  - intros [[Hh|Hh] He].
    + destruct (proj2 (objects_trace_saves (set_iter (ref_seeds (refs_state self s))) h))
        as [c Hc]; [split; [by apply elem_of_set_iter|done]|].
      exists c. rewrite !elem_of_app. do 3 right. by left.
    + destruct (proj2 (objects_trace_saves (index_seeds (index_state self s)) h))
        as [c Hc]; [done|].
      exists c. rewrite !elem_of_app. do 4 right. done.
Qed.

End SavedObjects.

(** C1, as stated, fails on a branch whose commit [idA] refers to the tree
    [idB], both exposed: a walk from the seeds reaches [idB], and the run,
    which completes, saves [idA] and not [idB]. *)
Lemma walk_stops_at_the_seeds :
  out (Scenario.run_dump Scenario.one_commit ∅) = Ret true
  ∧ @reachable (serve Scenario.base Scenario.one_commit) Scenario.dumper
      Scenario.references
      (λ h, h ∈ ref_seeds
                  (@refs_state (serve Scenario.base Scenario.one_commit)
                     MapFS.fs Scenario.dumper ∅)
            ∨ h ∈ index_seeds
                    (@index_state (serve Scenario.base Scenario.one_commit)
                       MapFS.fs Utf8.codec elements_order Scenario.dumper ∅))
      Scenario.idB
  ∧ saves_object (trace (Scenario.run_dump Scenario.one_commit ∅)) Scenario.idA
  ∧ ¬ saves_object (trace (Scenario.run_dump Scenario.one_commit ∅)) Scenario.idB.
Proof.
  split; [vm_compute; reflexivity|]. split; [|split].
  - apply (reachable_step _ _ _ Scenario.idA Scenario.commit_A).
    + apply reachable_seed.
      * left. apply (bool_decide_unpack _). vm_compute. exact I.
      * unfold exposed. vm_compute. eauto.
    + vm_compute. reflexivity.
    + vm_compute. left.
    + unfold exposed. vm_compute. eauto.
  - unfold saves_object. apply (bool_decide_unpack _). vm_compute. exact I.
  - unfold saves_object. apply (bool_decide_unpack _). vm_compute. exact I.
Qed.

(** ** Where the ids come from *)

Section Seeds.
Context `{Network, FileSystem, Codec, SetOrder}.
Variable self : GitDumper.

Lemma out_bind {A B} (m : M A) (f : A → M B) s :
  out ((m ≫= f) s)
  = match out (m s) with
    | Ret a => out (f a (final (m s)))
    | Raise e => Raise e
    end.
Proof.
  rewrite bind_run. unfold out, final.
  destruct (m s) as [[[a|e] s1] t1]; [|done].
  cbn. by destruct (f a s1) as [[o s2] t2].
Qed.

(** The result of a computation that only reads and then goes on. *)
Lemma out_bind_reads_only {A B} (m : M A) (f : A → M B) s b :
  reads_only m →
  out ((m ≫= f) s) = Ret b →
  ∃ a, out (m s) = Ret a ∧ out (f a s) = Ret b.
Proof.
  intros Hm. rewrite out_bind, (proj1 (Hm s)).
  destruct (out (m s)) as [a|e]; [|done]. eauto.
Qed.

Lemma open_r_read_out p s text :
  out (open_r_read p s) = Ret text → read_text s p = Some text.
Proof.
  unfold open_r_read, read_text, open_rb_read. rewrite out_bind.
  destruct (read_bytes s p) as [raw|]; [|done]. cbn.
  destruct (decode_text raw); unfold out; cbn; congruence.
Qed.

Lemma read_head_out s hashes hashes' :
  out (read_head (OutputDir </> lit ".git") hashes s) = Ret hashes' →
  ∀ h, h ∈ hashes' → h ∈ hashes ∨ head_target_id s h.
Proof.
  unfold read_head. intros Ho h Hh.
  apply out_bind_reads_only in Ho as (ex & _ & Ho); [|apply reads_only_exists].
  destruct ex; cbn [negb] in Ho; [|cbn in Ho; injection Ho as <-; by left].
  apply out_bind_reads_only in Ho as (text & Htext & Ho);
    [|apply open_r_read_reads_only].
  apply open_r_read_out in Htext.
  destruct (Py.startswith _ _); cbn [negb] in Ho; [|cbn in Ho; injection Ho as <-; by left].
  destruct (_ !! 1%nat) as [ref_path|] eqn:Hsplit; [|done].
  apply out_bind_reads_only in Ho as (ex & _ & Ho); [|apply reads_only_exists].
  destruct ex; cbn [negb] in Ho; [|cbn in Ho; injection Ho as <-; by left].
  apply out_bind_reads_only in Ho as (text' & Htext' & Ho);
    [|apply open_r_read_reads_only].
  apply open_r_read_out in Htext'. cbn in Ho. injection Ho as <-.
  apply elem_of_union in Hh as [Hh|Hh]; [by left|].
  apply elem_of_singleton in Hh as ->. right.
  by exists text, ref_path, text'.
Qed.

Lemma for_fold_out {A S} (I : S → Prop) (l : list A) (body : S → A → M S) s acc acc' :
  (∀ a x, reads_only (body a x)) →
  (∀ a x a', x ∈ l → I a → out (body a x s) = Ret a' → I a') →
  I acc →
  out (for_fold l acc body s) = Ret acc' →
  I acc'.
Proof.
  intros Hr. revert acc. induction l as [|x l IH]; intros acc Hb Hacc Ho.
  - cbn in Ho. by injection Ho as <-.
  - cbn [for_fold] in Ho.
    apply out_bind_reads_only in Ho as (a & Ha & Ho); [|apply Hr].
    apply (IH a); [|by eapply Hb; [left|..]|done].
    intros a0 y a1 Hy. apply Hb. by right.
Qed.

Lemma read_refs_out s hashes hashes' :
  out (read_refs (OutputDir </> lit ".git") hashes s) = Ret hashes' →
  ∀ h, h ∈ hashes' → h ∈ hashes ∨ ref_file_id s h.
Proof.
  unfold read_refs. intros Ho.
  apply out_bind_reads_only in Ho as (ex & _ & Ho); [|apply reads_only_exists].
  destruct ex; cbn [negb] in Ho; [|cbn in Ho; injection Ho as <-; by left].
  apply out_bind_reads_only in Ho as (files & Hfiles & Ho); [|apply reads_only_rglob].
  cbn in Hfiles. injection Hfiles as <-.
  refine (for_fold_out (λ X, ∀ h, h ∈ X → h ∈ hashes ∨ ref_file_id s h)
            _ _ s hashes hashes' _ _ _ Ho); [| |by left].
  - intros acc ref_file.
    apply reads_only_bind; [apply reads_only_is_file|]. intros [|]; cbn [negb]; [|done].
    apply reads_only_bind; [apply open_r_read_reads_only|]. intros text.
    by destruct (_ =? _)%nat.
  - clear Ho. intros acc ref_file acc' Hin Hacc Ho h Hh.
    apply out_bind_reads_only in Ho as (isf & _ & Ho); [|apply reads_only_is_file].
    destruct isf; cbn [negb] in Ho; [|cbn in Ho; injection Ho as <-; by apply Hacc].
    apply out_bind_reads_only in Ho as (text & Htext & Ho);
      [|apply open_r_read_reads_only].
    apply open_r_read_out in Htext.
    destruct (Nat.eqb_spec (length (Py.strip text)) 40) as [Hlen|Hlen];
      cbn in Ho; injection Ho as <-; [|by apply Hacc].
    apply elem_of_union in Hh as [Hh|Hh]; [by apply Hacc|].
    apply elem_of_singleton in Hh as ->. right.
    by exists ref_file, text.
Qed.

Lemma ref_seeds_sources s h :
  h ∈ ref_seeds s → head_target_id s h ∨ ref_file_id s h.
Proof.
  unfold ref_seeds, collect_ref_hashes.
  destruct (out _) as [hashes'|e] eqn:Ho; [|by intros ?%elem_of_empty].
  apply out_bind_reads_only in Ho as (hashes & Hhead & Hrefs);
    [|apply read_head_reads_only].
  intros Hh.
  destruct (read_refs_out _ _ _ Hrefs h Hh) as [Hh'|?]; [|by right].
  destruct (read_head_out _ _ _ Hhead h Hh') as [?%elem_of_empty|?]; [done|by left].
Qed.

Lemma index_seeds_sources s h : h ∈ index_seeds s → index_window_id s h.
Proof.
  unfold index_seeds, parse_index_file.
  destruct (out _) as [hashes|e] eqn:Ho; [|by intros ?%elem_of_nil].
  apply out_bind_reads_only in Ho as (ex & _ & Ho); [|apply reads_only_exists].
  intros [_ Hh]%list_elem_of_filter.
  destruct ex; cbn [negb] in Ho;
    [|cbn in Ho; injection Ho as <-; by apply elem_of_nil in Hh].
  apply out_bind_reads_only in Ho as (content & Hc & Ho);
    [|apply reads_only_open_rb_read].
  cbn in Ho. injection Ho as <-. unfold open_rb_read in Hc.
  destruct (read_bytes s _) as [content'|] eqn:Hread; [|done].
  cbn in Hc. injection Hc as ->.
  apply elem_of_set_iter, elem_of_list_to_set in Hh.
  rewrite index_scan_windows in Hh.
  apply list_elem_of_fmap in Hh as (j & -> & Hj%elem_of_seq).
  exists content, j. split; [done|]. split; [lia|done].
Qed.

End Seeds.

Section PackedRefs.
Context `{Network, FileSystem, Codec, SetOrder}.
Variable self : GitDumper.

Lemma files_trace_written files file c :
  file ∈ files → fetched_body (resp self file) = Some c →
  (lit ".git/" ++ file, c) ∈ written (files_trace self files).
Proof.
  unfold files_trace. intros Hin Hc. induction files as [|f files IH].
  - by apply elem_of_nil in Hin.
  - cbn [mbind list_bind]. rewrite written_app, written_block_trace, elem_of_app.
    apply elem_of_cons in Hin as [<-|Hin]; [|right; by apply IH].
    left. rewrite Hc. by apply list_elem_of_singleton.
Qed.

Lemma fetched_expected_trace s :
  fetched (expected_trace self s)
  = lit "HEAD" :: (basic_files ++ ref_paths ++ log_paths)
    ++ (obj_path <$> set_iter (ref_seeds (refs_state self s)))
    ++ (obj_path <$> index_seeds (index_state self s)).
Proof.
  unfold expected_trace. change (fetched (Fetch ?p ?r :: ?t)) with (p :: fetched t).
  rewrite !fetched_app, !fetched_files_trace, !fetched_objects_trace.
  by rewrite <- !app_assoc.
Qed.

(** The ids a run requests are among its seeds. *)
Lemma requests_object_seed s h :
  requests_object (trace (dump self s)) h →
  h ∈ ref_seeds (refs_state self s) ∨ h ∈ index_seeds (index_state self s).
Proof.
  unfold requests_object. intros Hreq.
  pose proof metadata_not_objects as Hm. rewrite Forall_forall in Hm.
  assert (obj_path h ∈ fetched (expected_trace self s)) as Hin.
  { destruct (probe_ok self) eqn:Hp.
    - destruct (dump_exposed self s Hp) as [[[k Hpre] _] _].
      rewrite Hpre, fetched_app. apply elem_of_app. by left.
    - rewrite (dump_not_exposed self s Hp) in Hreq. cbn in Hreq.
      apply list_elem_of_singleton in Hreq.
      destruct (Hm (lit "HEAD")); [left|]. rewrite <- Hreq. apply obj_path_objects. }
  rewrite fetched_expected_trace, app_comm_cons in Hin.
  apply elem_of_app in Hin as [Hin|Hin].
  { destruct (Hm _ Hin). apply obj_path_objects. }
  apply elem_of_app in Hin as [Hin|Hin];
    apply list_elem_of_fmap in Hin as (h' & Heq & Hin);
    apply obj_path_inj in Heq as <-; [left|by right].
  by apply elem_of_set_iter.
Qed.

(** C7, as the code has it.  A run that completes has written the body
    of [packed-refs] unchanged when the server gave one.  Every object id
    a run requests is the whole stripped text of the file [HEAD] names,
    the whole stripped text, 40 characters long, of a file below [refs],
    or a window of the index file: an id listed in [packed-refs] is
    requested only when it comes up in one of these ways. *)
Theorem packed_refs_saved_not_parsed s :
  (∀ c, out (dump self s) = Ret true →
        fetched_body (resp self (lit "packed-refs")) = Some c →
        (lit ".git/packed-refs", c) ∈ written (trace (dump self s)))
  ∧ (∀ h, requests_object (trace (dump self s)) h →
          head_target_id (refs_state self s) h
          ∨ ref_file_id (refs_state self s) h
          ∨ index_window_id (index_state self s) h).
Proof.
  split.
  - intros c Hout Hc.
    destruct (probe_ok self) eqn:Hp;
      [|by rewrite (dump_not_exposed self s Hp) in Hout].
    destruct (dump_exposed self s Hp) as [[_ Ht] _]. rewrite (Ht _ Hout).
    unfold expected_trace. change (written (Fetch ?p ?r :: ?t)) with (written t).
    rewrite written_app. apply elem_of_app. left.
    change (lit ".git/packed-refs") with (lit ".git/" ++ lit "packed-refs").
    apply files_trace_written; [|done]. do 4 right. left.
  - intros h [Hh|Hh]%requests_object_seed.
    + apply ref_seeds_sources in Hh as [?|?]; eauto.
    + apply index_seeds_sources in Hh. eauto.
Qed.

End PackedRefs.

(** C7, as stated, fails when a branch is listed in [packed-refs] only:
    the table, read line by line, gives the id [idB] of an exposed object;
    the run saves the table, completes, and never requests [idB]. *)
Lemma packed_refs_id_not_requested :
  @fetched_body (resp (H:=serve Scenario.base Scenario.packed) Scenario.dumper
                   (lit "packed-refs"))
    = Some Scenario.packed_refs_file
  ∧ Scenario.idB ∈ Spec.packed_refs_ids Scenario.packed_refs_file
  ∧ @exposed (serve Scenario.base Scenario.packed) Scenario.dumper Scenario.idB
  ∧ out (Scenario.run_dump Scenario.packed ∅) = Ret true
  ∧ ¬ requests_object (trace (Scenario.run_dump Scenario.packed ∅)) Scenario.idB.
Proof.
  split; [vm_compute; reflexivity|].
  split; [apply (bool_decide_unpack _); vm_compute; exact I|].
  split; [unfold exposed; vm_compute; eauto|].
  split; [vm_compute; reflexivity|].
  unfold requests_object. apply (bool_decide_unpack _). vm_compute. exact I.
Qed.

(** ** The target URL *)

Section TargetUrl.

Lemma is_dot_git_spec a b c d :
  is_dot_git a b c d = true ↔ [a; b; c; d] = lit ".git".
Proof.
  unfold is_dot_git. rewrite !andb_true_iff, !N.eqb_eq.
  change (lit ".git") with [46; 103; 105; 116]. split.
  - by intros [[[-> ->] ->] ->].
  - by intros [= -> -> -> ->].
Qed.

(** The three ways [re_sub_git] takes a step. *)
Lemma re_sub_git_slash r :
  re_sub_git (lit ".git" ++ 47 :: r) = re_sub_git r.
Proof. reflexivity. Qed.

Lemma re_sub_git_no_slash r :
  r !! 0%nat ≠ Some 47 →
  re_sub_git (lit ".git" ++ r) = re_sub_git r.
Proof.
  intros Hr. destruct r as [|e r]; [done|].
  change (re_sub_git (lit ".git" ++ e :: r))
    with (if e =? 47 then re_sub_git r else re_sub_git (e :: r)).
  destruct (N.eqb_spec e 47) as [->|]; [by destruct Hr|done].
Qed.

Lemma re_sub_git_cons c t :
  ¬ lit ".git" `prefix_of` c :: t →
  re_sub_git (c :: t) = c :: re_sub_git t.
Proof.
  intros Hp. destruct t as [|b [|c' [|d r]]]; try done.
  cbn [re_sub_git]. destruct (is_dot_git c b c' d) eqn:Hd; [|done].
  apply is_dot_git_spec in Hd. destruct Hp. exists r.
  change (c :: b :: c' :: d :: r) with ([c; b; c'; d] ++ r). by rewrite Hd.
Qed.

(** A string is empty, starts with [.git], or starts with a character
    that [re_sub_git] keeps. *)
Lemma dot_git_cases s :
  s = []
  ∨ (∃ r, s = lit ".git" ++ r)
  ∨ (∃ c t, s = c :: t ∧ ¬ lit ".git" `prefix_of` s).
Proof.
  destruct s as [|c t]; [by left|]. right.
  destruct (decide (lit ".git" `prefix_of` c :: t)) as [[r ->]|Hn].
  - left. by exists r.
  - right. by exists c, t.
Qed.

Lemma occurs_cons c t :
  ¬ lit ".git" `prefix_of` c :: t →
  occurs_dot_git (c :: t) → occurs_dot_git t.
Proof.
  intros Hn (x & y & Heq). destruct x as [|c' x].
  - destruct Hn. exists y. by rewrite Heq.
  - injection Heq as -> ->. by exists x, y.
Qed.

(** What [re_sub_git] does to the length, and when it does nothing. *)
Lemma re_sub_git_length_aux n :
  ∀ s, (length s ≤ n)%nat →
    (length (re_sub_git s) ≤ length s)%nat
    ∧ (occurs_dot_git s → (length (re_sub_git s) + 4 ≤ length s)%nat)
    ∧ (¬ occurs_dot_git s → re_sub_git s = s).
Proof.
  assert (¬ occurs_dot_git []) as Hnil.
  { intros ([|? ?] & y & Heq); discriminate. }
  induction n as [|n IH]; intros s Hn.
  { destruct s; [|cbn in Hn; lia]. split; [done|]. split; [done|done]. }
  destruct (dot_git_cases s) as [->|[[r ->]|(c & t & -> & Hp)]].
  - split; [done|]. split; [done|done].
  - rewrite length_app in Hn |- *. change (length (lit ".git")) with 4%nat in *.
    assert (∃ r', (length r' ≤ length r)%nat
                  ∧ re_sub_git (lit ".git" ++ r) = re_sub_git r') as (r' & Hr' & ->).
    { destruct r as [|e r]; [by exists []|].
      destruct (decide (e = 47)) as [->|He].
      - exists r. rewrite re_sub_git_slash. cbn. split; [lia|done].
      - exists (e :: r). rewrite re_sub_git_no_slash; [done|]. cbn. congruence. }
    destruct (IH r') as (Hlen & _ & _); [lia|].
    split; [lia|]. split; [lia|].
    intros Hno. destruct Hno. by exists [], r.
  - rewrite re_sub_git_cons by done. cbn [length] in Hn |- *.
    destruct (IH t) as (Hlen & Hocc & Hno); [lia|].
    split; [lia|]. split.
    + intros Ho%occurs_cons; [|done]. specialize (Hocc Ho). lia.
    + intros Ho. rewrite Hno; [done|].
      intros (x & y & ->). apply Ho. by exists (c :: x), y.
Qed.

Lemma re_sub_git_occurs s :
  occurs_dot_git s → (length (re_sub_git s) + 4 ≤ length s)%nat.
Proof. by apply (re_sub_git_length_aux (length s)). Qed.

Lemma re_sub_git_id s : ¬ occurs_dot_git s → re_sub_git s = s.
Proof. by apply (re_sub_git_length_aux (length s)). Qed.

(** The leftmost occurrence goes, with the slash after it, and the
    substitution carries on behind it. *)
Lemma re_sub_git_leftmost x y :
  ¬ occurs_dot_git (x ++ lit ".gi") →
  re_sub_git (x ++ lit ".git" ++ y) = x ++ re_sub_git (after_slash y).
Proof.
  induction x as [|c x IH]; intros Hno.
  - destruct y as [|e y]; [done|]. cbn [app after_slash].
    destruct (N.eqb_spec e 47) as [->|He]; [apply re_sub_git_slash|].
    apply re_sub_git_no_slash. cbn. congruence.
  - cbn [app]. rewrite re_sub_git_cons.
    + rewrite IH; [done|]. intros (x' & y' & Heq). apply Hno.
      exists (c :: x'), y'. cbn. by rewrite Heq.
    + intros [k Hk]. apply Hno.
      assert (∃ k', (c :: x) ++ lit ".gi" = lit ".git" ++ k') as [k' Hk'].
      { change (lit ".git") with [46; 103; 105; 116] in *.
        change (lit ".gi") with [46; 103; 105].
        destruct x as [|c1 [|c2 [|c3 x]]]; simplify_eq/=; eauto. }
      exists [], k'. by rewrite Hk'.
Qed.



(** [s.rstrip('/')] takes slashes off the end of [s], and nothing else. *)
Lemma lstrip_char_spec ch s :
  ∃ k, s = replicate k ch ++ Py.lstrip_char ch s.
Proof.
  induction s as [|c s [k IH]]; [by exists 0%nat|]. cbn.
  destruct (N.eqb_spec c ch) as [->|]; [|by exists 0%nat].
  exists (S k). cbn. by rewrite <- IH.
Qed.

Lemma rstrip_char_spec ch s :
  ∃ k, s = Py.rstrip_char ch s ++ replicate k ch.
Proof.
  unfold Py.rstrip_char. destruct (lstrip_char_spec ch (reverse s)) as [k Hk].
  exists k. rewrite <- (reverse_involutive s) at 1. rewrite Hk at 1.
  by rewrite reverse_app, reverse_replicate.
Qed.





End TargetUrl.


(** The example of the claim: a [.github] segment. *)
Example main_rewrites_github :
  base_url (GitDumper_init (normalize_url (lit "https://example.com/.github/repo")))
  = lit "https://example.com/hub/repo/.git/".
Proof. vm_compute. reflexivity. Qed.

Example main_strips_suffix :
  base_url (GitDumper_init (normalize_url (lit "example.com/.git/")))
  = lit "http://example.com/.git/".
Proof. vm_compute. reflexivity. Qed.

(** ** The directory tree held in a map *)

Section MapFSFacts.
Implicit Types (s : MapFS.state) (k : MapFS.key) (c : bytes).

Lemma elem_of_keys s k : k ∈ MapFS.keys s ↔ is_Some (s !! k).
Proof.
  unfold MapFS.keys. rewrite list_elem_of_fmap. split.
  - intros ([k' c] & -> & Hin). apply elem_of_map_to_list in Hin. by exists c.
  - intros [c Hc]. exists (k, c). split; [done|]. by apply elem_of_map_to_list.
Qed.

Lemma is_dir_true s k :
  MapFS.is_dir s k = true
  ↔ ∃ k', is_Some (s !! k') ∧ k `prefix_of` k' ∧ k ≠ k'.
Proof.
  unfold MapFS.is_dir. rewrite bool_decide_eq_true, Exists_exists.
  by setoid_rewrite elem_of_keys.
Qed.

Lemma file_on_path_true s k :
  MapFS.file_on_path s k = true ↔ ∃ k', is_Some (s !! k') ∧ k' `prefix_of` k.
Proof.
  unfold MapFS.file_on_path. rewrite bool_decide_eq_true, Exists_exists.
  by setoid_rewrite elem_of_keys.
Qed.

Lemma prefix_removelast k' k :
  k ≠ [] → k' `prefix_of` removelast k ↔ k' `prefix_of` k ∧ k' ≠ k.
Proof.
  intros Hk. destruct (exists_last Hk) as (rl & x & ->).
  rewrite removelast_last. split.
  - intros Hp. split; [by apply prefix_app_r|].
    intros ->. apply prefix_length in Hp. rewrite length_app in Hp. cbn in Hp. lia.
  - intros [[m Hm] Hne]. destruct m as [|y m _] using rev_ind.
    + rewrite app_nil_r in Hm. by subst k'.
    + rewrite (assoc_L (++)) in Hm. apply app_inj_tail in Hm as [-> _].
      by apply prefix_app_r.
Qed.

Lemma free_spec s k :
  MapFS.free s k
  ↔ k ≠ [] ∧ MapFS.is_dir s k = false
    ∧ MapFS.file_on_path s (removelast k) = false.
Proof.
  unfold MapFS.free. split.
  - intros [Hk Hfree]. split; [done|]. split.
    + apply not_true_is_false. intros (k' & Hk' & Hp & Hne)%is_dir_true.
      destruct (Hfree k' Hk') as [_ Hn]; [done|]. by apply Hn.
    + apply not_true_is_false. intros (k' & Hk' & Hp)%file_on_path_true.
      apply prefix_removelast in Hp as [Hp Hne]; [|done].
      destruct (Hfree k' Hk') as [Hn _]; [done|]. by apply Hn.
  - intros (Hk & Hdir & Hfile). split; [done|]. intros k' Hk' Hne. split.
    + intros Hp. apply not_true_iff_false in Hfile. apply Hfile.
      apply file_on_path_true. exists k'. split; [done|].
      by apply prefix_removelast.
    + intros Hp. apply not_true_iff_false in Hdir. apply Hdir.
      apply is_dir_true. exists k'. by repeat split.
Qed.

Lemma resolve_output_join q :
  MapFS.resolve (OutputDir </> q)
  = if MapFS.inside q then Some (MapFS.components q) else None.
Proof. cbn. by destruct (MapFS.inside q). Qed.

(** [save_file] in this file system. *)
Lemma save_file_free q c s k :
  MapFS.resolve (OutputDir </> q) = Some k → MapFS.free s k →
  save_file q c s = (Ret tt, <[k := c]> s, [Write q c]).
Proof.
  intros Hq (Hk & Hdir & Hfile)%free_spec.
  unfold save_file. rewrite bind_run. unfold mkdir.
  cbn [path_mkdir MapFS.fs MapFS.resolve]. fold (MapFS.resolve (OutputDir </> q)).
  rewrite Hq. cbn [mbind option_bind]. destruct k as [|x k]; [done|].
  rewrite Hfile. cbn [negb]. rewrite bind_run. unfold open_wb_write.
  cbn [write_bytes MapFS.fs]. rewrite Hq, Hdir, Hfile.
  rewrite bool_decide_eq_false_2 by done. done.
Qed.

Lemma save_file_ret q c s s' t :
  save_file q c s = (Ret tt, s', t) →
  ∃ k, MapFS.resolve (OutputDir </> q) = Some k ∧ MapFS.free s k
       ∧ s' = <[k := c]> s ∧ t = [Write q c].
Proof.
  destruct (MapFS.resolve (OutputDir </> q)) as [k|] eqn:Hq.
  - destruct (decide (k ≠ [] ∧ MapFS.is_dir s k = false
                      ∧ MapFS.file_on_path s (removelast k) = false))
      as [Hfree%free_spec|Hno].
    + rewrite (save_file_free q c s k Hq Hfree). intros [= <- <-]. by exists k.
    + unfold save_file. rewrite bind_run. unfold mkdir.
      cbn [path_mkdir MapFS.fs MapFS.resolve]. fold (MapFS.resolve (OutputDir </> q)).
      rewrite Hq. cbn [mbind option_bind]. destruct k as [|x k]; [done|].
      destruct (MapFS.file_on_path s (removelast (x :: k))) eqn:Hfile; [done|].
      cbn [negb]. rewrite bind_run. unfold open_wb_write.
      cbn [write_bytes MapFS.fs]. rewrite Hq, Hfile.
      rewrite bool_decide_eq_false_2 by done.
      destruct (MapFS.is_dir s (x :: k)) eqn:Hdir; [done|].
      destruct Hno. by repeat split.
  - unfold save_file. rewrite bind_run. unfold mkdir.
    cbn [path_mkdir MapFS.fs MapFS.resolve]. fold (MapFS.resolve (OutputDir </> q)).
    by rewrite Hq.
Qed.

Lemma settled_insert s k c : MapFS.settled s k c → <[k := c]> s = s.
Proof. intros [Hc _]. by apply insert_id. Qed.

Lemma settled_after_save s k c :
  MapFS.free s k → MapFS.settled (<[k := c]> s) k c.
Proof.
  intros [Hk Hfree]. split; [apply lookup_insert_eq|]. split; [done|].
  intros k' Hk' Hne. rewrite lookup_insert_ne in Hk' by done. by apply Hfree.
Qed.

Lemma settled_preserved s k c k' c' :
  MapFS.settled s k c → MapFS.free s k' → k' ≠ k →
  MapFS.settled (<[k' := c']> s) k c.
Proof.
  intros [Hc [Hk Hfree]] [Hk' Hfree'] Hne. split; [by rewrite lookup_insert_ne|].
  split; [done|]. intros k'' Hk'' Hne'.
  destruct (decide (k'' = k')) as [->|Hne''].
  - destruct (Hfree' k) as [? ?]; [by rewrite Hc|done|done].
  - rewrite lookup_insert_ne in Hk'' by done. by apply Hfree.
Qed.

End MapFSFacts.

(** ** Where the files of a run go *)

Section FileKeys.

Lemma components_go_segment cur x r :
  47 ∉ x →
  MapFS.components_go cur (x ++ 47 :: r)
  = (reverse cur ++ x) :: MapFS.components_go [] r.
Proof.
  revert cur. induction x as [|c x IH]; intros cur Hx.
  - cbn. by rewrite app_nil_r.
  - apply not_elem_of_cons in Hx as [Hc Hx]. cbn [app MapFS.components_go].
    destruct (N.eqb_spec c 47) as [->|_]; [done|].
    rewrite IH by done. by rewrite reverse_cons, <- (assoc_L (++)).
Qed.

Lemma components_go_last cur x :
  47 ∉ x → MapFS.components_go cur x = [reverse cur ++ x].
Proof.
  revert cur. induction x as [|c x IH]; intros cur Hx.
  - cbn. by rewrite app_nil_r.
  - apply not_elem_of_cons in Hx as [Hc Hx]. cbn [MapFS.components_go].
    destruct (N.eqb_spec c 47) as [->|_]; [done|].
    rewrite IH by done. by rewrite reverse_cons, <- (assoc_L (++)).
Qed.

Lemma is_hex_bounds c : Py.is_hex c = true → 48 ≤ c ∧ c ≤ 102.
Proof.
  unfold Py.is_hex. rewrite orb_true_iff, !andb_true_iff, !N.leb_le. lia.
Qed.

Lemma hex_digit_is_hex m : m < 16 → Py.is_hex (Py.hex_digit m) = true.
Proof.
  intros Hm. unfold Py.is_hex, Py.hex_digit.
  rewrite orb_true_iff, !andb_true_iff, !N.leb_le.
  destruct (N.ltb_spec m 10); lia.
Qed.

Lemma hex_is_hex bs : Forall (λ c, Py.is_hex c = true) (Py.hex bs).
Proof.
  unfold Py.hex. induction bs as [|b bs IH]; [constructor|].
  cbn [mbind list_bind]. apply Forall_app. split; [|done].
  pose proof (Byte.to_N_bounded b) as Hb.
  repeat constructor; apply hex_digit_is_hex.
  - apply N.Div0.div_lt_upper_bound. lia.
  - by apply N.mod_lt.
Qed.

Lemma window_is_sha1 content j :
  (j + 20 ≤ length content)%nat → is_sha1 (window content j).
Proof. intros Hj. split; [by apply window_length|apply hex_is_hex]. Qed.

Lemma hex_not_elem c (x : str) :
  Forall (λ c, Py.is_hex c = true) x → c < 48 → c ∉ x.
Proof.
  intros Hx Hc Hin. rewrite Forall_forall in Hx.
  apply Hx, is_hex_bounds in Hin. lia.
Qed.

(** The file of an object with a well-formed id. *)
Lemma obj_key h :
  is_sha1 h →
  MapFS.resolve (OutputDir </> (lit ".git/" ++ obj_path h))
  = Some [lit ".git"; lit "objects"; take 2 h; drop 2 h].
Proof.
  intros [Hlen Hhex].
  assert (Forall (λ c, Py.is_hex c = true) (take 2 h)) as Ha.
  { rewrite <- (take_drop 2 h) in Hhex. by apply Forall_app in Hhex as [? _]. }
  assert (Forall (λ c, Py.is_hex c = true) (drop 2 h)) as Hb.
  { rewrite <- (take_drop 2 h) in Hhex. by apply Forall_app in Hhex as [_ ?]. }
  assert (length (take 2 h) = 2%nat) as Hla by (rewrite length_take; lia).
  assert (length (drop 2 h) = 38%nat) as Hlb by (rewrite length_drop; lia).
  revert Ha Hb Hla Hlb. unfold obj_path.
  generalize (take 2 h) (drop 2 h). clear. intros a b Ha Hb Hla Hlb.
  assert (MapFS.components_go [] (lit ".git/" ++ lit "objects/" ++ a ++ lit "/" ++ b)
          = [lit ".git"; lit "objects"; a; b]) as Hgo.
  { change (lit ".git/" ++ lit "objects/" ++ a ++ lit "/" ++ b)
      with (lit ".git" ++ 47 :: (lit "objects" ++ 47 :: (a ++ 47 :: b))).
    rewrite components_go_segment by (apply (bool_decide_unpack _); vm_compute; exact I).
    rewrite components_go_segment by (apply (bool_decide_unpack _); vm_compute; exact I).
    rewrite components_go_segment by (by apply hex_not_elem).
    rewrite components_go_last by (by apply hex_not_elem). done. }
  assert (a ≠ [] ∧ a ≠ lit "." ∧ a ≠ lit ".." ∧ b ≠ [] ∧ b ≠ lit "." ∧ b ≠ lit "..")
    as (Ha1 & Ha2 & Ha3 & Hb1 & Hb2 & Hb3).
  { repeat split; intros ->; try done.
    apply Forall_cons in Ha as [Ha _]. done. }
  assert (MapFS.components (lit ".git/" ++ lit "objects/" ++ a ++ lit "/" ++ b)
          = [lit ".git"; lit "objects"; a; b]) as Hcomp.
  { unfold MapFS.components. rewrite Hgo.
    rewrite !filter_cons_True, filter_nil; done. }
  rewrite resolve_output_join, Hcomp.
  assert (MapFS.inside (lit ".git/" ++ lit "objects/" ++ a ++ lit "/" ++ b) = true)
    as ->; [|done].
  unfold MapFS.inside. rewrite Hcomp, !andb_true_iff. split; [split|].
  - apply negb_true_iff, bool_decide_eq_false_2. by intros [k Hk].
  - apply bool_decide_eq_true_2. rewrite !not_elem_of_cons.
    repeat split; try done. apply not_elem_of_nil.
  - apply bool_decide_eq_true_2.
    change (lit ".git/" ++ lit "objects/" ++ a ++ lit "/" ++ b)
      with (lit ".git/objects/" ++ a ++ lit "/" ++ b).
    rewrite !not_elem_of_app. repeat split.
    + apply (bool_decide_unpack _). vm_compute. exact I.
    + by apply hex_not_elem.
    + apply (bool_decide_unpack _). vm_compute. exact I.
    + by apply hex_not_elem.
Qed.

(** The files of the metadata phases: all below the output directory, at
    different places, none below [objects]. *)
Lemma metadata_keys :
  Forall (λ f, MapFS.inside (lit ".git/" ++ f) = true) metadata_files
  ∧ NoDup (MapFS.file_key <$> metadata_files)
  ∧ Forall (λ f, ¬ MapFS.objects_key (MapFS.file_key f)) metadata_files.
Proof.
  split; [|split]; apply (bool_decide_unpack _); vm_compute; exact I.
Qed.

Lemma known_path_resolve p :
  known_path p →
  MapFS.resolve (OutputDir </> (lit ".git/" ++ p)) = Some (MapFS.file_key p).
Proof.
  intros [Hp|(h & Hh & ->)].
  - destruct metadata_keys as (Hin & _ & _). rewrite Forall_forall in Hin.
    by rewrite resolve_output_join, (Hin p Hp).
  - pose proof (obj_key h Hh) as Hk.
    rewrite resolve_output_join in Hk |- *.
    by destruct (MapFS.inside (lit ".git/" ++ obj_path h)).
Qed.

Lemma known_path_objects_key p :
  known_path p →
  MapFS.objects_key (MapFS.file_key p) ↔ ∃ h, is_sha1 h ∧ p = obj_path h.
Proof.
  intros Hp. split.
  - destruct Hp as [Hp|?]; [|done].
    destruct metadata_keys as (_ & _ & Hno). rewrite Forall_forall in Hno.
    intros Hk. by destruct (Hno p Hp).
  - intros (h & Hh & ->). pose proof (obj_key h Hh) as Hk.
    rewrite resolve_output_join in Hk.
    destruct (MapFS.inside (lit ".git/" ++ obj_path h)); [|done].
    unfold MapFS.file_key. apply (inj Some) in Hk. rewrite Hk. by eexists.
Qed.

Lemma file_key_inj p p' :
  known_path p → known_path p' → MapFS.file_key p = MapFS.file_key p' → p = p'.
Proof.
  intros Hp Hp' Heq.
  destruct (decide (MapFS.objects_key (MapFS.file_key p))) as [Hobj|Hobj].
  - pose proof Hobj as Hobj'. rewrite Heq in Hobj'.
    apply known_path_objects_key in Hobj as (h & Hh & ->); [|done].
    apply known_path_objects_key in Hobj' as (h' & Hh' & ->); [|done].
    pose proof (obj_key h Hh) as Hk. pose proof (obj_key h' Hh') as Hk'.
    rewrite resolve_output_join in Hk, Hk'.
    destruct (MapFS.inside (lit ".git/" ++ obj_path h)); [|done].
    destruct (MapFS.inside (lit ".git/" ++ obj_path h')); [|done].
    unfold MapFS.file_key in Heq. rewrite Heq in Hk. rewrite Hk' in Hk.
    apply (inj Some) in Hk. assert (take 2 h' = take 2 h ∧ drop 2 h' = drop 2 h)
      as [Ha Hb] by (split; congruence).
    by rewrite <- (take_drop 2 h), <- (take_drop 2 h'), Ha, Hb.
  - assert (p ∈ metadata_files) as Hm.
    { destruct Hp as [?|Hh]; [done|]. destruct Hobj.
      by apply known_path_objects_key; [right|]. }
    assert (p' ∈ metadata_files) as Hm'.
    { destruct Hp' as [?|Hh]; [done|]. destruct Hobj. rewrite Heq.
      by apply known_path_objects_key; [right|]. }
    destruct metadata_keys as (_ & Hnd & _).
    revert Hm Hm' Heq Hnd. generalize metadata_files. clear.
    intros l Hm Hm' Heq Hnd. induction l as [|x l IH]; [by apply elem_of_nil in Hm|].
    cbn in Hnd. apply NoDup_cons in Hnd as [Hx Hnd].
    apply elem_of_cons in Hm as [->|Hm]; apply elem_of_cons in Hm' as [->|Hm'];
      try done.
    + destruct Hx. rewrite Heq. by apply list_elem_of_fmap_2.
    + destruct Hx. rewrite <- Heq. by apply list_elem_of_fmap_2.
    + by apply IH.
Qed.

End FileKeys.

(** ** The phases of a run that completes *)

Section Completed.
Context `{Network, FileSystem, Codec, SetOrder}.
Variable self : GitDumper.

Lemma bind_ret_inv {A B} (m : M A) (f : A → M B) s b s' t :
  (m ≫= f) s = (Ret b, s', t) →
  ∃ a s1 t1 t2, m s = (Ret a, s1, t1) ∧ f a s1 = (Ret b, s', t2) ∧ t = t1 ++ t2.
Proof.
  rewrite bind_run. destruct (m s) as [[[a|e] s1] t1]; [|done].
  destruct (f a s1) as [[o s2] t2] eqn:Hf. intros Heq.
  injection Heq as Ho Hs Ht. subst o s2 t. by exists a, s1, t1, t2.
Qed.

Lemma for_each_app {A} (l1 l2 : list A) (body : A → M unit) s :
  for_each (l1 ++ l2) body s = (for_each l1 body;; for_each l2 body) s.
Proof.
  revert s. induction l1 as [|x l1 IH]; intros s.
  - cbn [app for_each]. rewrite bind_run. cbn.
    by destruct (for_each l2 body s) as [[o s2] t2].
  - cbn [app for_each]. rewrite !bind_run.
    destruct (body x s) as [[[[]|e] s1] t1]; [|done].
    rewrite IH, !bind_run.
    destruct (for_each l1 body s1) as [[[[]|e] s2] t2]; [|done].
    destruct (for_each l2 body s2) as [[o s3] t3]. by rewrite (assoc_L (++)).
Qed.

Lemma dump_metadata_loop s :
  dump_metadata self s = (mkdir OutputDir;; for_each metadata_files (file_body self)) s.
Proof.
  unfold dump_metadata, metadata_files, dump_basic_files, dump_refs, dump_logs.
  fold (file_body self). rewrite !bind_run.
  destruct (mkdir OutputDir s) as [[[[]|e] s1] t1]; [|done].
  rewrite for_each_app, !bind_run.
  destruct (for_each basic_files (file_body self) s1) as [[[[]|e] s2] t2]; [|done].
  by rewrite for_each_app.
Qed.

Lemma dump_objects_from_index_loop s :
  dump_objects_from_index self s
  = (hashes ← parse_index_file;
     for_each (filter (λ h, length h = 40%nat) hashes) (object_body self)) s.
Proof.
  unfold dump_objects_from_index. rewrite !bind_run.
  destruct (parse_index_file s) as [[[hashes|e] s1] t1]; [|done].
  rewrite (for_each_ext _ _
    (λ h, if bool_decide (length h = 40%nat) then (object_body self) h else ret tt)).
  - by rewrite (for_each_filter (λ h, length h = 40%nat)).
  - intros h s'. cbn beta.
    destruct (Nat.eqb_spec (length h) 40) as [Hl|Hl].
    + by rewrite (bool_decide_eq_true_2 _ Hl).
    + by rewrite (bool_decide_eq_false_2 _ Hl).
Qed.

(** A run that completes has gone through each of its phases. *)
Lemma dump_ret_phases s :
  out (dump self s) = Ret true →
  ∃ s0 tA tB tC,
    probe_ok self = true
    ∧ mkdir OutputDir s = (Ret tt, s0, [])
    ∧ for_each metadata_files (file_body self) s0 = (Ret tt, refs_state self s, tA)
    ∧ out (collect_ref_hashes (refs_state self s))
      = Ret (ref_seeds (refs_state self s))
    ∧ for_each (set_iter (ref_seeds (refs_state self s))) (object_body self)
        (refs_state self s)
      = (Ret tt, index_state self s, tB)
    ∧ is_Some (match out (parse_index_file (index_state self s)) with
               | Ret hashes => Some hashes
               | Raise _ => None
               end)
    ∧ for_each (index_seeds (index_state self s)) (object_body self) (index_state self s)
      = (Ret tt, final (dump self s), tC).
Proof.
  intros Hout.
  destruct (probe_ok self) eqn:Hp;
    [|by rewrite (dump_not_exposed self s Hp) in Hout].
  destruct (dump self s) as [[o s'] t] eqn:Hd.
  unfold out in Hout. cbn [fst snd] in Hout. subst o.
  pose proof Hd as Hd'. rewrite dump_phases in Hd'.
  apply bind_ret_inv in Hd' as (exposed & s1 & t1 & t2 & Hcheck & Hd' & ->).
  rewrite check_git_exposed_run in Hcheck. fold (probe_ok self) in Hcheck.
  rewrite Hp in Hcheck. injection Hcheck as <- <- <-. cbn [negb] in Hd'.
  apply bind_ret_inv in Hd' as ([] & sA & tA & t3 & HA & Hd' & ->).
  apply bind_ret_inv in Hd' as ([] & sB & tB & t4 & HB & Hd' & ->).
  apply bind_ret_inv in Hd' as ([] & sC & tC & t5 & HC & Hd' & ->).
  injection Hd' as <- <-.
  assert (refs_state self s = sA) as -> by (unfold refs_state; by rewrite HA).
  assert (index_state self s = sB) as ->.
  { unfold index_state. assert (refs_state self s = sA) as ->; [|by rewrite HB].
    unfold refs_state. by rewrite HA. }
  unfold final. cbn [fst snd].
  rewrite dump_metadata_loop in HA.
  apply bind_ret_inv in HA as ([] & s0 & t0 & tA' & Hmk & HA & ->).
  assert (t0 = []) as ->.
  { revert Hmk. unfold mkdir. destruct (path_mkdir s OutputDir) as [[] ?]; congruence. }
  unfold dump_objects_from_refs in HB.
  apply bind_ret_inv in HB as (hashes & sA' & t1 & tB' & Hc & HB & ->).
  pose proof (reads_only_run _ sA collect_ref_hashes_reads_only) as Hc'.
  rewrite Hc in Hc'. injection Hc' as -> ->.
  rewrite dump_objects_from_index_loop in HC.
  apply bind_ret_inv in HC as (hashes' & sB' & t2 & tC' & Hi & HC & ->).
  pose proof (reads_only_run _ sB parse_index_file_reads_only) as Hi'.
  rewrite Hi in Hi'. injection Hi' as -> ->.
  exists s0, tA', tB', tC'. unfold ref_seeds, index_seeds. rewrite Hc, Hi.
  unfold out. cbn [fst snd]. by repeat split.
Qed.

End Completed.

(** ** Two states that look the same to the seeding steps *)

Section Agreement.
Context `{FileSystem, Codec}.

Lemma out_exists {B} p (f : bool → M B) s :
  out ((exists_ p ≫= f) s) = out (f (path_exists s p) s).
Proof. by rewrite out_bind. Qed.

Lemma out_open_rb_read {B} p (f : bytes → M B) s :
  out ((open_rb_read p ≫= f) s)
  = match read_bytes s p with
    | Some raw => out (f raw s)
    | None => Raise OSError
    end.
Proof.
  rewrite out_bind. unfold open_rb_read. by destruct (read_bytes s p).
Qed.

Lemma out_open_r_read {B} p (f : str → M B) s :
  out ((open_r_read p ≫= f) s)
  = match read_bytes s p with
    | Some raw =>
        match decode_text raw with
        | Some text => out (f text s)
        | None => Raise UnicodeDecodeError
        end
    | None => Raise OSError
    end.
Proof.
  rewrite out_bind, (proj1 (open_r_read_reads_only p s)).
  unfold open_r_read. rewrite out_open_rb_read.
  destruct (read_bytes s p) as [raw|]; [|done]. by destruct (decode_text raw).
Qed.

Lemma read_head_agree git hashes s s' :
  agree_at s s' (git </> lit "HEAD") →
  (∀ raw ref_path,
     read_bytes s (git </> lit "HEAD") = Some raw →
     head_target raw = Some ref_path →
     agree_at s s' (git </> ref_path)) →
  out (read_head git hashes s') = out (read_head git hashes s).
Proof.
  intros [Hex Hrd] Htarget. unfold read_head. rewrite !out_exists, <- Hex.
  destruct (path_exists s (git </> lit "HEAD")); cbn [negb]; [|done].
  rewrite !out_open_r_read, <- Hrd.
  destruct (read_bytes s (git </> lit "HEAD")) as [raw|] eqn:Hraw; [|done].
  destruct (decode_text raw) as [text|] eqn:Htext; [|done].
  destruct (Py.startswith (Py.strip text) (lit "ref:")) eqn:Hstart; cbn [negb]; [|done].
  destruct (Py.split (Py.strip text) (lit "ref: ") !! 1%nat) as [ref_path|] eqn:Hsplit;
    [|done].
  destruct (Htarget raw ref_path eq_refl) as [Hex' Hrd'].
  { unfold head_target. rewrite Htext. cbn. by rewrite Hstart. }
  rewrite !out_exists, <- Hex'.
  destruct (path_exists s (git </> ref_path)); cbn [negb]; [|done].
  by rewrite !out_open_r_read, <- Hrd'.
Qed.

Lemma ref_body_reads_only hashes ref_file : reads_only (ref_body hashes ref_file).
Proof.
  apply reads_only_bind; [apply reads_only_is_file|]. intros [|]; cbn [negb]; [|done].
  apply reads_only_bind; [apply open_r_read_reads_only|]. intros text.
  by destruct (_ =? _)%nat.
Qed.

Lemma ref_body_out hashes ref_file s :
  out (ref_body hashes ref_file s)
  = match ref_step s ref_file with
    | Some X => Ret (hashes ∪ X)
    | None =>
        match read_bytes s ref_file with
        | Some _ => Raise UnicodeDecodeError
        | None => Raise OSError
        end
    end.
Proof.
  unfold ref_body, ref_step. rewrite out_bind. cbn.
  destruct (path_is_file s ref_file); cbn [negb].
  - rewrite out_open_r_read.
    destruct (read_bytes s ref_file) as [raw|]; [|done].
    destruct (decode_text raw) as [text|]; [|done].
    by destruct (_ =? _)%nat; unfold out; cbn; rewrite ?(right_id_L ∅ (∪)).
  - unfold out. cbn. by rewrite (right_id_L ∅ (∪)).
Qed.

Lemma for_fold_cons {A S} (x : A) l (acc : S) (body : S → A → M S) :
  for_fold (x :: l) acc body = (acc' ← body acc x; for_fold l acc' body).
Proof. reflexivity. Qed.

Lemma for_fold_refs_some l hashes s Xs :
  mapM (ref_step s) l = Some Xs →
  out (for_fold l hashes ref_body s) = Ret (hashes ∪ ⋃ Xs).
Proof.
  revert hashes Xs. induction l as [|f l IH]; intros hashes Xs.
  - intros [= <-]. unfold out. cbn [for_fold ret fst].
    by rewrite union_list_nil, (right_id_L ∅ (∪)).
  - rewrite for_fold_cons. cbn [mapM]. rewrite out_bind, ref_body_out.
    rewrite (proj1 (ref_body_reads_only hashes f s)).
    destruct (ref_step s f) as [X|]; [|done]. cbn [mbind option_bind].
    destruct (mapM (ref_step s) l) as [Xs'|]; [|done].
    intros [= <-]. rewrite (IH _ Xs') by done.
    by rewrite union_list_cons, (assoc_L (∪)).
Qed.

Lemma for_fold_refs_ret l hashes s hashes' :
  out (for_fold l hashes ref_body s) = Ret hashes' →
  ∃ Xs, mapM (ref_step s) l = Some Xs ∧ hashes' = hashes ∪ ⋃ Xs.
Proof.
  revert hashes. induction l as [|f l IH]; intros hashes.
  - unfold out. cbn [for_fold ret fst]. intros [= <-]. exists [].
    by rewrite union_list_nil, (right_id_L ∅ (∪)).
  - rewrite for_fold_cons. cbn [mapM]. rewrite out_bind, ref_body_out.
    rewrite (proj1 (ref_body_reads_only hashes f s)).
    destruct (ref_step s f) as [X|]; [|by destruct (read_bytes s f)].
    intros (Xs & -> & ->)%IH. exists (X :: Xs).
    cbn [mbind option_bind mret option_ret].
    by rewrite union_list_cons, (assoc_L (∪)).
Qed.

Lemma mapM_permutation {A B} (f : A → option B) l l' ys :
  l ≡ₚ l' → mapM f l = Some ys → ∃ ys', mapM f l' = Some ys' ∧ ys ≡ₚ ys'.
Proof.
  intros Hp. revert ys. induction Hp as [|x l l' Hp IH|x y l|l l' l'' Hp1 IH1 Hp2 IH2];
    intros ys Hys.
  - exists ys. done.
  - cbn in Hys |- *. destruct (f x) as [z|]; [|done]. cbn in Hys |- *.
    destruct (mapM f l) as [zs|] eqn:Hzs; [|done]. cbn in Hys. injection Hys as <-.
    destruct (IH zs eq_refl) as (zs' & -> & Hzs'). exists (z :: zs'). cbn.
    split; [done|]. by constructor.
  - cbn in Hys |- *. destruct (f x) as [z|]; [|by destruct (f y)].
    destruct (f y) as [w|]; [|done]. cbn in Hys |- *.
    destruct (mapM f l) as [zs|]; [|done]. cbn in Hys |- *. injection Hys as <-.
    exists (z :: w :: zs). split; [done|]. constructor.
  - destruct (IH1 ys Hys) as (ys' & Hys' & Hp'). destruct (IH2 ys' Hys') as (ys'' & ? & ?).
    exists ys''. split; [done|]. by etrans.
Qed.

Lemma read_refs_agree git hashes s s' hashes' :
  path_exists s (git </> lit "refs") = path_exists s' (git </> lit "refs") →
  path_rglob s (git </> lit "refs") ≡ₚ path_rglob s' (git </> lit "refs") →
  (∀ ref_file, ref_file ∈ path_rglob s (git </> lit "refs") →
               ref_step s ref_file = ref_step s' ref_file) →
  out (read_refs git hashes s) = Ret hashes' →
  out (read_refs git hashes s') = Ret hashes'.
Proof.
  intros Hex Hperm Hstep. unfold read_refs. fold ref_body.
  rewrite !out_exists, <- Hex.
  destruct (path_exists s (git </> lit "refs")); cbn [negb]; [|done].
  rewrite !out_bind. cbn.
  intros (Xs & HXs & ->)%for_fold_refs_ret.
  assert (mapM (ref_step s') (path_rglob s (git </> lit "refs")) = Some Xs) as HXs'.
  { rewrite <- HXs. clear HXs Hperm.
    induction (path_rglob s (git </> lit "refs")) as [|f l IH]; [done|].
    cbn. rewrite Hstep by left. rewrite IH; [done|].
    intros f' Hf'. apply Hstep. by right. }
  destruct (mapM_permutation _ _ _ _ Hperm HXs') as (Xs' & HXs'' & HpX).
  rewrite (for_fold_refs_some _ _ _ _ HXs''). by rewrite HpX.
Qed.

End Agreement.

(** ** Running the loops in the directory tree *)

Section Loops.
Context {net : Network}.
Variable self : GitDumper.
Context {A : Type} (g : A → str) (body : A → M unit).
Hypothesis Hbody :
  ∀ x s, block_result self (g x) (lit ".git/" ++ g x) tt tt s (body x s).

Lemma for_each_cons (x : A) l :
  for_each (x :: l) body = (body x;; for_each l body).
Proof. reflexivity. Qed.

(** One turn of a loop that completes: nothing happens to the tree, or the
    body of [g x] is written at a free place. *)
Lemma body_ret x s s' t :
  known_path (g x) →
  body x s = (Ret tt, s', t) →
  (fetched_body (resp self (g x)) = None ∧ s' = s)
  ∨ (∃ c, fetched_body (resp self (g x)) = Some c
          ∧ MapFS.free s (MapFS.file_key (g x))
          ∧ s' = <[MapFS.file_key (g x) := c]> s).
Proof.
  intros Hk Hrun. pose proof (Hbody x s) as Hb. unfold block_result in Hb.
  destruct (fetched_body (resp self (g x))) as [c|].
  - right. exists c. split; [done|].
    destruct Hb as [_ [(s1 & Hsave & Hr)|(s1 & _ & Hr)]]; [|congruence].
    rewrite Hr in Hrun. injection Hrun as <- _.
    apply save_file_ret in Hsave as (k & Hres & Hfree & -> & _).
    rewrite (known_path_resolve _ Hk) in Hres. injection Hres as <-. done.
  - left. split; [done|]. congruence.
Qed.

(** Induction over a loop that completes. *)
Lemma loop_ind (P : list A → MapFS.state → Prop) l :
  ∀ done s s' t,
    for_each l body s = (Ret tt, s', t) →
    (∀ x, x ∈ l → known_path (g x)) →
    P done s →
    (∀ done x s1, x ∈ l → P done s1 →
       fetched_body (resp self (g x)) = None → P (done ++ [x]) s1) →
    (∀ done x s1 c, x ∈ l → P done s1 →
       fetched_body (resp self (g x)) = Some c →
       MapFS.free s1 (MapFS.file_key (g x)) →
       P (done ++ [x]) (<[MapFS.file_key (g x) := c]> s1)) →
    P (done ++ l) s'.
Proof.
  induction l as [|x l IH]; intros done s s' t Hrun Hk HP Hnone Hsome.
  - injection Hrun as <- _. by rewrite app_nil_r.
  - rewrite for_each_cons in Hrun.
    apply bind_ret_inv in Hrun as ([] & s1 & t1 & t2 & Hx & Hrun & _).
    rewrite cons_middle, (assoc_L (++)).
    apply (IH _ s1 s' t2 Hrun).
    + intros y Hy. apply Hk. by right.
    + apply body_ret in Hx as [[Hn ->]|(c & Hc & Hfree & ->)]; [| |apply Hk; left].
      * apply Hnone; [left|done|done].
      * apply Hsome; [left|done|done|done].
    + intros d y s2 Hy. apply Hnone. by right.
    + intros d y s2 c Hy. apply Hsome. by right.
Qed.

(** A loop whose files are all settled completes and changes nothing. *)
Lemma loop_replay l s :
  (∀ x c, x ∈ l → fetched_body (resp self (g x)) = Some c →
     ∃ k, MapFS.resolve (OutputDir </> (lit ".git/" ++ g x)) = Some k
          ∧ MapFS.settled s k c) →
  ∃ t, for_each l body s = (Ret tt, s, t).
Proof.
  induction l as [|x l IH]; intros Hl; [by exists []|].
  destruct IH as [t Ht]. { intros y c Hy. apply Hl. by right. }
  rewrite for_each_cons, bind_run.
  pose proof (Hbody x s) as Hb. unfold block_result in Hb.
  destruct (fetched_body (resp self (g x))) as [c|] eqn:Hc.
  - destruct (Hl x c) as (k & Hres & Hset); [left|done|].
    pose proof (save_file_free _ c s k Hres (proj2 Hset)) as Hsave.
    rewrite (settled_insert _ _ _ Hset) in Hsave.
    destruct Hb as [_ [(s1 & Hsave' & ->)|(s1 & Hsave' & _)]]; [|congruence].
    rewrite Hsave in Hsave'. injection Hsave' as <-. rewrite Ht. by eexists.
  - rewrite Hb, Ht. by eexists.
Qed.

Lemma loop_settles (D : str → Prop) l s s' t :
  for_each l body s = (Ret tt, s', t) →
  (∀ x, x ∈ l → known_path (g x)) →
  settled_all self D s →
  settled_all self (λ p, D p ∨ ∃ x, x ∈ l ∧ p = g x) s'.
Proof.
  intros Hrun Hk HD.
  apply (loop_ind (λ done s, settled_all self (λ p, D p ∨ ∃ x, x ∈ done ∧ p = g x) s)
           l [] s s' t Hrun Hk).
  - intros p [Hp|(x & ?%elem_of_nil & _)]; [by apply HD|done].
  - intros done x s1 Hx HP Hnone p Hp.
    destruct Hp as [Hp|(y & [Hy|Hy%list_elem_of_singleton]%elem_of_app & ->)].
    + apply HP. by left.
    + apply HP. right. by exists y.
    + subst y. split; [by apply Hk|]. intros c Hc. congruence.
  - intros done x s1 c Hx HP Hc Hfree p Hp.
    assert (known_path p ∧ (p ≠ g x →
              ∀ c', fetched_body (resp self p) = Some c' →
                    MapFS.settled s1 (MapFS.file_key p) c')) as [Hkp Hold].
    { destruct Hp as [Hp|(y & [Hy|Hy%list_elem_of_singleton]%elem_of_app & ->)].
      - destruct (HP p) as [? ?]; [by left|done].
      - destruct (HP (g y)) as [? ?]; [right; by exists y|done].
      - subst y. split; [by apply Hk|done]. }
    split; [done|]. intros c' Hc'.
    destruct (decide (p = g x)) as [->|Hne].
    + rewrite Hc in Hc'. injection Hc' as <-. by apply settled_after_save.
    + apply settled_preserved; [by apply Hold|done|].
      intros Heq. apply Hne. symmetry. apply file_key_inj; [by apply Hk|done|done].
Qed.

(** The output directory itself stays a directory. *)
Lemma loop_root l s s' t :
  for_each l body s = (Ret tt, s', t) →
  (∀ x, x ∈ l → known_path (g x)) →
  s !! [] = None → s' !! [] = None.
Proof.
  intros Hrun Hk Hs.
  apply (loop_ind (λ _ s, s !! [] = None) l [] s s' t Hrun Hk Hs); [done|].
  intros _ x s1 c _ Hs1 _ [Hne _]. by rewrite lookup_insert_ne.
Qed.

(** A loop over objects changes the tree below [objects] only. *)
Lemma loop_frame l sb s s' t :
  for_each l body s = (Ret tt, s', t) →
  (∀ x, x ∈ l → ∃ h, is_sha1 h ∧ g x = obj_path h) →
  MapFS.frame sb s → MapFS.frame sb s'.
Proof.
  intros Hrun Hl Hs.
  apply (loop_ind (λ _ s, MapFS.frame sb s) l [] s s' t Hrun); [|done|done|].
  - intros x Hx. right. by apply Hl.
  - intros _ x s1 c Hx [Hlook Hdom] _ _.
    assert (MapFS.objects_key (MapFS.file_key (g x))) as Hobj.
    { apply known_path_objects_key; [right|]; by apply Hl. }
    split.
    + intros k Hk. rewrite lookup_insert_ne; [by apply Hlook|].
      intros <-. by apply Hk.
    + intros k Hk. destruct (decide (MapFS.file_key (g x) = k)) as [<-|Hne].
      * by rewrite lookup_insert_eq.
      * rewrite lookup_insert_ne by done. by apply Hdom.
Qed.

End Loops.

(** ** What the seeding steps see of a tree that grew below [objects] *)

Section Frame.

Lemma frame_refl s : MapFS.frame s s.
Proof. by split. Qed.

Lemma frame_trans s1 s2 s3 :
  MapFS.frame s1 s2 → MapFS.frame s2 s3 → MapFS.frame s1 s3.
Proof.
  intros [Hl1 Hd1] [Hl2 Hd2]. split.
  - intros k Hk. by rewrite Hl2, Hl1.
  - intros k Hk. by apply Hd2, Hd1.
Qed.

Lemma refs_not_objects k :
  [lit ".git"; lit "refs"] `prefix_of` k → ¬ MapFS.objects_key k.
Proof.
  intros [r ->] [r' Heq]. cbn [app] in Heq. injection Heq as Heq _.
  revert Heq. vm_compute. discriminate.
Qed.

(** A directory with something below [objects] under it that is not itself
    below [objects] is the output directory or [.git]. *)
Lemma above_objects k k' :
  k `prefix_of` k' → MapFS.objects_key k' → ¬ MapFS.objects_key k →
  k `prefix_of` [lit ".git"; lit "HEAD"] ∧ k ≠ [lit ".git"; lit "HEAD"].
Proof.
  intros Hpre [r ->] Hk. cbn [app] in Hpre.
  destruct k as [|a [|b k]].
  - split; [apply prefix_nil|done].
  - apply prefix_cons_inv_1 in Hpre as ->. split; [by exists [lit "HEAD"]|done].
  - exfalso. apply Hk. pose proof Hpre as Ha. apply prefix_cons_inv_1 in Ha as ->.
    apply prefix_cons_inv_2, prefix_cons_inv_1 in Hpre as ->.
    by exists k.
Qed.

Section Observations.
Variables sb s : MapFS.state.
Hypothesis Hframe : MapFS.frame sb s.
Hypothesis Hhead : is_Some (sb !! [lit ".git"; lit "HEAD"]).

Lemma frame_is_file k :
  ¬ MapFS.objects_key k → MapFS.is_file s k = MapFS.is_file sb k.
Proof. intros Hk. unfold MapFS.is_file. by rewrite (proj1 Hframe k Hk). Qed.

Lemma frame_is_dir k :
  ¬ MapFS.objects_key k → MapFS.is_dir s k = MapFS.is_dir sb k.
Proof.
  intros Hk. apply eq_true_iff_eq. rewrite !is_dir_true. split.
  - intros (k' & Hin & Hpre & Hne).
    destruct (decide (MapFS.objects_key k')) as [Hobj|Hobj].
    + exists [lit ".git"; lit "HEAD"]. split; [done|].
      by apply (above_objects k k').
    + exists k'. by rewrite <- (proj1 Hframe k' Hobj).
  - intros (k' & Hin & Hpre & Hne). exists k'. split; [|done].
    by apply (proj2 Hframe).
Qed.

Lemma frame_agree p :
  (∀ k, MapFS.resolve p = Some k → ¬ MapFS.objects_key k) →
  path_exists s p = path_exists sb p
  ∧ read_bytes s p = read_bytes sb p
  ∧ path_is_file s p = path_is_file sb p.
Proof.
  intros Hp. cbn [path_exists read_bytes path_is_file MapFS.fs].
  destruct (MapFS.resolve p) as [k|]; [|done].
  specialize (Hp k eq_refl). cbn [mbind option_bind].
  by rewrite frame_is_file, frame_is_dir, (proj1 Hframe k Hp).
Qed.

Lemma elem_of_below (st : MapFS.state) k x :
  x ∈ MapFS.below st k
  ↔ ∃ key', is_Some (st !! key') ∧ x `prefix_of` key'
            ∧ k `prefix_of` x ∧ k ≠ x.
Proof.
  unfold MapFS.below. rewrite elem_of_remove_dups, list_elem_of_bind. split.
  - intros (key' & Hx & Hkey%elem_of_keys).
    apply list_elem_of_filter in Hx as [[Hpre Hne] Hx].
    apply list_elem_of_fmap in Hx as (n & -> & _).
    exists key'. split; [done|]. split; [apply prefix_take|done].
  - intros (key' & Hkey & [r ->] & Hpre & Hne). exists (x ++ r).
    split; [|by apply elem_of_keys].
    apply list_elem_of_filter. split; [done|].
    apply list_elem_of_fmap. exists (length x). split.
    + by rewrite take_app_length.
    + apply elem_of_seq. rewrite length_app. lia.
Qed.

Lemma frame_below :
  MapFS.below s [lit ".git"; lit "refs"]
  ≡ₚ MapFS.below sb [lit ".git"; lit "refs"].
Proof.
  apply NoDup_Permutation; [apply NoDup_remove_dups..|].
  intros x. rewrite !elem_of_below.
  assert (∀ key', [lit ".git"; lit "refs"] `prefix_of` x → x `prefix_of` key' →
                  s !! key' = sb !! key') as Heq.
  { intros key' H1 H2. apply (proj1 Hframe), refs_not_objects. by etrans. }
  split; intros (key' & Hin & Hpre & Hk & Hne); exists key';
    (split; [|done]); [by rewrite <- Heq|by rewrite Heq].
Qed.

End Observations.

Lemma resolve_foldl l p k :
  MapFS.resolve (foldl PathJoin p l) = Some k →
  ∃ k0, MapFS.resolve p = Some k0 ∧ k0 `prefix_of` k.
Proof.
  revert p. induction l as [|x l IH]; intros p; cbn [foldl].
  - intros Hp. by exists k.
  - intros (k1 & Hk1 & Hpre)%IH. cbn [MapFS.resolve] in Hk1.
    destruct (MapFS.resolve p) as [k0|]; [|done]. cbn [mbind option_bind] in Hk1.
    destruct (MapFS.inside x); [|done]. injection Hk1 as <-.
    exists k0. split; [done|]. etrans; [|done]. by apply prefix_app_r.
Qed.

(** What [rglob] lists below [refs] names nothing below [objects]. *)
Lemma resolve_to_path_refs k k' :
  [lit ".git"; lit "refs"] `prefix_of` k →
  MapFS.resolve (MapFS.to_path k) = Some k' → ¬ MapFS.objects_key k'.
Proof.
  intros [r ->]. unfold MapFS.to_path. cbn [app foldl].
  intros (k0 & Hk0 & Hpre)%resolve_foldl.
  assert (k0 = [lit ".git"; lit "refs"]) as ->.
  { apply (inj Some). rewrite <- Hk0. vm_compute. reflexivity. }
  by apply refs_not_objects.
Qed.

End Frame.

(** ** A run that finds everything in place *)

Section Replay.
Context {net : Network} {fs : FileSystem} {codec : Codec}.
Variable self : GitDumper.

Lemma bind_ret_run {A B} (m : M A) (f : A → M B) s a s1 t1 b s2 t2 :
  m s = (Ret a, s1, t1) → f a s1 = (Ret b, s2, t2) →
  (m ≫= f) s = (Ret b, s2, t1 ++ t2).
Proof. intros Hm Hf. by rewrite bind_run, Hm, Hf. Qed.

Lemma set_iter_empty {order : SetOrder} : set_iter ∅ = [].
Proof. apply Permutation_nil_r. by rewrite set_iter_perm, elements_empty. Qed.

Lemma parse_index_file_ids {order : SetOrder} s :
  out (parse_index_file s)
  = match index_ids s with
    | Some X => Ret (set_iter X)
    | None => Raise OSError
    end.
Proof.
  unfold parse_index_file, index_ids. cbv zeta. rewrite out_exists.
  destruct (path_exists s _); cbn [negb].
  - rewrite out_open_rb_read. by destruct (read_bytes s _).
  - by rewrite set_iter_empty.
Qed.

Lemma elem_of_index_seeds {order : SetOrder} s h :
  h ∈ index_seeds s
  ↔ ∃ X, index_ids s = Some X ∧ h ∈ X ∧ length h = 40%nat.
Proof.
  unfold index_seeds. rewrite parse_index_file_ids.
  destruct (index_ids s) as [X|].
  - rewrite list_elem_of_filter, elem_of_set_iter. split.
    + intros [Hl Hh]. by exists X.
    + by intros (X' & [= <-] & Hh & Hl).
  - split; [by intros ?%elem_of_nil|by intros (X & [=] & _)].
Qed.

(** What a completed run requests: the objects of its two seed lists, no
    more and no less. *)
Lemma requests_object_complete {order : SetOrder} s h :
  out (dump self s) = Ret true →
  requests_object (trace (dump self s)) h
  ↔ h ∈ ref_seeds (refs_state self s) ∨ h ∈ index_seeds (index_state self s).
Proof.
  intros Hout. split; [apply requests_object_seed|].
  destruct (probe_ok self) eqn:Hp;
    [|by rewrite (dump_not_exposed self s Hp) in Hout].
  destruct (dump_exposed self s Hp) as [[_ Htr] _].
  unfold requests_object. rewrite (Htr true Hout), fetched_expected_trace.
  intros Hh. apply elem_of_cons. right. apply elem_of_app. right.
  apply elem_of_app. destruct Hh as [Hh|Hh]; [left|right];
    apply list_elem_of_fmap_2; [by apply elem_of_set_iter|done].
Qed.

(** A run each of whose phases leaves the state as it is. *)
Lemma dump_replay {order : SetOrder} s hashes tA tB tC :
  probe_ok self = true →
  mkdir OutputDir s = (Ret tt, s, []) →
  for_each metadata_files (file_body self) s = (Ret tt, s, tA) →
  out (collect_ref_hashes s) = Ret hashes →
  for_each (set_iter hashes) (object_body self) s = (Ret tt, s, tB) →
  is_Some (index_ids s) →
  for_each (index_seeds s) (object_body self) s = (Ret tt, s, tC) →
  out (dump self s) = Ret true
  ∧ final (dump self s) = s
  ∧ refs_state self s = s
  ∧ index_state self s = s.
Proof.
  intros Hp Hmk HA Hc HB [X HX] HC.
  assert (dump_metadata self s = (Ret tt, s, [] ++ tA)) as Hmeta.
  { rewrite dump_metadata_loop. by apply (bind_ret_run _ _ s tt s). }
  assert (dump_objects_from_refs self s = (Ret tt, s, [] ++ tB)) as Hrefs.
  { apply (bind_ret_run _ _ s hashes s); [|done].
    by rewrite (reads_only_run _ s collect_ref_hashes_reads_only), Hc. }
  assert (dump_objects_from_index self s = (Ret tt, s, [] ++ tC)) as Hindex.
  { rewrite dump_objects_from_index_loop.
    apply (bind_ret_run _ _ s (set_iter X) s).
    - by rewrite (reads_only_run _ s parse_index_file_reads_only),
        parse_index_file_ids, HX.
    - revert HC. unfold index_seeds. by rewrite parse_index_file_ids, HX. }
  assert (refs_state self s = s) as Hrs by (unfold refs_state; by rewrite Hmeta).
  assert (index_state self s = s) as His.
  { unfold index_state. by rewrite Hrs, Hrefs. }
  assert (dump self s
          = (Ret true, s,
             [Fetch (lit "HEAD") (resp self (lit "HEAD"))]
             ++ ([] ++ tA) ++ ([] ++ tB) ++ ([] ++ tC) ++ [])) as Hd.
  { rewrite dump_phases. apply (bind_ret_run _ _ s true s).
    - rewrite check_git_exposed_run. fold (probe_ok self). by rewrite Hp.
    - cbn [negb]. apply (bind_ret_run _ _ s tt s); [done|].
      apply (bind_ret_run _ _ s tt s); [done|].
      by apply (bind_ret_run _ _ s tt s). }
  by rewrite Hd.
Qed.

End Replay.

(** ** The second of two runs in a row *)

Section Rerun.
Context {net : Network} {codec : Codec}.
Variable self : GitDumper.

Lemma mkdir_output_ret (s s' : MapFS.state) t :
  mkdir OutputDir s = (Ret tt, s', t) → s' = s ∧ s !! [] = None.
Proof.
  unfold mkdir. cbn [path_mkdir MapFS.fs MapFS.resolve].
  destruct (MapFS.file_on_path s []) eqn:Hf; cbn [negb]; [done|].
  intros [= <- <-]. split; [done|].
  destruct (s !! []) as [c|] eqn:Hs; [|done].
  assert (MapFS.file_on_path s [] = true) as Ht; [|congruence].
  apply file_on_path_true. exists []. by rewrite Hs.
Qed.

Lemma mkdir_output_root (s : MapFS.state) :
  s !! [] = None → mkdir OutputDir s = (Ret tt, s, []).
Proof.
  intros Hs. unfold mkdir. cbn [path_mkdir MapFS.fs MapFS.resolve].
  destruct (MapFS.file_on_path s []) eqn:Hf; [|done].
  apply file_on_path_true in Hf as (k & [c Hc] & ->%prefix_nil_inv). congruence.
Qed.

Lemma git_file_not_objects p k :
  MapFS.resolve p = Some k →
  match k with
  | [a; b] => bool_decide (a = lit ".git" ∧ b ≠ lit "objects")
  | _ => false
  end = true →
  ¬ MapFS.objects_key k.
Proof.
  intros _ Hk [r Heq]. destruct k as [|a [|b [|? ?]]]; try done.
  apply bool_decide_eq_true in Hk as [-> Hb]. cbn [app] in Heq. congruence.
Qed.

(** The seeds of the refs are the same in a tree that grew below
    [objects] only, when [HEAD] names nothing below [objects]. *)
Lemma collect_agree (sb s : MapFS.state) raw hashes :
  MapFS.frame sb s →
  sb !! [lit ".git"; lit "HEAD"] = Some raw →
  (∀ ref_path k,
     head_target raw = Some ref_path →
     MapFS.resolve (OutputDir </> lit ".git" </> ref_path) = Some k →
     ¬ MapFS.objects_key k) →
  out (collect_ref_hashes sb) = Ret hashes →
  out (collect_ref_hashes s) = Ret hashes.
Proof.
  intros Hf Hraw Htarget.
  assert (is_Some (sb !! [lit ".git"; lit "HEAD"])) as Hh by by rewrite Hraw.
  unfold collect_ref_hashes. cbv zeta. rewrite !out_bind.
  rewrite (proj1 (@read_head_reads_only MapFS.fs codec _ _ sb)),
    (proj1 (@read_head_reads_only MapFS.fs codec _ _ s)).
  rewrite (@read_head_agree MapFS.fs codec _ _ sb s).
  - destruct (out (@read_head MapFS.fs codec _ _ sb)) as [hashes0|e]; [|done].
    apply read_refs_agree.
    + symmetry. apply (frame_agree sb s Hf Hh). intros k Hk.
      apply (git_file_not_objects _ _ Hk). revert Hk. vm_compute.
      by intros [= <-].
    + cbn [path_rglob MapFS.fs].
      destruct (MapFS.resolve _) as [k|] eqn:Hk; [|done].
      assert (k = [lit ".git"; lit "refs"]) as ->.
      { apply (inj Some). rewrite <- Hk. vm_compute. reflexivity. }
      apply fmap_Permutation. symmetry. by apply frame_below.
    + intros ref_file Hin. cbn [path_rglob MapFS.fs] in Hin.
      destruct (MapFS.resolve _) as [k|] eqn:Hk; [|by apply elem_of_nil in Hin].
      assert (k = [lit ".git"; lit "refs"]) as ->.
      { apply (inj Some). rewrite <- Hk. vm_compute. reflexivity. }
      apply list_elem_of_fmap in Hin as (k' & -> & Hk').
      apply elem_of_below in Hk' as (_ & _ & _ & Hpre & _).
      destruct (frame_agree sb s Hf Hh (MapFS.to_path k')) as (_ & Hrd & Hfile).
      { intros k''. by apply resolve_to_path_refs. }
      unfold ref_step. by rewrite Hrd, Hfile.
  - split; symmetry; apply (frame_agree sb s Hf Hh); intros k Hk;
      apply (git_file_not_objects _ _ Hk); revert Hk; vm_compute;
      by intros [= <-].
  - intros raw' ref_path Hraw' Href.
    assert (raw' = raw) as ->.
    { revert Hraw'. cbn [read_bytes MapFS.fs].
      change (MapFS.resolve (OutputDir </> lit ".git" </> lit "HEAD"))
        with (Some [lit ".git"; lit "HEAD"]).
      cbn [mbind option_bind]. congruence. }
    split; symmetry; apply (frame_agree sb s Hf Hh); intros k; by apply Htarget.
Qed.

Lemma index_ids_agree (sb s : MapFS.state) :
  MapFS.frame sb s → is_Some (sb !! [lit ".git"; lit "HEAD"]) →
  index_ids s = index_ids sb.
Proof.
  intros Hf Hh. unfold index_ids. cbv zeta.
  destruct (frame_agree sb s Hf Hh (OutputDir </> lit ".git" </> lit "index"))
    as (-> & -> & _); [|done].
  intros k Hk. apply (git_file_not_objects _ _ Hk). revert Hk. vm_compute.
  by intros [= <-].
Qed.

Lemma plain_inside q : MapFS.plain q = true → MapFS.inside q = true.
Proof. unfold MapFS.plain. by intros [[? _]%andb_true_iff _]%andb_true_iff. Qed.

Lemma resolve_git_join ref_path :
  MapFS.inside ref_path = true →
  MapFS.resolve (OutputDir </> lit ".git" </> ref_path)
  = Some (lit ".git" :: MapFS.components ref_path).
Proof.
  intros Hin. cbn [MapFS.resolve].
  change (MapFS.inside (lit ".git")) with true.
  change (MapFS.components (lit ".git")) with [lit ".git"].
  cbn [mbind option_bind app]. by rewrite Hin.
Qed.

(** C9, as the code has it.  Two runs in a row against a server that
    answers the same way, in the same output directory.  When the first run
    completes, the path that [HEAD] names stays in the tree (it is
    relative, without [..], made of at most 255 ASCII characters other
    than NUL) and is not below [objects], and the ids read from the ref
    files are 40 hexadecimal digits, the second run completes too, leaves
    the directory tree exactly as the first run left it, and requests the
    same objects, in whatever order the two runs go through their sets of
    ids. *)
Theorem second_run_changes_nothing (o1 o2 : SetOrder) (s0 : MapFS.state) :
  let r1 := @dump net MapFS.fs codec o1 self s0 in
  let r2 := @dump net MapFS.fs codec o2 self (final r1) in
  out r1 = Ret true →
  (∀ body ref_path,
     fetched_body (resp self (lit "HEAD")) = Some body →
     head_target body = Some ref_path →
     MapFS.plain ref_path = true
     ∧ ¬ MapFS.objects_key (lit ".git" :: MapFS.components ref_path)) →
  (∀ h, h ∈ ref_seeds (refs_state self s0) → is_sha1 h) →
  out r2 = Ret true
  ∧ final r2 = final r1
  ∧ ∀ h, requests_object (trace r1) h ↔ requests_object (trace r2) h.
Proof.
  intros r1 r2 Hout Hhead Hsha. subst r1 r2.
  destruct (@dump_ret_phases net MapFS.fs codec o1 self s0 Hout)
    as (sM & tA & tB & tC & Hp & Hmk & HA & Hc & HB & Hi & HC).
  pose proof (@requests_object_complete net MapFS.fs codec self o1 s0) as Hreq1.
  revert Hreq1 Hsha Hmk HA Hc HB Hi HC.
  generalize (@refs_state net MapFS.fs self s0).
  generalize (@index_state net MapFS.fs codec o1 self s0).
  generalize (final (@dump net MapFS.fs codec o1 self s0)).
  intros s1 sB sA Hreq1 Hsha Hmk HA Hc HB Hi HC.
  apply mkdir_output_ret in Hmk as [-> Hroot].
  assert (∃ body, fetched_body (resp self (lit "HEAD")) = Some body)
    as [body Hbody].
  { unfold probe_ok in Hp. destruct (fetched_body _) as [c|]; [by exists c|done]. }
  assert (∀ x, x ∈ @index_seeds MapFS.fs o1 sB → is_sha1 x) as Hsha_idx.
  { intros x (content & j & _ & Hj & ->)%index_seeds_sources.
    apply window_is_sha1. lia. }
  assert (∀ x, x ∈ metadata_files → known_path (id x)) as Hk_meta
    by (intros x Hx; by left).
  assert (∀ x, x ∈ @set_iter o1 (ref_seeds sA) → known_path (obj_path x))
    as Hk_refs.
  { intros x Hx%elem_of_set_iter. right. exists x. split; [by apply Hsha|done]. }
  assert (∀ x, x ∈ @index_seeds MapFS.fs o1 sB → known_path (obj_path x))
    as Hk_idx.
  { intros x Hx. right. exists x. split; [by apply Hsha_idx|done]. }
  pose proof (λ x s, save_block_run self x (lit ".git/" ++ x) s) as Hb_meta.
  pose proof (dump_object_unit_run self) as Hb_obj.
  (* what the first run leaves settled *)
  pose proof (loop_settles self id (file_body self) Hb_meta (λ _, False)
                _ _ _ _ HA Hk_meta (λ p (F : False), match F with end)) as HSA.
  pose proof (loop_settles self obj_path (object_body self) Hb_obj _
                _ _ _ _ HB Hk_refs HSA) as HSB.
  pose proof (loop_settles self obj_path (object_body self) Hb_obj _
                _ _ _ _ HC Hk_idx HSB) as HS1.
  pose proof (loop_root self id (file_body self) Hb_meta _ _ _ _ HA Hk_meta Hroot)
    as HrootA.
  pose proof (loop_root self obj_path (object_body self) Hb_obj
                _ _ _ _ HB Hk_refs HrootA) as HrootB.
  pose proof (loop_root self obj_path (object_body self) Hb_obj
                _ _ _ _ HC Hk_idx HrootB) as Hroot1.
  assert (MapFS.frame sA sB) as HfAB.
  { apply (loop_frame self obj_path (object_body self) Hb_obj _ sA sA sB tB HB);
      [|apply frame_refl].
    intros x Hx%elem_of_set_iter. exists x. split; [by apply Hsha|done]. }
  assert (MapFS.frame sB s1) as HfB1.
  { apply (loop_frame self obj_path (object_body self) Hb_obj _ sB sB s1 tC HC);
      [|apply frame_refl].
    intros x Hx. exists x. split; [by apply Hsha_idx|done]. }
  pose proof (frame_trans _ _ _ HfAB HfB1) as HfA1.
  assert (sA !! [lit ".git"; lit "HEAD"] = Some body) as HheadA.
  { destruct (HSA (lit "HEAD")) as [_ Hset].
    - right. exists (lit "HEAD"). split; [|done].
      apply (bool_decide_unpack _). vm_compute. exact I.
    - by destruct (Hset body Hbody) as [Hlk _]. }
  assert (is_Some (sB !! [lit ".git"; lit "HEAD"])) as HheadB.
  { apply (proj2 HfAB). by exists body. }
  (* the second run *)
  destruct (loop_replay self id (file_body self) Hb_meta metadata_files s1)
    as [tA' HA'].
  { intros x c Hx Hxc. exists (MapFS.file_key x).
    split; [apply known_path_resolve; by left|].
    apply (HS1 x); [|done]. left. left. right. by exists x. }
  assert (∀ ref_path k,
            head_target body = Some ref_path →
            MapFS.resolve (OutputDir </> lit ".git" </> ref_path) = Some k →
            ¬ MapFS.objects_key k) as Hhead'.
  { intros ref_path k Href Hk.
    destruct (Hhead body ref_path Hbody Href) as [Hplain%plain_inside Hno].
    rewrite (resolve_git_join ref_path Hplain) in Hk. by injection Hk as <-. }
  pose proof (collect_agree sA s1 body _ HfA1 HheadA Hhead' Hc) as Hc'.
  destruct (loop_replay self obj_path (object_body self) Hb_obj
              (@set_iter o2 (ref_seeds sA)) s1) as [tB' HB'].
  { intros x c Hx%elem_of_set_iter Hxc. exists (MapFS.file_key (obj_path x)).
    split; [apply known_path_resolve, Hk_refs; by apply elem_of_set_iter|].
    apply (HS1 (obj_path x)); [|done]. left. right. exists x.
    split; [by apply elem_of_set_iter|done]. }
  pose proof (index_ids_agree sB s1 HfB1 HheadB) as Hids.
  assert (∀ h, h ∈ @index_seeds MapFS.fs o2 s1 ↔ h ∈ @index_seeds MapFS.fs o1 sB)
    as Hseeds.
  { intros h. by rewrite !elem_of_index_seeds, Hids. }
  assert (is_Some (index_ids s1)) as Hi'.
  { rewrite Hids. rewrite parse_index_file_ids in Hi.
    by destruct (index_ids sB) as [X|]; [|destruct Hi]. }
  destruct (loop_replay self obj_path (object_body self) Hb_obj
              (@index_seeds MapFS.fs o2 s1) s1) as [tC' HC'].
  { intros x c Hx%Hseeds Hxc. exists (MapFS.file_key (obj_path x)).
    split; [by apply known_path_resolve, Hk_idx|].
    apply (HS1 (obj_path x)); [|done]. right. by exists x. }
  destruct (@dump_replay net MapFS.fs codec self o2 s1 _ tA' tB' tC' Hp
              (mkdir_output_root s1 Hroot1) HA' Hc' HB' Hi' HC')
    as (Ho2 & Hf2 & Hrs2 & His2).
  split; [done|]. split; [done|]. intros h.
  rewrite (Hreq1 h Hout),
    (@requests_object_complete net MapFS.fs codec self o2 s1 h Ho2).
  rewrite Hrs2, His2, Hseeds.
  assert (ref_seeds s1 = ref_seeds sA) as ->; [|done].
  unfold ref_seeds at 1. by rewrite Hc'.
Qed.

End Rerun.

Lemma second_run_changes_nothing_witness :
  out (Scenario.run_dump_again Scenario.index_and_ref ∅) = Ret true
  ∧ final (Scenario.run_dump_again Scenario.index_and_ref ∅)
    = final (Scenario.run_dump Scenario.index_and_ref ∅)
  ∧ ∀ h, requests_object (trace (Scenario.run_dump Scenario.index_and_ref ∅)) h
         ↔ requests_object
             (trace (Scenario.run_dump_again Scenario.index_and_ref ∅)) h.
Proof.
  apply (@second_run_changes_nothing (serve Scenario.base Scenario.index_and_ref)
           Utf8.codec Scenario.dumper elements_order reverse_order ∅).
  - vm_compute. reflexivity.
  - intros body ref_path Hbody. vm_compute in Hbody. injection Hbody as <-.
    intros Href. vm_compute in Href. injection Href as <-.
    split; [vm_compute; reflexivity|].
    intros [r Hr]. vm_compute in Hr. discriminate Hr.
  - intros h Hh%elem_of_elements. revert Hh.
    replace (elements _) with [Scenario.idA] by (vm_compute; reflexivity).
    intros ->%list_elem_of_singleton.
    apply (bool_decide_unpack _). vm_compute. exact I.
Defined.

(** C9, as stated, fails when [HEAD] names the file of an object.  On the
    first run that file is not there yet when [HEAD] is followed: the
    object is saved later, for the index.  The second run finds it, reads
    the id [idC] in it, and requests and saves the object [idC], which the
    first run did not. *)
Lemma second_run_requests_more :
  out (Scenario.run_dump Scenario.rerun ∅) = Ret true
  ∧ out (Scenario.run_dump_again Scenario.rerun ∅) = Ret true
  ∧ ¬ requests_object (trace (Scenario.run_dump Scenario.rerun ∅)) Scenario.idC
  ∧ requests_object (trace (Scenario.run_dump_again Scenario.rerun ∅)) Scenario.idC
  ∧ final (Scenario.run_dump Scenario.rerun ∅)
      !! [lit ".git"; lit "objects"; lit "cc";
          lit "cccccccccccccccccccccccccccccccccccccc"] = None
  ∧ final (Scenario.run_dump_again Scenario.rerun ∅)
      !! [lit ".git"; lit "objects"; lit "cc";
          lit "cccccccccccccccccccccccccccccccccccccc"] = Some (blit "blob C").
Proof.
  split; [vm_compute; reflexivity|].
  split; [vm_compute; reflexivity|].
  split; [unfold requests_object; apply (bool_decide_unpack _); vm_compute; exact I|].
  split; [unfold requests_object; apply (bool_decide_unpack _); vm_compute; exact I|].
  split; vm_compute; reflexivity.
Qed.

(** * Further properties of the program *)

(** ** The URL given on the command line *)

Section UrlForms.

Lemma lstrip_char_replicate ch k l :
  Py.lstrip_char ch (replicate k ch ++ l) = Py.lstrip_char ch l.
Proof. induction k as [|k IH]; [done|]. cbn. by rewrite N.eqb_refl. Qed.

Lemma rstrip_char_app_replicate ch u k :
  Py.rstrip_char ch (u ++ replicate k ch) = Py.rstrip_char ch u.
Proof.
  unfold Py.rstrip_char.
  by rewrite reverse_app, reverse_replicate, lstrip_char_replicate.
Qed.

Lemma lstrip_char_head ch l : head (Py.lstrip_char ch l) ≠ Some ch.
Proof.
  induction l as [|c l IH]; [done|]. cbn.
  destruct (N.eqb_spec c ch); [done|]. cbn. congruence.
Qed.

Lemma rstrip_char_last ch u : last (Py.rstrip_char ch u) ≠ Some ch.
Proof. unfold Py.rstrip_char. rewrite last_reverse. apply lstrip_char_head. Qed.

(** [.git] has no slash in it: no match can begin in [u] and end behind
    the slash that follows [u]. *)
Lemma no_dot_git_across_slash u :
  ¬ occurs_dot_git u → ¬ occurs_dot_git ((u ++ lit "/") ++ lit ".gi").
Proof.
  intros Hu (x & y & Heq).
  assert (length u + 4 = length x + 4 + length y)%nat as Hlen.
  { apply (f_equal length) in Heq. rewrite !length_app in Heq.
    change (length (lit "/")) with 1%nat in Heq.
    change (length (lit ".gi")) with 3%nat in Heq.
    change (length (lit ".git")) with 4%nat in Heq. lia. }
  destruct (decide (length x + 4 ≤ length u)%nat) as [Hle|Hgt].
  - apply Hu. exists x, (take (length u - (length x + 4)) y).
    apply (f_equal (take (length u))) in Heq.
    rewrite <- !(assoc_L (++)), take_app_length in Heq.
    etrans; [exact Heq|].
    rewrite take_app_ge, take_app_ge; [|by
      change (length (lit ".git")) with 4%nat; lia|lia].
    change (length (lit ".git")) with 4%nat.
    by rewrite Nat.sub_add_distr.
  - apply (f_equal (λ l, l !! length u)) in Heq.
    rewrite <- !(assoc_L (++)) in Heq.
    rewrite lookup_app_r, Nat.sub_diag in Heq by lia.
    change (lit "/" ++ lit ".gi") with [47; 46; 103; 105] in Heq.
    rewrite lookup_app_r in Heq by lia.
    change (lit ".git") with [46; 103; 105; 116] in Heq.
    destruct (length u - length x)%nat as [|[|[|[|n]]]] eqn:Hn;
      cbn in Heq; try discriminate Heq; lia.
Qed.

(** X1.  Slashes at the end of the URL given to [GitDumper] do not count:
    the base URL is the URL without them, followed by [/.git/], so that no
    slash stands before [/.git/]. *)
Theorem base_url_ignores_trailing_slashes (url : str) (k : nat) :
  base_url (GitDumper_init (url ++ replicate k 47))
  = base_url (GitDumper_init url)
  ∧ ∃ stem j, url = stem ++ replicate j 47
              ∧ last stem ≠ Some 47
              ∧ base_url (GitDumper_init url) = stem ++ lit "/.git/".
Proof.
  unfold GitDumper_init. cbn [base_url]. split.
  - by rewrite rstrip_char_app_replicate.
  - destruct (rstrip_char_spec 47 url) as [j Hj].
    exists (Py.rstrip_char 47 url), j.
    split; [done|]. split; [apply rstrip_char_last|done].
Qed.

(** X2.  A URL with its scheme and without [.git] in it can be given as
    it is, with [/.git] or with [/.git/] behind it: [main] builds the same
    base URL from the three, the URL without its trailing slashes followed
    by [/.git/]. *)
Theorem main_url_with_or_without_dot_git (u : str) :
  Py.startswith u (lit "http://") = true
  ∨ Py.startswith u (lit "https://") = true →
  ¬ occurs_dot_git u →
  base_url (GitDumper_init (normalize_url u))
  = Py.rstrip_char 47 u ++ lit "/.git/"
  ∧ base_url (GitDumper_init (normalize_url (u ++ lit "/.git")))
    = Py.rstrip_char 47 u ++ lit "/.git/"
  ∧ base_url (GitDumper_init (normalize_url (u ++ lit "/.git/")))
    = Py.rstrip_char 47 u ++ lit "/.git/".
Proof.
  intros Hscheme Hu.
  assert (∀ x, with_scheme (u ++ x) = u ++ x) as Hws.
  { intros x. unfold with_scheme, Py.startswith in *.
    destruct Hscheme as [Hs|Hs]; apply bool_decide_eq_true in Hs.
    - rewrite (bool_decide_eq_true_2 (lit "http://" `prefix_of` u ++ x));
        [done|by apply prefix_app_r].
    - rewrite (bool_decide_eq_true_2 (lit "https://" `prefix_of` u ++ x));
        [by rewrite andb_false_r|by apply prefix_app_r]. }
  assert (with_scheme u = u) as Hws0.
  { specialize (Hws []). by rewrite app_nil_r in Hws. }
  unfold normalize_url, GitDumper_init. cbn [base_url]. cbv zeta.
  rewrite Hws0, !Hws, (re_sub_git_id u Hu).
  pose proof (re_sub_git_leftmost (u ++ lit "/") [] (no_dot_git_across_slash u Hu))
    as H1.
  pose proof (re_sub_git_leftmost (u ++ lit "/") (lit "/")
                (no_dot_git_across_slash u Hu)) as H2.
  rewrite app_nil_r, <- (assoc_L (++)) in H1.
  rewrite <- (assoc_L (++)) in H2.
  change (lit "/" ++ lit ".git") with (lit "/.git") in H1.
  change (lit "/" ++ lit ".git" ++ lit "/") with (lit "/.git/") in H2.
  change (re_sub_git (after_slash [])) with (@nil N) in H1.
  change (re_sub_git (after_slash (lit "/"))) with (@nil N) in H2.
  rewrite app_nil_r in H1, H2. rewrite H1, H2.
  change (lit "/") with (replicate 1 47).
  by rewrite rstrip_char_app_replicate.
Qed.

End UrlForms.

Lemma main_url_with_or_without_dot_git_witness :
  base_url (GitDumper_init (normalize_url (lit "https://target.com")))
  = Py.rstrip_char 47 (lit "https://target.com") ++ lit "/.git/"
  ∧ base_url (GitDumper_init (normalize_url (lit "https://target.com" ++ lit "/.git")))
    = Py.rstrip_char 47 (lit "https://target.com") ++ lit "/.git/"
  ∧ base_url (GitDumper_init (normalize_url (lit "https://target.com" ++ lit "/.git/")))
    = Py.rstrip_char 47 (lit "https://target.com") ++ lit "/.git/".
Proof.
  apply (main_url_with_or_without_dot_git (lit "https://target.com")).
  - right. vm_compute. reflexivity.
  - intros Ho%re_sub_git_occurs. vm_compute in Ho. lia.
Defined.

(** ** The probe and the download of one object *)

Section Probe.
Context `{Network, FileSystem, Codec, SetOrder}.
Variable self : GitDumper.

Lemma contains_spec haystack needle :
  Py.contains haystack needle = true ↔ ∃ x y, haystack = x ++ needle ++ y.
Proof.
  induction haystack as [|a haystack IH].
  - change (Py.contains [] needle)
      with (bool_decide (needle `prefix_of` []) || false).
    rewrite orb_false_r, bool_decide_eq_true. split.
    + intros ->%prefix_nil_inv. by exists [], [].
    + intros (x & y & Heq). symmetry in Heq.
      apply app_eq_nil in Heq as [_ [-> _]%app_eq_nil]. done.
  - change (Py.contains (a :: haystack) needle)
      with (bool_decide (needle `prefix_of` a :: haystack)
            || Py.contains haystack needle).
    rewrite orb_true_iff, bool_decide_eq_true, IH. split.
    + intros [[y ->]|(x & y & ->)]; [by exists [], y|by exists (a :: x), y].
    + intros (x & y & Heq). destruct x as [|b x].
      * left. exists y. done.
      * injection Heq as -> ->. right. by exists x, y.
Qed.

Lemma fetched_body_spec r c :
  fetched_body r = Some c ↔ r = Response 200 c ∧ c ≠ [].
Proof.
  split.
  - pose proof (returned_fetched_body r) as Hr.
    destruct (returned r) as [[|b c']|]; [congruence| |congruence].
    destruct Hr as [-> ->]. by intros [= <-].
  - intros [-> Hc]. by destruct c.
Qed.

Lemma fetched_body_none r :
  fetched_body r = None ↔ ∀ c, r = Response 200 c → c = [].
Proof.
  split.
  - intros Hn c ->. destruct c; [done|discriminate Hn].
  - intros Hr. destruct (fetched_body r) as [c|] eqn:Hc; [|done].
    apply fetched_body_spec in Hc as [-> Hc]. by destruct (Hr c eq_refl).
Qed.

Lemma probe_ok_marker :
  probe_ok self = true
  ↔ ∃ x y, resp self (lit "HEAD") = Response 200 (x ++ blit "ref:" ++ y).
Proof.
  unfold probe_ok. split.
  - destruct (fetched_body _) as [c|] eqn:Hc; [|done].
    apply fetched_body_spec in Hc as [-> _].
    intros (x & y & ->)%contains_spec. by exists x, y.
  - intros (x & y & Hr).
    assert (fetched_body (resp self (lit "HEAD")) = Some (x ++ blit "ref:" ++ y))
      as ->.
    { apply fetched_body_spec. split; [done|]. by destruct x. }
    apply contains_spec. by exists x, y.
Qed.

(** X3.  [dump] gives up, returning [False], exactly when the answer to
    the request for [HEAD] is not a 200 response with [ref:] somewhere in
    its body; the marker need not stand at the beginning. *)
Theorem dump_refuses_without_marker s :
  out (dump self s) = Ret false
  ↔ ¬ ∃ x y, resp self (lit "HEAD") = Response 200 (x ++ blit "ref:" ++ y).
Proof.
  rewrite <- probe_ok_marker. destruct (probe_ok self) eqn:Hp.
  - split; [|done]. intros Hout.
    by destruct (dump_exposed self s Hp) as [_ Hb]; specialize (Hb false Hout).
  - split; [done|]. intros _. by rewrite (dump_not_exposed self s Hp).
Qed.

(** X4.  A body of [HEAD] without a colon, such as the bare commit id of a
    detached [HEAD], fails the probe: the run stops after that one request,
    returns [False] and leaves the output directory as it is, whatever else
    the server exposes. *)
Theorem dump_stops_on_head_without_colon s c :
  resp self (lit "HEAD") = Response 200 c →
  ":"%byte ∉ c →
  dump self s = (Ret false, s, [Fetch (lit "HEAD") (Response 200 c)]).
Proof.
  intros Hr Hc. rewrite <- Hr. apply dump_not_exposed.
  destruct (probe_ok self) eqn:Hp; [|done].
  apply probe_ok_marker in Hp as (x & y & Hp). rewrite Hr in Hp.
  injection Hp as ->. destruct Hc.
  apply elem_of_app. right. rewrite !elem_of_cons. by do 3 right; left.
Qed.

Lemma dump_object_hit sha1_hash s c :
  resp self (obj_path sha1_hash) = Response 200 c → c ≠ [] →
  dump_object self sha1_hash s
  = match path_mkdir s (PathParent (OutputDir </> (lit ".git/" ++ obj_path sha1_hash)))
    with
    | (true, s1) =>
        match write_bytes s1 (OutputDir </> (lit ".git/" ++ obj_path sha1_hash)) c
        with
        | (true, s') =>
            (Ret true, s',
             [Fetch (obj_path sha1_hash) (Response 200 c);
              Write (lit ".git/" ++ obj_path sha1_hash) c])
        | (false, s') =>
            (Raise OSError, s', [Fetch (obj_path sha1_hash) (Response 200 c)])
        end
    | (false, s1) =>
        (Raise OSError, s1, [Fetch (obj_path sha1_hash) (Response 200 c)])
    end.
Proof.
  intros Hr Hc. unfold dump_object. rewrite bind_run, download_file_run, Hr.
  destruct c as [|b c]; [done|].
  change (returned (Response 200 (b :: c))) with (Some (b :: c)).
  unfold save_file. rewrite !bind_run. unfold mkdir.
  destruct (path_mkdir s _) as [[] s1]; [|done].
  rewrite !bind_run. unfold open_wb_write.
  by destruct (write_bytes s1 _ _) as [[] s'].
Qed.

(** X5.  [dump_object] on every answer of the server, for an id made of
    ASCII characters other than NUL, for which a failure of [mkdir] or of
    [open] is an [OSError].  Anything but a 200 response with a body that
    is not empty (another status, an exception of [requests], an empty
    body) makes it return [False] after its one request, with nothing
    written and the file system as it was.  A 200 response with a body
    makes it create the parent directory, write that body at
    [.git/objects/..] under the output directory and return [True] in the
    state that the write gives; when [mkdir] or the write fails, the
    [OSError] escapes. *)
Theorem dump_object_cases sha1_hash s :
  Forall (λ c, 1 ≤ c ≤ 127) sha1_hash →
  let p := obj_path sha1_hash in
  let file := OutputDir </> (lit ".git/" ++ p) in
  ((∀ c, resp self p = Response 200 c → c = []) →
   dump_object self sha1_hash s = (Ret false, s, [Fetch p (resp self p)]))
  ∧ (∀ c, resp self p = Response 200 c → c ≠ [] →
       dump_object self sha1_hash s
       = match path_mkdir s (PathParent file) with
         | (true, s1) =>
             match write_bytes s1 file c with
             | (true, s') =>
                 (Ret true, s',
                  [Fetch p (Response 200 c); Write (lit ".git/" ++ p) c])
             | (false, s') => (Raise OSError, s', [Fetch p (Response 200 c)])
             end
         | (false, s1) => (Raise OSError, s1, [Fetch p (Response 200 c)])
         end).
Proof.
  intros _ p file. split.
  - intros Hn%fetched_body_none.
    pose proof (dump_object_run self sha1_hash s) as Hb.
    unfold block_result in Hb. fold p in Hb. by rewrite Hn in Hb.
  - intros c. apply dump_object_hit.
Qed.

End Probe.

Lemma dump_stops_on_head_without_colon_witness :
  Scenario.run_dump Scenario.detached ∅
  = (Ret false, ∅,
     [Fetch (lit "HEAD")
        (Response 200 (blit "aaaaaaaaaaaaaaaaaaaaaaaaaaaaaaaaaaaaaaaa
"))]).
Proof.
  apply (@dump_stops_on_head_without_colon
           (serve Scenario.base Scenario.detached) MapFS.fs Utf8.codec
           elements_order Scenario.dumper ∅).
  - vm_compute. reflexivity.
  - apply (bool_decide_unpack _). vm_compute. exact I.
Defined.

Lemma dump_object_cases_witness :
  ((∀ c, @resp (serve Scenario.base Scenario.one_commit) Scenario.dumper
           (obj_path Scenario.idA) = Response 200 c → c = []) →
   @dump_object (serve Scenario.base Scenario.one_commit) MapFS.fs
     Scenario.dumper Scenario.idA ∅
   = (Ret false, ∅,
      [Fetch (obj_path Scenario.idA)
         (@resp (serve Scenario.base Scenario.one_commit) Scenario.dumper
            (obj_path Scenario.idA))]))
  ∧ (∀ c, @resp (serve Scenario.base Scenario.one_commit) Scenario.dumper
            (obj_path Scenario.idA) = Response 200 c → c ≠ [] →
       @dump_object (serve Scenario.base Scenario.one_commit) MapFS.fs
         Scenario.dumper Scenario.idA ∅
       = match @path_mkdir MapFS.fs ∅
                 (PathParent (OutputDir </> (lit ".git/" ++ obj_path Scenario.idA)))
         with
         | (true, s1) =>
             match @write_bytes MapFS.fs s1
                     (OutputDir </> (lit ".git/" ++ obj_path Scenario.idA)) c
             with
             | (true, s') =>
                 (Ret true, s',
                  [Fetch (obj_path Scenario.idA) (Response 200 c);
                   Write (lit ".git/" ++ obj_path Scenario.idA) c])
             | (false, s') =>
                 (Raise OSError, s',
                  [Fetch (obj_path Scenario.idA) (Response 200 c)])
             end
         | (false, s1) =>
             (Raise OSError, s1, [Fetch (obj_path Scenario.idA) (Response 200 c)])
         end).
Proof.
  apply (@dump_object_cases (serve Scenario.base Scenario.one_commit) MapFS.fs
           Scenario.dumper Scenario.idA ∅).
  apply (bool_decide_unpack _). vm_compute. exact I.
Defined.

(** ** The ids of the staging index *)

Lemma filter_Forall_id {A} (P : A → Prop) `{!∀ x, Decision (P x)} (l : list A) :
  Forall P l → filter P l = l.
Proof.
  induction 1 as [|x l Hx Hl IH]; [done|].
  by rewrite filter_cons_True, IH.
Qed.

Lemma size_list_to_set_le (l : list str) :
  (size (list_to_set l : gset str) ≤ length l)%nat.
Proof.
  induction l as [|x l IH]; [by rewrite list_to_set_nil, size_empty|].
  rewrite list_to_set_cons, size_union_alt, size_singleton. cbn [length].
  pose proof (subseteq_size (list_to_set l ∖ {[x]}) (list_to_set l : gset str)) as Hs.
  assert (list_to_set l ∖ {[x]} ⊆ (list_to_set l : gset str)) as Hsub.
  { by intros y [Hy _]%elem_of_difference. }
  specialize (Hs Hsub). lia.
Qed.

Section IndexIds.
Context `{Network, FileSystem, Codec, SetOrder}.
Variable self : GitDumper.

Lemma parse_index_file_content s hashes :
  out (parse_index_file s) = Ret hashes →
  if path_exists s (OutputDir </> lit ".git" </> lit "index") then
    ∃ content,
      read_bytes s (OutputDir </> lit ".git" </> lit "index") = Some content
      ∧ hashes = set_iter (list_to_set (window content
                                          <$> seq 0 (length content - 20)))
  else hashes = [].
Proof.
  rewrite parse_index_file_ids. unfold index_ids. cbv zeta.
  destruct (path_exists s _).
  - destruct (read_bytes s _) as [content|]; [|done]. cbn [mbind option_bind].
    intros [= <-]. exists content. by rewrite index_scan_windows.
  - intros [= <-]. apply set_iter_empty.
Qed.

(** X6.  What [parse_index_file] returns.  Without an index file, the
    empty list.  With one, a list without repetition that holds exactly the
    hexadecimal forms of the 20-byte slices [content[j:j+20]] at the
    offsets [j] with [j + 20 < len(content)]. *)
Theorem parse_index_file_windows s hashes :
  out (parse_index_file s) = Ret hashes →
  NoDup hashes
  ∧ if path_exists s (OutputDir </> lit ".git" </> lit "index") then
      ∃ content,
        read_bytes s (OutputDir </> lit ".git" </> lit "index") = Some content
        ∧ ∀ h, h ∈ hashes
               ↔ ∃ j, (j + 20 < length content)%nat
                      ∧ h = Py.hex (take 20 (drop j content))
    else hashes = [].
Proof.
  intros Hout. split; [by apply (parse_index_file_NoDup s)|].
  apply parse_index_file_content in Hout.
  destruct (path_exists s _); [|done].
  destruct Hout as (content & Hc & ->). exists content. split; [done|].
  intros h. rewrite elem_of_set_iter, elem_of_list_to_set, list_elem_of_fmap.
  split.
  - intros (j & -> & Hj%elem_of_seq). exists j. split; [lia|done].
  - intros (j & Hj & ->). exists j. split; [done|]. apply elem_of_seq. lia.
Qed.

Lemma parse_index_file_sha1 s hashes :
  out (parse_index_file s) = Ret hashes → Forall is_sha1 hashes.
Proof.
  intros Hout%parse_index_file_content.
  destruct (path_exists s _); [|subst hashes; constructor].
  destruct Hout as (content & _ & ->). apply Forall_forall. intros h.
  rewrite elem_of_set_iter, elem_of_list_to_set, list_elem_of_fmap.
  intros (j & -> & Hj%elem_of_seq). apply window_is_sha1. lia.
Qed.

(** X7.  Every id that [parse_index_file] returns is made of 40
    hexadecimal digits, so the test [len(sha1_hash) == 40] of
    [dump_objects_from_index] rejects none of them: the ids are requested
    one after the other, in the order of the list, all of them unless a
    write raises. *)
Theorem dump_objects_from_index_requests_all s hashes :
  out (parse_index_file s) = Ret hashes →
  Forall is_sha1 hashes
  ∧ fetched (trace (dump_objects_from_index self s))
      `prefix_of` (obj_path <$> hashes)
  ∧ (out (dump_objects_from_index self s) = Ret tt →
     fetched (trace (dump_objects_from_index self s)) = obj_path <$> hashes).
Proof.
  intros Hout. pose proof (parse_index_file_sha1 s hashes Hout) as Hsha.
  split; [done|].
  assert (index_seeds s = hashes) as Hseeds.
  { unfold index_seeds. rewrite Hout. apply filter_Forall_id.
    eapply Forall_impl; [exact Hsha|]. by intros h [Hl _]. }
  destruct (follows_dump_objects_from_index self s) as [Hpre Hall].
  rewrite Hseeds in Hpre, Hall. split.
  - apply fetched_prefix in Hpre. by rewrite fetched_objects_trace in Hpre.
  - intros Ho. by rewrite (Hall tt Ho), fetched_objects_trace.
Qed.

(** X8.  The index file gives at most [len(content) - 20] ids, and none
    when it has 20 bytes or fewer. *)
Theorem parse_index_file_bound s content hashes :
  read_bytes s (OutputDir </> lit ".git" </> lit "index") = Some content →
  out (parse_index_file s) = Ret hashes →
  (length hashes ≤ length content - 20)%nat
  ∧ ((length content ≤ 20)%nat → hashes = []).
Proof.
  intros Hc Hout%parse_index_file_content.
  assert (length hashes ≤ length content - 20)%nat as Hlen.
  { destruct (path_exists s _); [|subst hashes; cbn; lia].
    destruct Hout as (content' & Hc' & ->). rewrite Hc in Hc'.
    injection Hc' as <-. rewrite set_iter_perm.
    etrans; [apply size_list_to_set_le|].
    by rewrite length_fmap, length_seq. }
  split; [done|]. intros Hshort. destruct hashes; [done|]. cbn in Hlen. lia.
Qed.

End IndexIds.

Lemma parse_index_file_windows_witness :
  ∃ hashes,
    out (@parse_index_file MapFS.fs elements_order Scenario.with_short_index)
      = Ret hashes
    ∧ NoDup hashes
    ∧ if @path_exists MapFS.fs Scenario.with_short_index
           (OutputDir </> lit ".git" </> lit "index") then
        ∃ content,
          @read_bytes MapFS.fs Scenario.with_short_index
            (OutputDir </> lit ".git" </> lit "index") = Some content
          ∧ ∀ h, h ∈ hashes
                 ↔ ∃ j, (j + 20 < length content)%nat
                        ∧ h = Py.hex (take 20 (drop j content))
      else hashes = [].
Proof.
  eexists. split; [vm_compute; reflexivity|].
  apply (@parse_index_file_windows MapFS.fs elements_order).
  vm_compute. reflexivity.
Defined.

Lemma dump_objects_from_index_requests_all_witness :
  ∃ hashes,
    out (@parse_index_file MapFS.fs elements_order Scenario.with_short_index)
      = Ret hashes
    ∧ Forall is_sha1 hashes
    ∧ fetched (trace (@dump_objects_from_index
                        (serve Scenario.base Scenario.one_commit) MapFS.fs
                        elements_order Scenario.dumper Scenario.with_short_index))
        `prefix_of` (obj_path <$> hashes)
    ∧ (out (@dump_objects_from_index
              (serve Scenario.base Scenario.one_commit) MapFS.fs
              elements_order Scenario.dumper Scenario.with_short_index) = Ret tt →
       fetched (trace (@dump_objects_from_index
                         (serve Scenario.base Scenario.one_commit) MapFS.fs
                         elements_order Scenario.dumper Scenario.with_short_index))
       = obj_path <$> hashes).
Proof.
  eexists. split; [vm_compute; reflexivity|].
  apply (@dump_objects_from_index_requests_all
           (serve Scenario.base Scenario.one_commit) MapFS.fs
           elements_order Scenario.dumper).
  vm_compute. reflexivity.
Defined.

Lemma parse_index_file_bound_witness :
  ∃ hashes,
    out (@parse_index_file MapFS.fs elements_order Scenario.with_short_index)
      = Ret hashes
    ∧ (length hashes ≤ length Scenario.short_index - 20)%nat
    ∧ ((length Scenario.short_index ≤ 20)%nat → hashes = []).
Proof.
  eexists. split; [vm_compute; reflexivity|].
  apply (@parse_index_file_bound MapFS.fs elements_order
           Scenario.with_short_index Scenario.short_index).
  - vm_compute. reflexivity.
  - vm_compute. reflexivity.
Defined.

(** ** The ids of the refs *)

Section SplitFacts.

Lemma split_go_nonempty sep k cur s : Py.split_go sep k cur s ≠ [].
Proof.
  revert k cur. induction s as [|c s IH]; intros k cur; [done|].
  cbn [Py.split_go]. destruct k as [|k]; [|apply IH].
  destruct (Py.startswith (c :: s) sep); [done|apply IH].
Qed.

Lemma split_go_single sep cur s :
  (¬ ∃ x y, s = x ++ sep ++ y) →
  Py.split_go sep 0 cur s = [reverse cur ++ s].
Proof.
  revert cur. induction s as [|c s IH]; intros cur Hno.
  - cbn. by rewrite app_nil_r.
  - cbn [Py.split_go]. unfold Py.startswith.
    rewrite bool_decide_eq_false_2.
    + rewrite IH; [by rewrite reverse_cons, <- (assoc_L (++))|].
      intros (x & y & ->). apply Hno. by exists (c :: x), y.
    + intros [y Hy]. apply Hno. by exists [], y.
Qed.

Lemma split_go_two sep cur s :
  sep ≠ [] → (∃ x y, s = x ++ sep ++ y) →
  ∃ a b rest, Py.split_go sep 0 cur s = a :: b :: rest.
Proof.
  intros Hsep. revert cur. induction s as [|c s IH]; intros cur (x & y & Heq).
  - symmetry in Heq. apply app_eq_nil in Heq as [_ [? _]%app_eq_nil]. done.
  - cbn [Py.split_go]. destruct (Py.startswith (c :: s) sep) eqn:Hstart.
    + destruct (Py.split_go sep (pred (length sep)) [] s) as [|b rest] eqn:Hgo;
        [by apply split_go_nonempty in Hgo|].
      by exists (reverse cur), b, rest.
    + apply IH. destruct x as [|c' x].
      * unfold Py.startswith in Hstart. apply bool_decide_eq_false in Hstart.
        destruct Hstart. exists y. done.
      * injection Heq as -> ->. by exists x, y.
Qed.

(** [s.split(sep)[1]] raises [IndexError] exactly when [sep] does not
    occur in [s]. *)
Lemma split_second_none s sep :
  sep ≠ [] →
  Py.split s sep !! 1%nat = None ↔ ¬ ∃ x y, s = x ++ sep ++ y.
Proof.
  intros Hsep. unfold Py.split. split.
  - intros Hnone Hocc.
    destruct (split_go_two sep [] s Hsep Hocc) as (a & b & rest & Hgo).
    by rewrite Hgo in Hnone.
  - intros Hno. by rewrite split_go_single.
Qed.

End SplitFacts.

Section RefIds.
Context `{Network, FileSystem, Codec, SetOrder}.
Variable self : GitDumper.

Lemma read_text_Some s p text :
  read_text s p = Some text
  ↔ ∃ raw, read_bytes s p = Some raw ∧ decode_text raw = Some text.
Proof.
  unfold read_text. destruct (read_bytes s p) as [raw|]; cbn.
  - split; [by exists raw|]. by intros (raw' & [= <-] & ?).
  - split; [done|]. by intros (raw' & [=] & _).
Qed.

Lemma read_head_spec hashes s hashes' :
  out (read_head (OutputDir </> lit ".git") hashes s) = Ret hashes' →
  ∀ h, h ∈ hashes' ↔ h ∈ hashes ∨ head_seed s h.
Proof.
  unfold read_head, head_seed. cbv zeta. rewrite out_exists.
  destruct (path_exists s (OutputDir </> lit ".git" </> lit "HEAD")) eqn:Hex;
    cbn [negb].
  2:{ intros [= <-] h. split; [by left|]. by intros [?|[? _]]. }
  rewrite out_open_r_read.
  destruct (read_bytes s _) as [raw|] eqn:Hraw; [|done].
  destruct (decode_text raw) as [text|] eqn:Htext; [|done].
  assert (∀ text0, read_text s (OutputDir </> lit ".git" </> lit "HEAD")
                   = Some text0 → text0 = text) as Hsame.
  { intros text0 (raw' & Hr & Hd)%read_text_Some. congruence. }
  destruct (Py.startswith (Py.strip text) (lit "ref:")) eqn:Hstart; cbn [negb].
  2:{ intros [= <-] h. split; [by left|].
      intros [?|(_ & text0 & ? & ? & Ht & Hs & _)]; [done|].
      apply Hsame in Ht as ->. congruence. }
  destruct (Py.split (Py.strip text) (lit "ref: ") !! 1%nat) as [ref_path|]
    eqn:Hsplit; [|done].
  rewrite out_exists.
  destruct (path_exists s (OutputDir </> lit ".git" </> ref_path)) eqn:Hex';
    cbn [negb].
  2:{ intros [= <-] h. split; [by left|].
      intros [?|(_ & text0 & ? & ? & Ht & _ & Hsp & Hx & _)]; [done|].
      apply Hsame in Ht as ->. congruence. }
  rewrite out_open_r_read.
  destruct (read_bytes s (OutputDir </> lit ".git" </> ref_path)) as [raw'|]
    eqn:Hraw'; [|done].
  destruct (decode_text raw') as [text'|] eqn:Htext'; [|done].
  intros [= <-] h. rewrite elem_of_union, elem_of_singleton. split.
  - intros [? | ->]; [by left|]. right. split; [done|].
    exists text, ref_path, text'. repeat split; try done.
    + apply read_text_Some. by exists raw.
    + apply read_text_Some. by exists raw'.
  - intros [?|(_ & text0 & rp & text1 & Ht & _ & Hsp & _ & Ht' & ->)]; [by left|].
    apply Hsame in Ht as ->. rewrite Hsplit in Hsp. injection Hsp as <-.
    apply read_text_Some in Ht' as (raw1 & Hr1 & Hd1). right. congruence.
Qed.

Lemma ref_step_Some s ref_file X h :
  ref_step s ref_file = Some X →
  h ∈ X
  ↔ path_is_file s ref_file = true
    ∧ ∃ text, read_text s ref_file = Some text
              ∧ h = Py.strip text ∧ length h = 40%nat.
Proof.
  unfold ref_step. destruct (path_is_file s ref_file).
  2:{ intros [= <-]. split; [by intros ?%elem_of_empty|by intros [? _]]. }
  destruct (read_bytes s ref_file) as [raw|] eqn:Hraw; [|done].
  destruct (decode_text raw) as [text|] eqn:Htext; [|done].
  assert (∀ text0, read_text s ref_file = Some text0 → text0 = text) as Hsame.
  { intros text0 (raw' & Hr & Hd)%read_text_Some. congruence. }
  destruct (Nat.eqb_spec (length (Py.strip text)) 40) as [Hlen|Hlen];
    intros [= <-].
  - rewrite elem_of_singleton. split.
    + intros ->. split; [done|]. exists text. split; [|done].
      apply read_text_Some. by exists raw.
    + by intros (_ & text0 & ->%Hsame & -> & _).
  - split; [by intros ?%elem_of_empty|].
    intros (_ & text0 & ->%Hsame & -> & ?). done.
Qed.

Lemma read_refs_spec hashes s hashes' :
  out (read_refs (OutputDir </> lit ".git") hashes s) = Ret hashes' →
  ∀ h, h ∈ hashes' ↔ h ∈ hashes ∨ ref_file_seed s h.
Proof.
  unfold read_refs, ref_file_seed. fold ref_body. cbv zeta. rewrite out_exists.
  destruct (path_exists s (OutputDir </> lit ".git" </> lit "refs")); cbn [negb].
  2:{ intros [= <-] h. split; [by left|]. by intros [?|[? _]]. }
  rewrite out_bind. cbn [rglob out final fst snd].
  intros (Xs & HXs & ->)%for_fold_refs_ret h.
  apply mapM_Some in HXs.
  rewrite elem_of_union, elem_of_union_list. split.
  - intros [?|(X & HX & Hh)]; [by left|]. right. split; [done|].
    apply list_elem_of_lookup in HX as [i Hi].
    destruct (Forall2_lookup_r _ _ _ _ _ HXs Hi) as (ref_file & Hf & Hstep).
    destruct (proj1 (ref_step_Some _ _ _ h Hstep) Hh) as (Hisf & text & Ht).
    exists ref_file, text. split; [by eapply list_elem_of_lookup_2|done].
  - intros [?|(_ & ref_file & text & Hin & Hfile & Ht & -> & Hlen)]; [by left|].
    right. apply list_elem_of_lookup in Hin as [i Hi].
    destruct (Forall2_lookup_l _ _ _ _ _ HXs Hi) as (X & HX & Hstep).
    exists X. split; [by eapply list_elem_of_lookup_2|].
    apply (ref_step_Some _ _ _ (Py.strip text) Hstep). split; [done|].
    by exists text.
Qed.

(** X9.  The ids that [dump_objects_from_refs] collects, when reading the
    files raises nothing: the stripped text of the file that [HEAD] names,
    whatever its length, and the stripped text of each regular file below
    [refs] that is 40 characters long.  A [HEAD] that does not start with
    [ref:] gives no id. *)
Theorem collect_ref_hashes_spec s hashes :
  out (collect_ref_hashes s) = Ret hashes →
  ∀ h, h ∈ hashes ↔ head_seed s h ∨ ref_file_seed s h.
Proof.
  unfold collect_ref_hashes. cbv zeta. intros Ho.
  apply out_bind_reads_only in Ho as (hashes0 & Hhead & Hrefs);
    [|apply read_head_reads_only].
  intros h. rewrite (read_refs_spec _ _ _ Hrefs h), (read_head_spec _ _ _ Hhead h).
  rewrite elem_of_empty. tauto.
Qed.

Lemma out_for_each_cons {A} (x : A) l (body : A → M unit) s :
  out (for_each (x :: l) body s)
  = match out (body x s) with
    | Ret _ => out (for_each l body (final (body x s)))
    | Raise e => Raise e
    end.
Proof.
  exact (out_bind (body x) (λ _, for_each l body) s).
Qed.

Lemma object_loop_raises l s e :
  out (for_each l (λ sha1_hash, dump_object self sha1_hash;; ret tt) s) = Raise e →
  e = OSError.
Proof.
  revert s. induction l as [|h l IH]; intros s; [done|].
  rewrite out_for_each_cons.
  pose proof (dump_object_unit_run self h s) as Hb. unfold block_result in Hb.
  destruct (fetched_body _) as [c|].
  - destruct Hb as [_ [(s' & _ & ->)|(s' & _ & ->)]]; unfold out, final; cbn [fst snd].
    + apply IH.
    + by intros [= <-].
  - rewrite Hb. unfold out, final. cbn [fst snd]. apply IH.
Qed.

Lemma for_fold_refs_raise l hashes s e :
  out (for_fold l hashes ref_body s) = Raise e → e ≠ IndexError.
Proof.
  revert hashes. induction l as [|f l IH]; intros hashes; [done|].
  rewrite for_fold_cons, out_bind, ref_body_out,
    (proj1 (ref_body_reads_only hashes f s)).
  destruct (ref_step s f) as [X|]; [apply IH|].
  by destruct (read_bytes s f); intros [= <-].
Qed.

Lemma read_refs_raise git hashes s e :
  out (read_refs git hashes s) = Raise e → e ≠ IndexError.
Proof.
  unfold read_refs. fold ref_body. rewrite out_exists.
  destruct (path_exists s _); cbn [negb]; [|done].
  rewrite out_bind. cbn [rglob out final fst snd]. apply for_fold_refs_raise.
Qed.

Lemma read_head_IndexError hashes s :
  out (read_head (OutputDir </> lit ".git") hashes s) = Raise IndexError
  ↔ path_exists s (OutputDir </> lit ".git" </> lit "HEAD") = true
    ∧ ∃ text,
        read_text s (OutputDir </> lit ".git" </> lit "HEAD") = Some text
        ∧ Py.startswith (Py.strip text) (lit "ref:") = true
        ∧ Py.split (Py.strip text) (lit "ref: ") !! 1%nat = None.
Proof.
  unfold read_head. cbv zeta. rewrite out_exists.
  destruct (path_exists s (OutputDir </> lit ".git" </> lit "HEAD")) eqn:Hex;
    cbn [negb].
  2:{ split; [done|]. by intros [? _]. }
  rewrite out_open_r_read. unfold read_text.
  destruct (read_bytes s _) as [raw|] eqn:Hraw; cbn [mbind option_bind].
  2:{ split; [done|]. by intros (_ & text & ? & _). }
  destruct (decode_text raw) as [text|] eqn:Htext.
  2:{ split; [done|]. by intros (_ & text & ? & _). }
  destruct (Py.startswith (Py.strip text) (lit "ref:")) eqn:Hstart; cbn [negb].
  2:{ split; [done|]. intros (_ & text0 & [= <-] & ? & _). congruence. }
  destruct (Py.split (Py.strip text) (lit "ref: ") !! 1%nat) as [ref_path|]
    eqn:Hsplit.
  2:{ split; [|done]. intros _. split; [done|]. by exists text. }
  split.
  - rewrite out_exists.
    destruct (path_exists s (OutputDir </> lit ".git" </> ref_path));
      cbn [negb]; [|done].
    rewrite out_open_r_read.
    destruct (read_bytes s (OutputDir </> lit ".git" </> ref_path)) as [raw'|];
      [|done].
    by destruct (decode_text raw').
  - intros (_ & text0 & [= <-] & _ & ?). congruence.
Qed.

(** X10.  [dump_objects_from_refs] raises [IndexError] exactly when the
    saved [HEAD] is there and readable, its stripped text starts with
    [ref:], and [ref: ], with its space, occurs nowhere in it: the test
    [content.startswith('ref:')] passes and [content.split('ref: ')] has
    no second piece. *)
Theorem dump_objects_from_refs_IndexError s :
  out (dump_objects_from_refs self s) = Raise IndexError
  ↔ path_exists s (OutputDir </> lit ".git" </> lit "HEAD") = true
    ∧ ∃ text,
        read_text s (OutputDir </> lit ".git" </> lit "HEAD") = Some text
        ∧ lit "ref:" `prefix_of` Py.strip text
        ∧ ¬ ∃ x y, Py.strip text = x ++ lit "ref: " ++ y.
Proof.
  assert (lit "ref: " ≠ []) as Hsep.
  { intros Hx. vm_compute in Hx. discriminate Hx. }
  assert (out (dump_objects_from_refs self s) = Raise IndexError
          ↔ out (read_head (OutputDir </> lit ".git") ∅ s) = Raise IndexError)
    as ->.
  { unfold dump_objects_from_refs, collect_ref_hashes. cbv zeta.
    rewrite !out_bind, (proj1 (read_head_reads_only _ _ s)).
    destruct (out (read_head _ _ s)) as [hashes0|e];
      [|by split; intros [= ->]].
    destruct (out (read_refs _ hashes0 s)) as [hashes|e] eqn:Hrefs.
    - split; [|done]. by intros ?%object_loop_raises.
    - split; [|done]. intros [= ->]. by apply read_refs_raise in Hrefs. }
  rewrite read_head_IndexError. unfold Py.startswith.
  setoid_rewrite bool_decide_eq_true.
  by setoid_rewrite (split_second_none _ _ Hsep).
Qed.

End RefIds.

Lemma collect_ref_hashes_spec_witness :
  ∃ hashes,
    out (@collect_ref_hashes MapFS.fs Utf8.codec
           (final (Scenario.run_dump Scenario.one_commit ∅))) = Ret hashes
    ∧ ∀ h, h ∈ hashes
           ↔ @head_seed MapFS.fs Utf8.codec
               (final (Scenario.run_dump Scenario.one_commit ∅)) h
             ∨ @ref_file_seed MapFS.fs Utf8.codec
                 (final (Scenario.run_dump Scenario.one_commit ∅)) h.
Proof.
  eexists. split; [vm_compute; reflexivity|].
  apply (@collect_ref_hashes_spec MapFS.fs Utf8.codec).
  vm_compute. reflexivity.
Defined.

(** ** The requests of a whole run *)

Lemma count_NoDup_elem (p : str) (l : list str) :
  NoDup l → p ∈ l → length (filter (λ q, q = p) l) = 1%nat.
Proof.
  induction 1 as [|q l Hq Hl IH]; [by intros ?%elem_of_nil|].
  rewrite filter_cons. intros [->|Hp]%elem_of_cons.
  - rewrite decide_True by done. cbn [length]. by rewrite (count_absent q l Hq).
  - rewrite decide_False; [by apply IH|]. intros ->. done.
Qed.

Section Requests.
Context `{Network, FileSystem, Codec, SetOrder}.
Variable self : GitDumper.

Lemma fetched_completed_run s :
  out (dump self s) = Ret true →
  fetched (trace (dump self s))
  = lit "HEAD" :: (basic_files ++ ref_paths ++ log_paths)
    ++ (obj_path <$> set_iter (ref_seeds (refs_state self s)))
    ++ (obj_path <$> index_seeds (index_state self s)).
Proof.
  intros Hout.
  destruct (probe_ok self) eqn:Hp;
    [|by rewrite (dump_not_exposed self s Hp) in Hout].
  destruct (dump_exposed self s Hp) as [[_ Htr] _].
  by rewrite (Htr true Hout), fetched_expected_trace.
Qed.

(** X11.  The requests of a run that passes the probe, in order: [HEAD],
    the seven basic files, the six refs, the five logs, the objects of the
    ids collected from the refs, the objects of the ids of the index.  A
    run that returns has made them all; a run that an exception cuts short
    has made the first ones. *)
Theorem dump_request_sequence s :
  probe_ok self = true →
  fetched (trace (dump self s))
    `prefix_of`
    lit "HEAD" :: (basic_files ++ ref_paths ++ log_paths)
    ++ (obj_path <$> set_iter (ref_seeds (refs_state self s)))
    ++ (obj_path <$> index_seeds (index_state self s))
  ∧ (∀ b, out (dump self s) = Ret b →
       fetched (trace (dump self s))
       = lit "HEAD" :: (basic_files ++ ref_paths ++ log_paths)
         ++ (obj_path <$> set_iter (ref_seeds (refs_state self s)))
         ++ (obj_path <$> index_seeds (index_state self s))).
Proof.
  intros Hp. destruct (dump_exposed self s Hp) as [[Hpre Htr] _].
  rewrite <- fetched_expected_trace. split.
  - by apply fetched_prefix.
  - intros b Hb. by rewrite (Htr b Hb).
Qed.

(** X12.  A run that returns [True] has requested [HEAD] twice, once for
    the probe and once more among the basic files, and each of the other
    seventeen fixed paths once. *)
Theorem head_requested_twice s :
  out (dump self s) = Ret true →
  times (lit "HEAD") (trace (dump self s)) = 2%nat
  ∧ ∀ p, p ∈ basic_files ++ ref_paths ++ log_paths → p ≠ lit "HEAD" →
         times p (trace (dump self s)) = 1%nat.
Proof.
  intros Hout. unfold times. rewrite (fetched_completed_run s Hout).
  assert (NoDup (basic_files ++ ref_paths ++ log_paths)) as Hnd.
  { apply (bool_decide_unpack _). vm_compute. exact I. }
  assert (∀ p l, p ∈ basic_files ++ ref_paths ++ log_paths →
            length (filter (λ q, q = p) (obj_path <$> l)) = 0%nat) as Hobj.
  { intros p l Hp. apply count_absent.
    intros (h & -> & _)%list_elem_of_fmap.
    pose proof metadata_not_objects as Hm. rewrite Forall_forall in Hm.
    apply (Hm (obj_path h)); [by right|apply obj_path_objects]. }
  assert (∀ p, p ∈ basic_files ++ ref_paths ++ log_paths →
            length (filter (λ q, q = p)
                      ((basic_files ++ ref_paths ++ log_paths)
                       ++ (obj_path <$> set_iter (ref_seeds (refs_state self s)))
                       ++ (obj_path <$> index_seeds (index_state self s))))
            = 1%nat) as Hone.
  { intros p Hp. pose proof (count_NoDup_elem p _ Hnd Hp) as Hm.
    pose proof (Hobj p (set_iter (ref_seeds (refs_state self s))) Hp) as Hr.
    pose proof (Hobj p (index_seeds (index_state self s)) Hp) as Hi.
    revert Hm Hr Hi. generalize (basic_files ++ ref_paths ++ log_paths).
    intros M Hm Hr Hi. by rewrite !filter_app, !length_app, Hm, Hr, Hi. }
  split.
  - rewrite filter_cons_True by done. cbn [length]. rewrite Hone; [done|].
    apply (bool_decide_unpack _). vm_compute. exact I.
  - intros p Hp Hne. rewrite filter_cons_False by done. by apply Hone.
Qed.

End Requests.

Lemma dump_request_sequence_witness :
  fetched (trace (Scenario.run_dump Scenario.one_commit ∅))
    `prefix_of`
    lit "HEAD" :: (basic_files ++ ref_paths ++ log_paths)
    ++ (obj_path <$> set_iter (ref_seeds
          (@refs_state (serve Scenario.base Scenario.one_commit) MapFS.fs
             Scenario.dumper ∅)))
    ++ (obj_path <$> index_seeds
          (@index_state (serve Scenario.base Scenario.one_commit) MapFS.fs
             Utf8.codec elements_order Scenario.dumper ∅))
  ∧ (∀ b, out (Scenario.run_dump Scenario.one_commit ∅) = Ret b →
       fetched (trace (Scenario.run_dump Scenario.one_commit ∅))
       = lit "HEAD" :: (basic_files ++ ref_paths ++ log_paths)
         ++ (obj_path <$> set_iter (ref_seeds
               (@refs_state (serve Scenario.base Scenario.one_commit) MapFS.fs
                  Scenario.dumper ∅)))
         ++ (obj_path <$> index_seeds
               (@index_state (serve Scenario.base Scenario.one_commit) MapFS.fs
                  Utf8.codec elements_order Scenario.dumper ∅))).
Proof.
  apply (@dump_request_sequence (serve Scenario.base Scenario.one_commit)
           MapFS.fs Utf8.codec elements_order Scenario.dumper ∅).
  vm_compute. reflexivity.
Defined.

Lemma head_requested_twice_witness :
  times (lit "HEAD") (trace (Scenario.run_dump Scenario.one_commit ∅)) = 2%nat
  ∧ ∀ p, p ∈ basic_files ++ ref_paths ++ log_paths → p ≠ lit "HEAD" →
         times p (trace (Scenario.run_dump Scenario.one_commit ∅)) = 1%nat.
Proof.
  apply (@head_requested_twice (serve Scenario.base Scenario.one_commit)
           MapFS.fs Utf8.codec elements_order Scenario.dumper ∅).
  vm_compute. reflexivity.
Defined.

(** ** The directory tree a run leaves *)

Section Untouched.
Context {net : Network}.
Variable self : GitDumper.
Context {A : Type} (g : A → str) (body : A → M unit).
Hypothesis Hbody :
  ∀ x s, block_result self (g x) (lit ".git/" ++ g x) tt tt s (body x s).

(** A loop that completes changes the files of the bodies it received, and
    no other. *)
Lemma loop_untouched l s s' t :
  for_each l body s = (Ret tt, s', t) →
  (∀ x, x ∈ l → known_path (g x)) →
  ∀ k, (∀ x, x ∈ l → is_Some (fetched_body (resp self (g x))) →
             k ≠ MapFS.file_key (g x)) →
       s' !! k = s !! k.
Proof.
  intros Hrun Hk.
  apply (loop_ind self g body Hbody
           (λ done st, ∀ k, (∀ x, x ∈ done →
                               is_Some (fetched_body (resp self (g x))) →
                               k ≠ MapFS.file_key (g x)) →
                            st !! k = s !! k)
           l [] s s' t Hrun Hk).
  - done.
  - intros done x s1 Hx HP Hnone k Hcond. apply HP.
    intros y Hy. apply Hcond, elem_of_app. by left.
  - intros done x s1 c Hx HP Hc _ k Hcond.
    rewrite lookup_insert_ne.
    + apply HP. intros y Hy. apply Hcond, elem_of_app. by left.
    + intros Heq. apply (Hcond x); [|by rewrite Hc|done].
      apply elem_of_app. right. by left.
Qed.

End Untouched.

Section Persist.
Context {net : Network} {codec : Codec} {order : SetOrder}.
Variable self : GitDumper.

Lemma completed_run_tree (s0 : MapFS.state) :
  out (@dump net MapFS.fs codec order self s0) = Ret true →
  (∀ h, h ∈ ref_seeds (refs_state self s0) → is_sha1 h) →
  (∀ p, p ∈ fetched (trace (@dump net MapFS.fs codec order self s0)) →
        known_path p
        ∧ ∀ c, fetched_body (resp self p) = Some c →
               MapFS.settled (final (@dump net MapFS.fs codec order self s0))
                 (MapFS.file_key p) c)
  ∧ (∀ k, (∀ p, p ∈ fetched (trace (@dump net MapFS.fs codec order self s0)) →
                is_Some (fetched_body (resp self p)) → k ≠ MapFS.file_key p) →
          final (@dump net MapFS.fs codec order self s0) !! k = s0 !! k).
Proof.
  intros Hout Hsha.
  pose proof (@fetched_completed_run net MapFS.fs codec order self s0 Hout) as Hf.
  destruct (@dump_ret_phases net MapFS.fs codec order self s0 Hout)
    as (sM & tA & tB & tC & Hp & Hmk & HA & Hc & HB & Hi & HC).
  revert Hf Hsha Hmk HA Hc HB Hi HC.
  generalize (fetched (trace (@dump net MapFS.fs codec order self s0))).
  generalize (@refs_state net MapFS.fs self s0).
  generalize (@index_state net MapFS.fs codec order self s0).
  generalize (final (@dump net MapFS.fs codec order self s0)).
  intros s1 sB sA F -> Hsha Hmk HA Hc HB Hi HC.
  apply mkdir_output_ret in Hmk as [-> Hroot].
  assert (∀ x, x ∈ @index_seeds MapFS.fs order sB → is_sha1 x) as Hsha_idx.
  { intros x (content & j & _ & Hj & ->)%index_seeds_sources.
    apply window_is_sha1. lia. }
  assert (∀ x, x ∈ metadata_files → known_path (id x)) as Hk_meta
    by (intros x Hx; by left).
  assert (∀ x, x ∈ @set_iter order (ref_seeds sA) → known_path (obj_path x))
    as Hk_refs.
  { intros x Hx%elem_of_set_iter. right. exists x. split; [by apply Hsha|done]. }
  assert (∀ x, x ∈ @index_seeds MapFS.fs order sB → known_path (obj_path x))
    as Hk_idx.
  { intros x Hx. right. exists x. split; [by apply Hsha_idx|done]. }
  pose proof (λ x s, save_block_run self x (lit ".git/" ++ x) s) as Hb_meta.
  pose proof (dump_object_unit_run self) as Hb_obj.
  pose proof (loop_settles self id (file_body self) Hb_meta (λ _, False)
                _ _ _ _ HA Hk_meta (λ p (F : False), match F with end)) as HSA.
  pose proof (loop_settles self obj_path (object_body self) Hb_obj _
                _ _ _ _ HB Hk_refs HSA) as HSB.
  pose proof (loop_settles self obj_path (object_body self) Hb_obj _
                _ _ _ _ HC Hk_idx HSB) as HS1.
  pose proof (loop_untouched self id (file_body self) Hb_meta
                _ _ _ _ HA Hk_meta) as HUA.
  pose proof (loop_untouched self obj_path (object_body self) Hb_obj
                _ _ _ _ HB Hk_refs) as HUB.
  pose proof (loop_untouched self obj_path (object_body self) Hb_obj
                _ _ _ _ HC Hk_idx) as HUC.
  assert (lit "HEAD" ∈ metadata_files) as Hhead.
  { apply (bool_decide_unpack _). vm_compute. exact I. }
  split.
  - intros p Hin. apply HS1.
    apply elem_of_cons in Hin as [->|Hin];
      [left; left; right; by exists (lit "HEAD")|].
    apply elem_of_app in Hin as [Hin|Hin];
      [left; left; right; by exists p|].
    apply elem_of_app in Hin as [Hin|Hin];
      apply list_elem_of_fmap in Hin as (h & -> & Hh).
    + left. right. by exists h.
    + right. by exists h.
  - intros k Hcond. rewrite HUC, HUB, HUA; [done|..].
    + intros x Hx. apply Hcond. right. apply elem_of_app. by left.
    + intros x Hx. apply Hcond. right. apply elem_of_app. right.
      apply elem_of_app. left. by apply list_elem_of_fmap_2.
    + intros x Hx. apply Hcond. right. apply elem_of_app. right.
      apply elem_of_app. right. by apply list_elem_of_fmap_2.
Qed.


(** X14.  Such a run creates or rewrites the files of the bodies it
    received and touches nothing else: any other file of the output
    directory is there afterwards exactly as it was before, and no file has
    appeared beside them. *)
Theorem completed_run_touches_only_saved (s0 : MapFS.state) :
  out (@dump net MapFS.fs codec order self s0) = Ret true →
  (∀ body ref_path,
     fetched_body (resp self (lit "HEAD")) = Some body →
     head_target body = Some ref_path →
     MapFS.plain ref_path = true) →
  (∀ h, h ∈ ref_seeds (refs_state self s0) → is_sha1 h) →
  ∀ k,
    (∀ p, p ∈ fetched (trace (@dump net MapFS.fs codec order self s0)) →
          is_Some (fetched_body (resp self p)) →
          MapFS.resolve (OutputDir </> (lit ".git/" ++ p)) ≠ Some k) →
    final (@dump net MapFS.fs codec order self s0) !! k = s0 !! k.
Proof.
  intros Hout _ Hsha k Hcond.
  destruct (completed_run_tree s0 Hout Hsha) as [Hset Hun].
  apply Hun. intros p Hin Hb ->. apply (Hcond p Hin Hb).
  destruct (Hset p Hin) as [Hk _]. by apply known_path_resolve.
Qed.

End Persist.


Lemma completed_run_touches_only_saved_witness :
  final (Scenario.run_dump Scenario.index_and_ref Scenario.with_notes)
    !! [lit "notes.txt"]
  = Scenario.with_notes !! [lit "notes.txt"].
Proof.
  apply (@completed_run_touches_only_saved
           (serve Scenario.base Scenario.index_and_ref)
           Utf8.codec elements_order Scenario.dumper Scenario.with_notes).
  - vm_compute. reflexivity.
  - intros body ref_path Hbody. vm_compute in Hbody. injection Hbody as <-.
    intros Href. vm_compute in Href. injection Href as <-.
    vm_compute. reflexivity.
  - intros h Hh%elem_of_elements. revert Hh.
    replace (elements _) with [Scenario.idA] by (vm_compute; reflexivity).
    intros ->%list_elem_of_singleton.
    apply (bool_decide_unpack _). vm_compute. exact I.
  - apply (proj1 (Forall_forall
             (λ p, is_Some (@fetched_body
                              (@resp (serve Scenario.base Scenario.index_and_ref)
                                 Scenario.dumper p)) →
                   MapFS.resolve (OutputDir </> (lit ".git/" ++ p))
                   ≠ Some [lit "notes.txt"]) _)).
    apply (bool_decide_unpack _). vm_compute. exact I.
Defined.

(** ** Saving one file *)

Section SaveFile.
Implicit Types (s : MapFS.state) (k : MapFS.key) (c : bytes).

Lemma save_file_blocked q c s :
  (¬ ∃ k, MapFS.resolve (OutputDir </> q) = Some k ∧ MapFS.free s k) →
  save_file q c s = (Raise OSError, s, []).
Proof.
  intros Hno. unfold save_file. rewrite bind_run. unfold mkdir.
  cbn [path_mkdir MapFS.fs MapFS.resolve]. fold (MapFS.resolve (OutputDir </> q)).
  destruct (MapFS.resolve (OutputDir </> q)) as [k|] eqn:Hq; [|done].
  cbn [mbind option_bind]. destruct k as [|x k]; [done|].
  destruct (MapFS.file_on_path s (removelast (x :: k))) eqn:Hfile; [done|].
  cbn [negb]. rewrite bind_run. unfold open_wb_write.
  cbn [write_bytes MapFS.fs]. rewrite Hq, Hfile.
  rewrite bool_decide_eq_false_2 by done.
  destruct (MapFS.is_dir s (x :: k)) eqn:Hdir; [done|].
  destruct Hno. exists (x :: k). split; [done|]. by apply free_spec.
Qed.

(** X15.  [save_file] in a directory tree, for a path that stays in the
    tree (relative, without [..], of at most 255 ASCII characters other
    than NUL) and names something below the output directory.  When no regular file
    stands on the way to the path and the path is not a directory, the
    content is written there, replacing what the file held: reading the
    path back gives the content, and every other file is as before.
    Otherwise [OSError] is raised and the tree is left as it was. *)
Theorem save_file_cases q c s :
  MapFS.plain q = true →
  MapFS.components q ≠ [] →
  (MapFS.free s (MapFS.components q) →
   ∃ s', save_file q c s = (Ret tt, s', [Write q c])
         ∧ read_bytes s' (OutputDir </> q) = Some c
         ∧ ∀ k', k' ≠ MapFS.components q → s' !! k' = s !! k')
  ∧ (¬ MapFS.free s (MapFS.components q) →
     save_file q c s = (Raise OSError, s, [])).
Proof.
  intros Hq%plain_inside _.
  assert (MapFS.resolve (OutputDir </> q) = Some (MapFS.components q)) as Hres
    by by rewrite resolve_output_join, Hq.
  split.
  - intros Hfree. exists (<[MapFS.components q := c]> s).
    split; [by apply save_file_free|]. split.
    + cbn [read_bytes MapFS.fs]. rewrite Hres. cbn [mbind option_bind].
      apply lookup_insert_eq.
    + intros k' Hne. by rewrite lookup_insert_ne.
  - intros Hno. apply save_file_blocked. intros (k & Hk & Hfree).
    rewrite Hres in Hk. injection Hk as <-. done.
Qed.

End SaveFile.

Lemma save_file_cases_witness :
  (MapFS.free Scenario.with_notes (MapFS.components (lit ".git/HEAD")) →
   ∃ s', save_file (lit ".git/HEAD") (blit "ref: refs/heads/master")
           Scenario.with_notes
         = (Ret tt, s', [Write (lit ".git/HEAD") (blit "ref: refs/heads/master")])
         ∧ @read_bytes MapFS.fs s' (OutputDir </> lit ".git/HEAD")
           = Some (blit "ref: refs/heads/master")
         ∧ ∀ k', k' ≠ MapFS.components (lit ".git/HEAD") →
                 s' !! k' = Scenario.with_notes !! k')
  ∧ (¬ MapFS.free Scenario.with_notes (MapFS.components (lit ".git/HEAD")) →
     save_file (lit ".git/HEAD") (blit "ref: refs/heads/master")
       Scenario.with_notes
     = (Raise OSError, Scenario.with_notes, [])).
Proof.
  apply (save_file_cases (lit ".git/HEAD") (blit "ref: refs/heads/master")
           Scenario.with_notes).
  - vm_compute. reflexivity.
  - intros Hx. vm_compute in Hx. discriminate Hx.
Defined.

(** ** What a run writes, and what the tree holds afterwards *)

Section Persisted.
Context {net : Network} {codec : Codec} {order : SetOrder}.
Variable self : GitDumper.








(** *** The tree after the writes of a trace *)


Lemma replays_raise {A} (e : exn) : replays (@raise MapFS.fs A e).
Proof. done. Qed.


















End Persisted.


(** ** The path of an object *)

Section Sharding.
Context {net : Network} {fs : FileSystem}.
Variable self : GitDumper.

(** C8.  An object id of 40 hexadecimal digits is requested at
    [objects/<first two>/<remaining 38>], and that is the one request
    [dump_object] makes.  When the answer is a 200 response with a body
    that is not empty, [dump_object] creates the directory
    [<output>/.git/objects/<first two>] and writes the body, as received,
    to the file [<remaining 38>] in it, and returns [True]; when the
    directory cannot be created or the file cannot be written, the
    exception of the write ends the call.  Nothing is written anywhere
    else. *)
Theorem dump_object_sharded_path sha1_hash s :
  is_sha1 sha1_hash →
  ∃ a b, sha1_hash = a ++ b ∧ length a = 2%nat ∧ length b = 38%nat
    ∧ let p := lit "objects/" ++ a ++ lit "/" ++ b in
      let file := OutputDir </> (lit ".git/" ++ p) in
      MapFS.resolve file = Some [lit ".git"; lit "objects"; a; b]
      ∧ fetched (trace (dump_object self sha1_hash s)) = [p]
      ∧ (∀ q c, (q, c) ∈ written (trace (dump_object self sha1_hash s)) →
                q = lit ".git/" ++ p ∧ resp self p = Response 200 c)
      ∧ (∀ c, resp self p = Response 200 c → c ≠ [] →
           dump_object self sha1_hash s
           = match path_mkdir s (PathParent file) with
             | (true, s1) =>
                 match write_bytes s1 file c with
                 | (true, s') =>
                     (Ret true, s', [Fetch p (Response 200 c);
                                     Write (lit ".git/" ++ p) c])
                 | (false, s') =>
                     (Raise OSError, s', [Fetch p (Response 200 c)])
                 end
             | (false, s1) =>
                 (Raise OSError, s1, [Fetch p (Response 200 c)])
             end).
Proof.
  intros Hsha. pose proof Hsha as [Hlen _].
  exists (take 2 sha1_hash), (drop 2 sha1_hash).
  split; [by rewrite take_drop|].
  split; [rewrite length_take; lia|].
  split; [rewrite length_drop; lia|].
  cbv zeta. fold (obj_path sha1_hash).
  split; [by apply obj_key|].
  pose proof (dump_object_run self sha1_hash s) as Hb.
  unfold block_result in Hb.
  split; [|split].
  - destruct (fetched_body _) as [c|]; [|by rewrite Hb].
    by destruct Hb as [_ [(s' & _ & ->)|(s' & _ & ->)]].
  - destruct (fetched_body _) as [c|].
    + destruct Hb as [Hr [(s' & _ & ->)|(s' & _ & ->)]]; intros q c' Hq.
      * apply list_elem_of_singleton in Hq. by injection Hq as -> ->.
      * by apply elem_of_nil in Hq.
    + rewrite Hb. intros q c' Hq. by apply elem_of_nil in Hq.
  - intros c Hr Hc. by apply dump_object_hit.
Qed.

End Sharding.

Lemma dump_object_sharded_path_witness :
  is_sha1 Scenario.idA
  ∧ written (trace (@dump_object (serve Scenario.base Scenario.one_commit)
                      MapFS.fs Scenario.dumper Scenario.idA ∅))
    = [(lit ".git/objects/aa/aaaaaaaaaaaaaaaaaaaaaaaaaaaaaaaaaaaaaa",
        Scenario.commit_A)]
  ∧ final (@dump_object (serve Scenario.base Scenario.one_commit)
             MapFS.fs Scenario.dumper Scenario.idA ∅)
      !! [lit ".git"; lit "objects"; lit "aa";
          lit "aaaaaaaaaaaaaaaaaaaaaaaaaaaaaaaaaaaaaa"]
    = Some Scenario.commit_A
  ∧ ∃ a b, Scenario.idA = a ++ b ∧ length a = 2%nat ∧ length b = 38%nat
      ∧ MapFS.resolve (OutputDir </> (lit ".git/" ++ lit "objects/" ++ a ++ lit "/" ++ b))
        = Some [lit ".git"; lit "objects"; a; b]
      ∧ fetched (trace (@dump_object (serve Scenario.base Scenario.one_commit)
                          MapFS.fs Scenario.dumper Scenario.idA ∅))
        = [lit "objects/" ++ a ++ lit "/" ++ b].
Proof.
  split; [apply (bool_decide_unpack _); vm_compute; exact I|].
  split; [vm_compute; reflexivity|].
  split; [vm_compute; reflexivity|].
  destruct (@dump_object_sharded_path (serve Scenario.base Scenario.one_commit)
              MapFS.fs Scenario.dumper Scenario.idA ∅)
    as (a & b & Hab & Ha & Hb & Hkey & Hreq & _).
  { apply (bool_decide_unpack _). vm_compute. exact I. }
  by exists a, b.
Defined.

(** ** The objects of a completed run *)

Section RequestedObjects.
Context {net : Network} {fs : FileSystem} {codec : Codec} {order : SetOrder}.
Variable self : GitDumper.

Lemma index_seeds_seed s h : h ∈ index_seeds s ↔ index_seed s h.
Proof.
  unfold index_seeds, index_seed. cbv zeta.
  destruct (out (parse_index_file s)) as [hashes|e] eqn:Ho.
  - pose proof (parse_index_file_sha1 s hashes Ho) as Hsha.
    rewrite filter_Forall_id
      by (eapply Forall_impl; [exact Hsha|]; by intros h' [Hl _]).
    apply parse_index_file_content in Ho.
    destruct (path_exists s _).
    + destruct Ho as (content & Hc & ->).
      rewrite elem_of_set_iter, elem_of_list_to_set, list_elem_of_fmap. split.
      * intros (j & -> & Hj%elem_of_seq). split; [done|].
        exists content, j. split; [done|]. split; [lia|done].
      * intros (_ & content' & j & Hc' & Hj & ->).
        rewrite Hc in Hc'. injection Hc' as <-.
        exists j. split; [done|]. apply elem_of_seq. lia.
    + subst hashes. split; [by intros ?%elem_of_nil|by intros [? _]].
  - split; [by intros ?%elem_of_nil|].
    intros (Hex & content & j & Hc & _).
    rewrite parse_index_file_ids in Ho. unfold index_ids in Ho.
    cbv zeta in Ho. by rewrite Hex, Hc in Ho.
Qed.

(** C1, as the code has it.  A run that completes requests exactly the
    ids it reads from the files it has saved, and decodes no object: the
    stripped text of the file that [HEAD] names, the stripped text, 40
    characters long, of each regular file below [refs], both read when the
    metadata phases are over, and the hexadecimal form of each 20-byte
    window of the index that [parse_index_file] reads, read when the
    objects of the refs are done.  Among these ids it saves exactly those
    the server answers with a 200 response and a body that is not empty. *)
Theorem saved_objects_are_exposed_seeds s :
  out (dump self s) = Ret true →
  ∀ h,
    (requests_object (trace (dump self s)) h
     ↔ head_seed (refs_state self s) h
       ∨ ref_file_seed (refs_state self s) h
       ∨ index_seed (index_state self s) h)
    ∧ (saves_object (trace (dump self s)) h
       ↔ requests_object (trace (dump self s)) h ∧ exposed self h).
Proof.
  intros Hout h.
  destruct (dump_ret_phases self s Hout)
    as (s0 & tA & tB & tC & _ & _ & _ & Hc & _).
  assert (h ∈ ref_seeds (refs_state self s)
          ↔ head_seed (refs_state self s) h ∨ ref_file_seed (refs_state self s) h)
    as Hrefs.
  { revert Hc. generalize (ref_seeds (refs_state self s)). intros hashes.
    unfold collect_ref_hashes. cbv zeta. intros Ho.
    apply out_bind_reads_only in Ho as (hashes0 & Hhead & Hr);
      [|apply read_head_reads_only].
    rewrite (read_refs_spec _ _ _ Hr h), (read_head_spec _ _ _ Hhead h).
    rewrite elem_of_empty. tauto. }
  rewrite (saved_objects_seed_lists self s Hout h),
    (requests_object_complete self s h Hout), Hrefs, index_seeds_seed.
  tauto.
Qed.

End RequestedObjects.

Lemma saved_objects_are_exposed_seeds_witness :
  out (Scenario.run_dump Scenario.one_commit ∅) = Ret true
  ∧ @head_seed MapFS.fs Utf8.codec
      (@refs_state (serve Scenario.base Scenario.one_commit)
         MapFS.fs Scenario.dumper ∅) Scenario.idA
  ∧ (requests_object (trace (Scenario.run_dump Scenario.one_commit ∅)) Scenario.idA
     ↔ @head_seed MapFS.fs Utf8.codec
         (@refs_state (serve Scenario.base Scenario.one_commit)
            MapFS.fs Scenario.dumper ∅) Scenario.idA
       ∨ @ref_file_seed MapFS.fs Utf8.codec
           (@refs_state (serve Scenario.base Scenario.one_commit)
              MapFS.fs Scenario.dumper ∅) Scenario.idA
       ∨ @index_seed MapFS.fs
           (@index_state (serve Scenario.base Scenario.one_commit)
              MapFS.fs Utf8.codec elements_order Scenario.dumper ∅) Scenario.idA)
  ∧ (saves_object (trace (Scenario.run_dump Scenario.one_commit ∅)) Scenario.idA
     ↔ requests_object (trace (Scenario.run_dump Scenario.one_commit ∅)) Scenario.idA
       ∧ @exposed (serve Scenario.base Scenario.one_commit) Scenario.dumper
           Scenario.idA).
Proof.
  split; [vm_compute; reflexivity|].
  split.
  { split; [vm_compute; reflexivity|].
    exists (lit "ref: refs/heads/master
"), (lit "refs/heads/master"), (lit "aaaaaaaaaaaaaaaaaaaaaaaaaaaaaaaaaaaaaaaa
").
    repeat split; vm_compute; reflexivity. }
  apply (@saved_objects_are_exposed_seeds (serve Scenario.base Scenario.one_commit)
           MapFS.fs Utf8.codec elements_order Scenario.dumper ∅).
  vm_compute; reflexivity.
Defined.
